(** * Affiliate orchestrator backend: a shallow embedding of the Convex functions

    The backend is a set of Convex functions over five tables.  Queries and
    mutations are transactions on the document store; actions are sequences
    of [runQuery]/[runMutation] calls, sleeps and network requests that are
    not transactional as a whole.  The model follows that split:

    - [Handler A] is the state-and-error monad of a query or mutation
      handler: a throw aborts the transaction and leaves the store as it was;
    - [Action A] is the monad of an action: it threads the whole [World]
      (store, provider network, platform failures still to come, and the
      log of what the action did), and a throw keeps the world reached.

    Source files: [packages/backend/convex/servers.ts] (module [Servers]),
    the deployments functions (module [Deployments]), the API key functions
    (module [ApiKeys]: the version that reads [user._id], as servers.ts
    does, and whose [validateApiKeys] calls the providers; module
    [ApiKeysPlaceholder]: [validateApiKeys] of
    [packages/backend/convex/apiKeys.ts]),
    [packages/backend/convex/logging.ts] (module [Logging]), the schema, and
    of the web client [apps/web/src/components/api-key-management.tsx]
    (module [ApiKeyManagement]) and [apps/web/src/app/dashboard/page.tsx]
    (module [DashboardPage]). *)

From Stdlib Require Import ZArith Ascii String List.
From stdpp Require Import base option list gmap strings fin_maps sorting.

Local Open Scope string_scope.
Local Open Scope Z_scope.
Local Open Scope nat_scope.
Local Open Scope list_scope.

(** ** Thrown values and results *)

(** What a JavaScript [throw] carries: an [Error] with its message, or any
    other value. *)
Inductive Thrown : Type :=
| Error (message : string)
| NotAnError.

(** [error instanceof Error ? error.message : "Unknown error"] *)
Definition error_message (e : Thrown) : string :=
  match e with
  | Error m => m
  | NotAnError => "Unknown error"
  end.

Inductive Result (A : Type) : Type :=
| Ok (a : A)
| Throw (e : Thrown).
Arguments Ok {A} a.
Arguments Throw {A} e.

(** ** Schema (the [defineSchema] tables) *)

Module ServerStatus.
Inductive t : Type :=
| creating | installing | configuring | ready | error | deleting.

#[global] Instance eq_dec : EqDecision t.
Proof. solve_decision. Defined.

Definition all : list t :=
  [creating; installing; configuring; ready; error; deleting].
End ServerStatus.

Module DeploymentStatus.
Inductive t : Type :=
| deploying | running | stopped | error.

#[global] Instance eq_dec : EqDecision t.
Proof. solve_decision. Defined.
End DeploymentStatus.

Module ApiKeysDoc.
Record t : Type := mk {
  userId : string;
  hetznerApiKey : option string;
  dokployApiKey : option string;
  dokployUrl : option string;
  isHetznerValid : bool;
  isDokployValid : bool;
  lastValidated : option Z;
}.
End ApiKeysDoc.

Module ServerDoc.
Record t : Type := mk {
  userId : string;
  hetznerServerId : string;
  name : string;
  ipAddress : option string;
  status : ServerStatus.t;
  region : string;
  sshKeyId : option string;
  dokployInstalled : bool;
  createdAt : Z;
  errorMessage : option string;
}.

Definition with_status (s : ServerStatus.t) (d : t) : t :=
  mk (userId d) (hetznerServerId d) (name d) (ipAddress d) s (region d)
     (sshKeyId d) (dokployInstalled d) (createdAt d) (errorMessage d).
End ServerDoc.

Module DeploymentDoc.
Record t : Type := mk {
  userId : string;
  serverId : nat;
  name : string;
  domain : option string;
  status : DeploymentStatus.t;
  wordpressAdminUser : string;
  wordpressAdminPass : string;
  sslEnabled : bool;
  createdAt : Z;
  errorMessage : option string;
}.

Definition with_status (s : DeploymentStatus.t) (d : t) : t :=
  mk (userId d) (serverId d) (name d) (domain d) s (wordpressAdminUser d)
     (wordpressAdminPass d) (sslEnabled d) (createdAt d) (errorMessage d).
End DeploymentDoc.

Module ResourceType.
Inductive t : Type := server | deployment | api.

(** The literal, as a template string prints it. *)
Definition to_string (r : t) : string :=
  match r with
  | server => "server"
  | deployment => "deployment"
  | api => "api"
  end.
End ResourceType.

Module HealthStatus.
Inductive t : Type := healthy | warning | error.
End HealthStatus.

Module LogLevel.
Inductive t : Type := info | warning | error | debug.
End LogLevel.

(** A value of a metadata object ([v.object({})] in the schema). *)
Inductive MetaValue : Type :=
| MString (s : string)
| MNumber (z : Z)
| MUndefined.

Module HealthCheckDoc.
Record t : Type := mk {
  resourceType : ResourceType.t;
  resourceId : string;
  status : HealthStatus.t;
  checkType : string;
  responseTime : option Z;
  errorMessage : option string;
  checkedAt : Z;
}.
End HealthCheckDoc.

Module SystemLogDoc.
Record t : Type := mk {
  userId : option string;
  level : LogLevel.t;
  category : string;
  message : string;
  metadata : option (list (string * MetaValue));
  timestamp : Z;
}.
End SystemLogDoc.

(** ** Scheduled functions *)

Inductive JobFn : Type :=
| JProvisionServer (serverId : nat)
| JDestroyServer (serverId : nat)
| JDeployWordPress (deploymentId : nat)
| JDestroyWordPress (deploymentId : nat).

Record Job : Type := mkJob { delay : nat; fn : JobFn }.

(** ** The document store

    Document ids are opaque and never reused: [nextId] is the next fresh
    one.  [scheduled] is the queue [ctx.scheduler.runAfter] appends to. *)
Record Store : Type := mkStore {
  apiKeys : gmap nat ApiKeysDoc.t;
  servers : gmap nat ServerDoc.t;
  deployments : gmap nat DeploymentDoc.t;
  healthChecks : gmap nat HealthCheckDoc.t;
  systemLogs : gmap nat SystemLogDoc.t;
  scheduled : list Job;
  nextId : nat;
}.

Definition empty_store : Store := mkStore ∅ ∅ ∅ ∅ ∅ [] 0.

(** A table of the store: how to read its rows and how to write them back. *)
Record Table (D : Type) : Type := mkTable {
  rows : Store -> gmap nat D;
  put_rows : gmap nat D -> Store -> Store;
}.
Arguments rows {D} _ _.
Arguments put_rows {D} _ _ _.

Definition tbl_apiKeys : Table ApiKeysDoc.t :=
  mkTable ApiKeysDoc.t apiKeys
    (fun m st => mkStore m (servers st) (deployments st) (healthChecks st)
                         (systemLogs st) (scheduled st) (nextId st)).
Definition tbl_servers : Table ServerDoc.t :=
  mkTable ServerDoc.t servers
    (fun m st => mkStore (apiKeys st) m (deployments st) (healthChecks st)
                         (systemLogs st) (scheduled st) (nextId st)).
Definition tbl_deployments : Table DeploymentDoc.t :=
  mkTable DeploymentDoc.t deployments
    (fun m st => mkStore (apiKeys st) (servers st) m (healthChecks st)
                         (systemLogs st) (scheduled st) (nextId st)).
Definition tbl_healthChecks : Table HealthCheckDoc.t :=
  mkTable HealthCheckDoc.t healthChecks
    (fun m st => mkStore (apiKeys st) (servers st) (deployments st) m
                         (systemLogs st) (scheduled st) (nextId st)).
Definition tbl_systemLogs : Table SystemLogDoc.t :=
  mkTable SystemLogDoc.t systemLogs
    (fun m st => mkStore (apiKeys st) (servers st) (deployments st)
                         (healthChecks st) m (scheduled st) (nextId st)).

Definition bump_id (st : Store) : Store :=
  mkStore (apiKeys st) (servers st) (deployments st) (healthChecks st)
          (systemLogs st) (scheduled st) (S (nextId st)).

Definition enqueue (j : Job) (st : Store) : Store :=
  mkStore (apiKeys st) (servers st) (deployments st) (healthChecks st)
          (systemLogs st) (scheduled st ++ [j]) (nextId st).

(** ** The caller's context

    [auth_user] is the identity the call carries, [None] when it carries
    none; [now] is [Date.now()]. *)
Record Ctx : Type := mkCtx { auth_user : option string; now : Z }.

(** ** Handlers: queries and mutations *)

Definition Handler (A : Type) : Type := Store -> Result (A * Store).

Definition ret {A} (a : A) : Handler A := fun st => Ok (a, st).

Definition throw {A} (msg : string) : Handler A := fun _ => Throw (Error msg).

Definition bind {A B} (m : Handler A) (k : A -> Handler B) : Handler B :=
  fun st =>
    match m st with
    | Ok (a, st') => k a st'
    | Throw e => Throw e
    end.

Notation "'let*' x ':=' m 'in' k" := (bind m (fun x => k))
  (at level 10, x name, m at level 100, k at level 200).
Notation "'do*' m 'in' k" := (bind m (fun _ => k))
  (at level 10, m at level 100, k at level 200).

(** The store a call leaves behind: a throw rolls the transaction back. *)
Definition commit {A} (h : Handler A) (st : Store) : Store :=
  match h st with
  | Ok (_, st') => st'
  | Throw _ => st
  end.

(** Modelled from the spec: [authComponent] of ./auth is not among the
    sources.  Section 6 of the specification says the functions take from it
    only the current owner id; [getAuthUser] is that id, the [_id] of the
    user, and [None] stands for the [null] the callers test for. *)
Definition getAuthUser (ctx : Ctx) : option string := auth_user ctx.

(** [const user = await authComponent.getAuthUser(ctx);
     if (!user) throw new Error("Not authenticated");] *)
Definition requireUser (ctx : Ctx) : Handler string :=
  match getAuthUser ctx with
  | Some user => ret user
  | None => throw "Not authenticated"
  end.

(** *** [ctx.db] *)

Definition db_get {D} (T : Table D) (id : nat) : Handler (option D) :=
  fun st => Ok (rows T st !! id, st).

Definition db_insert {D} (T : Table D) (doc : D) : Handler nat :=
  fun st =>
    let id := nextId st in
    Ok (id, bump_id (put_rows T (<[id := doc]> (rows T st)) st)).

(** Patching or deleting a document that does not exist is an error of the
    platform. *)
Definition db_patch {D} (T : Table D) (id : nat) (updates : D -> D) : Handler unit :=
  fun st =>
    match rows T st !! id with
    | Some doc => Ok (tt, put_rows T (<[id := updates doc]> (rows T st)) st)
    | None => Throw (Error "Update on nonexistent document ID")
    end.

Definition db_delete {D} (T : Table D) (id : nat) : Handler unit :=
  fun st =>
    match rows T st !! id with
    | Some _ => Ok (tt, put_rows T (delete id (rows T st)) st)
    | None => Throw (Error "Delete on nonexistent document ID")
    end.

(** [.withIndex(..., q => q.eq(field, value)).collect()]; the documents
    come in the order of [map_to_list], and no statement below depends on
    it. *)
Definition collect {D} (T : Table D) (P : D -> Prop) `{!∀ d, Decision (P d)}
  : Handler (list (nat * D)) :=
  fun st => Ok (map_to_list (filter (fun kd => P kd.2) (rows T st)), st).

(** [.unique()]: the one matching document, [null] when there is none; more
    than one is an error. *)
Definition unique {D} (T : Table D) (P : D -> Prop) `{!∀ d, Decision (P d)}
  : Handler (option (nat * D)) :=
  let* found := collect T P in
  match found with
  | [] => ret None
  | [doc] => ret (Some doc)
  | _ => throw "unique() query returned more than one result"
  end.

(** [ctx.scheduler.runAfter(delay, fn, args)] *)
Definition scheduler_runAfter (ms : nat) (f : JobFn) : Handler unit :=
  fun st => Ok (tt, enqueue (mkJob ms f) st).

(** ** JavaScript truthiness on optional strings *)

(** [!!s] for [s : string | undefined] *)
Definition truthy (s : option string) : bool :=
  match s with
  | Some "" | None => false
  | Some _ => true
  end.

(** [a || b] on optional strings *)
Definition js_or (a b : option string) : option string :=
  if truthy a then a else b.

(** ** Arguments of the mutations *)

Module UpdateServerStatusArgs.
Record t : Type := mk {
  serverId : nat;
  status : ServerStatus.t;
  ipAddress : option string;
  hetznerServerId : option string;
  errorMessage : option string;
  dokployInstalled : option bool;
}.
End UpdateServerStatusArgs.

Module CreateDeploymentArgs.
Record t : Type := mk {
  serverId : nat;
  name : string;
  domain : option string;
  wordpressAdminUser : string;
  wordpressAdminPass : string;
  enableSsl : bool;
}.
End CreateDeploymentArgs.

Module UpdateDeploymentStatusArgs.
Record t : Type := mk {
  deploymentId : nat;
  status : DeploymentStatus.t;
  errorMessage : option string;
}.
End UpdateDeploymentStatusArgs.

Module StoreApiKeysArgs.
Record t : Type := mk {
  hetznerApiKey : option string;
  dokployApiKey : option string;
  dokployUrl : option string;
}.
End StoreApiKeysArgs.

Inductive Service : Type := svc_hetzner | svc_dokploy | svc_all.

Module LogSystemEventArgs.
Record t : Type := mk {
  level : LogLevel.t;
  category : string;
  message : string;
  metadata : option (list (string * MetaValue));
}.
End LogSystemEventArgs.

Module RecordHealthCheckArgs.
Record t : Type := mk {
  resourceType : ResourceType.t;
  resourceId : string;
  status : HealthStatus.t;
  checkType : string;
  responseTime : option Z;
  errorMessage : option string;
}.
End RecordHealthCheckArgs.

(** Every mutation of the backend with its arguments. *)
Inductive Mutation : Type :=
| MCreateServer (name region : string)
| MUpdateServerStatus (args : UpdateServerStatusArgs.t)
| MDeleteServer (serverId : nat)
| MDeleteServerRecord (serverId : nat)
| MCreateDeployment (args : CreateDeploymentArgs.t)
| MUpdateDeploymentStatus (args : UpdateDeploymentStatusArgs.t)
| MDeleteDeployment (deploymentId : nat)
| MDeleteDeploymentRecord (deploymentId : nat)
| MStoreApiKeys (args : StoreApiKeysArgs.t)
| MUpdateValidationStatus (isHetznerValid isDokployValid : bool)
| MDeleteApiKeys (service : option Service)
| MLogSystemEvent (args : LogSystemEventArgs.t)
| MRecordHealthCheck (args : RecordHealthCheckArgs.t).

(** The queries an action runs. *)
Inductive QueryCall : Type :=
| QGetServer (serverId : nat)
| QGetDeployment (deploymentId : nat).

(** How a function is exported: [query]/[mutation]/[action] are callable by
    any client, [internalQuery]/[internalMutation]/[internalAction] only by
    other functions and the scheduler. *)
Inductive Visibility : Type := Public | Internal.

(** ** Actions

    An action runs outside any transaction.  What it does to the outside is
    kept in [events]; [net] is the provider side of [fetch].  A call from an
    action into a query or mutation can be rejected by the platform itself,
    whatever the handler would do (a transient failure, a write conflict
    that is not resolved): [faults] says, for each [runQuery]/[runMutation]
    still to come, whether the platform rejects it before the handler runs
    ([Some e]) or lets it run ([None]); the empty list means no such failure
    ever. *)

Module Request.
Record t : Type := mk {
  method : string;
  url : string;
  authorization : string;
  contentType : string;
}.
End Request.

Module Response.
Record t : Type := mk { ok : bool; status : nat }.
End Response.

Inductive Event : Type :=
| EvRunQuery (q : QueryCall)
| EvRunMutation (m : Mutation)
| EvSleep (ms : nat)
| EvFetch (request : Request.t)
| EvConsoleError (label : string) (e : Thrown).

Record World : Type := mkWorld {
  db : Store;
  net : Request.t -> option Response.t;
  faults : list (option Thrown);
  events : list Event;
}.

Definition Action (A : Type) : Type := World -> Result A * World.

Definition aret {A} (a : A) : Action A := fun w => (Ok a, w).

Definition athrow {A} (msg : string) : Action A := fun w => (Throw (Error msg), w).

Definition abind {A B} (m : Action A) (k : A -> Action B) : Action B :=
  fun w =>
    match m w with
    | (Ok a, w') => k a w'
    | (Throw e, w') => (Throw e, w')
    end.

Notation "'let!' x ':=' m 'in' k" := (abind m (fun x => k))
  (at level 10, x name, m at level 100, k at level 200).
Notation "'do!' m 'in' k" := (abind m (fun _ => k))
  (at level 10, m at level 100, k at level 200).

(** [try { body } catch (error) { handler }] *)
Definition try_catch {A} (body : Action A) (handler : Thrown -> Action A) : Action A :=
  fun w =>
    match body w with
    | (Ok a, w') => (Ok a, w')
    | (Throw e, w') => handler e w'
    end.

Definition record_event (ev : Event) (w : World) : World :=
  mkWorld (db w) (net w) (faults w) (events w ++ [ev]).

Definition emit (ev : Event) : Action unit := fun w => (Ok tt, record_event ev w).

(** [await new Promise(resolve => setTimeout(resolve, ms))] *)
Definition sleep (ms : nat) : Action unit := emit (EvSleep ms).

Definition console_error (label : string) (e : Thrown) : Action unit :=
  emit (EvConsoleError label e).

(** [fetch]: the promise rejects when the provider cannot be reached. *)
Definition fetch (request : Request.t) : Action Response.t :=
  fun w =>
    match net w request with
    | Some response => (Ok response, record_event (EvFetch request) w)
    | None => (Throw (Error "fetch failed"), record_event (EvFetch request) w)
    end.

(** One call from an action into a handler: the handler's transaction is
    applied to the store unless the platform fails the call. *)
Definition platform_call {A} (ev : Event) (h : Handler A) : Action A :=
  fun w =>
    match faults w with
    | Some e :: rest => (Throw e, mkWorld (db w) (net w) rest (events w ++ [ev]))
    | fs =>
        match h (db w) with
        | Ok (a, st) => (Ok a, mkWorld st (net w) (tail fs) (events w ++ [ev]))
        | Throw e => (Throw e, mkWorld (db w) (net w) (tail fs) (events w ++ [ev]))
        end
    end.

Definition runQuery {A} (q : QueryCall) (h : Handler A) : Action A :=
  platform_call (EvRunQuery q) h.

Definition runMutation {A} (m : Mutation) (h : Handler A) : Action A :=
  platform_call (EvRunMutation m) h.

(** [ctx.scheduler.runAfter] called from an action *)
Definition schedule (ms : nat) (f : JobFn) : Action unit :=
  fun w => (Ok tt, mkWorld (enqueue (mkJob ms f) (db w)) (net w) (faults w) (events w)).

(** ** Validation of API keys: arguments, result and string helpers *)

Module ValidateApiKeysArgs.
Record t : Type := mk {
  hetznerApiKey : option string;
  dokployApiKey : option string;
  dokployUrl : option string;
}.
End ValidateApiKeysArgs.

Module ValidationResult.
Record t : Type := mk {
  hetznerValid : bool;
  dokployValid : bool;
  errors : list string;
}.
End ValidationResult.

(** [s.endsWith("/")] *)
Fixpoint endsWith_slash (s : string) : bool :=
  match s with
  | EmptyString => false
  | String c EmptyString => bool_decide (c = "/"%char)
  | String _ rest => endsWith_slash rest
  end.

(** [s.slice(0, -1)] *)
Fixpoint dropLast (s : string) : string :=
  match s with
  | EmptyString => EmptyString
  | String _ EmptyString => EmptyString
  | String c rest => String c (dropLast rest)
  end.

(** ** servers.ts: queries and mutations *)

Module ServerSummary.
Record t : Type := mk {
  _id : nat;
  name : string;
  ipAddress : option string;
  status : ServerStatus.t;
  region : string;
  dokployInstalled : bool;
  createdAt : Z;
  errorMessage : option string;
}.
End ServerSummary.

Module ServerView.
Record t : Type := mk {
  _id : nat;
  name : string;
  hetznerServerId : string;
  ipAddress : option string;
  status : ServerStatus.t;
  region : string;
  dokployInstalled : bool;
  createdAt : Z;
  errorMessage : option string;
}.
End ServerView.

Module Servers.

Definition summary (row : nat * ServerDoc.t) : ServerSummary.t :=
  let server := row.2 in
  ServerSummary.mk row.1 (ServerDoc.name server) (ServerDoc.ipAddress server)
    (ServerDoc.status server) (ServerDoc.region server)
    (ServerDoc.dokployInstalled server) (ServerDoc.createdAt server)
    (ServerDoc.errorMessage server).

Definition view (id : nat) (server : ServerDoc.t) : ServerView.t :=
  ServerView.mk id (ServerDoc.name server) (ServerDoc.hetznerServerId server)
    (ServerDoc.ipAddress server) (ServerDoc.status server)
    (ServerDoc.region server) (ServerDoc.dokployInstalled server)
    (ServerDoc.createdAt server) (ServerDoc.errorMessage server).

Definition getUserServers (ctx : Ctx) : Handler (list ServerSummary.t) :=
  let* user := requireUser ctx in
  let* found := collect tbl_servers (fun d => ServerDoc.userId d = user) in
  ret (summary <$> found).

Definition getServer (ctx : Ctx) (serverId : nat) : Handler (option ServerView.t) :=
  let* user := requireUser ctx in
  let* server := db_get tbl_servers serverId in
  match server with
  | None => ret None
  | Some server =>
      if decide (ServerDoc.userId server = user)
      then ret (Some (view serverId server))
      else ret None
  end.

Definition createServer (ctx : Ctx) (name region : string) : Handler nat :=
  let* user := requireUser ctx in
  let* keys := unique tbl_apiKeys (fun k => ApiKeysDoc.userId k = user) in
  if match keys with
     | Some k => ApiKeysDoc.isHetznerValid k.2
     | None => false
     end
  then
    let* serverId :=
      db_insert tbl_servers
        (ServerDoc.mk user "" name None ServerStatus.creating region None
                      false (now ctx) None) in
    do* scheduler_runAfter 0 (JProvisionServer serverId) in
    ret serverId
  else throw "Valid Hetzner API key required".

(** The [updates] object of [updateServerStatus], as the patch it is. *)
Definition updates (args : UpdateServerStatusArgs.t) (doc : ServerDoc.t) : ServerDoc.t :=
  ServerDoc.mk
    (ServerDoc.userId doc)
    (default (ServerDoc.hetznerServerId doc) (UpdateServerStatusArgs.hetznerServerId args))
    (ServerDoc.name doc)
    (match UpdateServerStatusArgs.ipAddress args with
     | Some ip => Some ip
     | None => ServerDoc.ipAddress doc
     end)
    (UpdateServerStatusArgs.status args)
    (ServerDoc.region doc)
    (ServerDoc.sshKeyId doc)
    (default (ServerDoc.dokployInstalled doc) (UpdateServerStatusArgs.dokployInstalled args))
    (ServerDoc.createdAt doc)
    (match UpdateServerStatusArgs.errorMessage args with
     | Some msg => Some msg
     | None => ServerDoc.errorMessage doc
     end).

Definition updateServerStatus (ctx : Ctx) (args : UpdateServerStatusArgs.t) : Handler unit :=
  let* user := requireUser ctx in
  let* server := db_get tbl_servers (UpdateServerStatusArgs.serverId args) in
  match server with
  | None => throw "Server not found or access denied"
  | Some server =>
      if decide (ServerDoc.userId server = user)
      then db_patch tbl_servers (UpdateServerStatusArgs.serverId args) (updates args)
      else throw "Server not found or access denied"
  end.

Definition deleteServer (ctx : Ctx) (serverId : nat) : Handler unit :=
  let* user := requireUser ctx in
  let* server := db_get tbl_servers serverId in
  match server with
  | None => throw "Server not found or access denied"
  | Some server =>
      if decide (ServerDoc.userId server = user)
      then
        do* db_patch tbl_servers serverId (ServerDoc.with_status ServerStatus.deleting) in
        scheduler_runAfter 0 (JDestroyServer serverId)
      else throw "Server not found or access denied"
  end.

Definition deleteServerRecord (ctx : Ctx) (serverId : nat) : Handler unit :=
  db_delete tbl_servers serverId.

(** *** Actions of servers.ts *)

Definition internal_updateServerStatus (ctx : Ctx) (args : UpdateServerStatusArgs.t)
  : Action unit :=
  runMutation (MUpdateServerStatus args) (updateServerStatus ctx args).

Definition internal_deleteServerRecord (ctx : Ctx) (serverId : nat) : Action unit :=
  runMutation (MDeleteServerRecord serverId) (deleteServerRecord ctx serverId).

Definition internal_getServer (ctx : Ctx) (serverId : nat) : Action (option ServerView.t) :=
  runQuery (QGetServer serverId) (getServer ctx serverId).

(** The arguments of the four status writes of [provisionServer]. *)
Definition installing_args (serverId : nat) : UpdateServerStatusArgs.t :=
  UpdateServerStatusArgs.mk serverId ServerStatus.installing
    (Some "192.168.1.100") (Some "placeholder-server-id") None None.

Definition configuring_args (serverId : nat) : UpdateServerStatusArgs.t :=
  UpdateServerStatusArgs.mk serverId ServerStatus.configuring None None None None.

Definition ready_args (serverId : nat) : UpdateServerStatusArgs.t :=
  UpdateServerStatusArgs.mk serverId ServerStatus.ready None None None (Some true).

Definition error_args (serverId : nat) (error : Thrown) : UpdateServerStatusArgs.t :=
  UpdateServerStatusArgs.mk serverId ServerStatus.error
    None None (Some (error_message error)) None.

(** The body of the [try] of [provisionServer]. *)
Definition provisionServer_try (ctx : Ctx) (serverId : nat) : Action unit :=
  do! internal_updateServerStatus ctx (installing_args serverId) in
  do! sleep 1000 in
  do! internal_updateServerStatus ctx (configuring_args serverId) in
  internal_updateServerStatus ctx (ready_args serverId).

(** The body of its [catch]. *)
Definition provisionServer_catch (ctx : Ctx) (serverId : nat) (error : Thrown)
  : Action unit :=
  do! internal_updateServerStatus ctx (error_args serverId error) in
  schedule 0 (JDestroyServer serverId).

Definition provisionServer (ctx : Ctx) (serverId : nat) : Action unit :=
  try_catch (provisionServer_try ctx serverId) (provisionServer_catch ctx serverId).

Definition destroyServer (ctx : Ctx) (serverId : nat) : Action unit :=
  try_catch
    (let! server := internal_getServer ctx serverId in
     match server with
     | None => aret tt
     | Some _ => internal_deleteServerRecord ctx serverId
     end)
    (fun error =>
       do! console_error "Error destroying server:" error in
       internal_deleteServerRecord ctx serverId).

End Servers.

(** ** The deployments functions: queries and mutations *)

Module DeploymentView.
Record t : Type := mk {
  _id : nat;
  serverId : nat;
  serverName : string;
  name : string;
  domain : option string;
  status : DeploymentStatus.t;
  wordpressAdminUser : string;
  sslEnabled : bool;
  createdAt : Z;
  errorMessage : option string;
}.
End DeploymentView.

Fixpoint mapH {A B} (f : A -> Handler B) (l : list A) : Handler (list B) :=
  match l with
  | [] => ret []
  | x :: rest =>
      let* y := f x in
      let* ys := mapH f rest in
      ret (y :: ys)
  end.

Module DeploymentSummary.
Record t : Type := mk {
  _id : nat;
  name : string;
  domain : option string;
  status : DeploymentStatus.t;
  wordpressAdminUser : string;
  sslEnabled : bool;
  createdAt : Z;
  errorMessage : option string;
}.
End DeploymentSummary.

Module Deployments.

(** [server?.name || "Unknown Server"] *)
Definition serverName (server : option ServerDoc.t) : string :=
  match server with
  | Some server =>
      if decide (ServerDoc.name server = "") then "Unknown Server"
      else ServerDoc.name server
  | None => "Unknown Server"
  end.

Definition view (id : nat) (deployment : DeploymentDoc.t) (server : option ServerDoc.t)
  : DeploymentView.t :=
  DeploymentView.mk id (DeploymentDoc.serverId deployment) (serverName server)
    (DeploymentDoc.name deployment) (DeploymentDoc.domain deployment)
    (DeploymentDoc.status deployment) (DeploymentDoc.wordpressAdminUser deployment)
    (DeploymentDoc.sslEnabled deployment) (DeploymentDoc.createdAt deployment)
    (DeploymentDoc.errorMessage deployment).

Definition withServerInfo (row : nat * DeploymentDoc.t) : Handler DeploymentView.t :=
  let* server := db_get tbl_servers (DeploymentDoc.serverId row.2) in
  ret (view row.1 row.2 server).

Definition getUserDeployments (ctx : Ctx) : Handler (list DeploymentView.t) :=
  let* user := requireUser ctx in
  let* found := collect tbl_deployments (fun d => DeploymentDoc.userId d = user) in
  mapH withServerInfo found.

Definition getDeployment (ctx : Ctx) (deploymentId : nat)
  : Handler (option DeploymentView.t) :=
  let* user := requireUser ctx in
  let* deployment := db_get tbl_deployments deploymentId in
  match deployment with
  | None => ret None
  | Some deployment =>
      if decide (DeploymentDoc.userId deployment = user)
      then
        let* server := db_get tbl_servers (DeploymentDoc.serverId deployment) in
        ret (Some (view deploymentId deployment server))
      else ret None
  end.

Definition summary (row : nat * DeploymentDoc.t) : DeploymentSummary.t :=
  let deployment := row.2 in
  DeploymentSummary.mk row.1 (DeploymentDoc.name deployment)
    (DeploymentDoc.domain deployment) (DeploymentDoc.status deployment)
    (DeploymentDoc.wordpressAdminUser deployment) (DeploymentDoc.sslEnabled deployment)
    (DeploymentDoc.createdAt deployment) (DeploymentDoc.errorMessage deployment).

Definition getServerDeployments (ctx : Ctx) (serverId : nat)
  : Handler (list DeploymentSummary.t) :=
  let* user := requireUser ctx in
  let* server := db_get tbl_servers serverId in
  match server with
  | None => throw "Server not found or access denied"
  | Some server =>
      if decide (ServerDoc.userId server = user)
      then
        let* found := collect tbl_deployments
                        (fun d => DeploymentDoc.serverId d = serverId) in
        ret (summary <$> found)
      else throw "Server not found or access denied"
  end.

Definition createDeployment (ctx : Ctx) (args : CreateDeploymentArgs.t) : Handler nat :=
  let* user := requireUser ctx in
  let* server := db_get tbl_servers (CreateDeploymentArgs.serverId args) in
  match server with
  | None => throw "Server not found or access denied"
  | Some server =>
      if decide (ServerDoc.userId server = user)
      then
        if bool_decide (ServerDoc.status server = ServerStatus.ready)
           && ServerDoc.dokployInstalled server
        then
          let* keys := unique tbl_apiKeys (fun k => ApiKeysDoc.userId k = user) in
          if match keys with
             | Some k => ApiKeysDoc.isDokployValid k.2
             | None => false
             end
          then
            let encryptedPassword := CreateDeploymentArgs.wordpressAdminPass args in
            let* deploymentId :=
              db_insert tbl_deployments
                (DeploymentDoc.mk user (CreateDeploymentArgs.serverId args)
                   (CreateDeploymentArgs.name args) (CreateDeploymentArgs.domain args)
                   DeploymentStatus.deploying
                   (CreateDeploymentArgs.wordpressAdminUser args) encryptedPassword
                   (CreateDeploymentArgs.enableSsl args) (now ctx) None) in
            do* scheduler_runAfter 0 (JDeployWordPress deploymentId) in
            ret deploymentId
          else throw "Valid Dokploy API key required"
        else throw "Server is not ready for deployments"
      else throw "Server not found or access denied"
  end.

Definition updates (args : UpdateDeploymentStatusArgs.t) (doc : DeploymentDoc.t)
  : DeploymentDoc.t :=
  DeploymentDoc.mk (DeploymentDoc.userId doc) (DeploymentDoc.serverId doc)
    (DeploymentDoc.name doc) (DeploymentDoc.domain doc)
    (UpdateDeploymentStatusArgs.status args)
    (DeploymentDoc.wordpressAdminUser doc) (DeploymentDoc.wordpressAdminPass doc)
    (DeploymentDoc.sslEnabled doc) (DeploymentDoc.createdAt doc)
    (match UpdateDeploymentStatusArgs.errorMessage args with
     | Some msg => Some msg
     | None => DeploymentDoc.errorMessage doc
     end).

Definition updateDeploymentStatus (ctx : Ctx) (args : UpdateDeploymentStatusArgs.t)
  : Handler unit :=
  let* user := requireUser ctx in
  let* deployment := db_get tbl_deployments (UpdateDeploymentStatusArgs.deploymentId args) in
  match deployment with
  | None => throw "Deployment not found or access denied"
  | Some deployment =>
      if decide (DeploymentDoc.userId deployment = user)
      then db_patch tbl_deployments (UpdateDeploymentStatusArgs.deploymentId args)
                    (updates args)
      else throw "Deployment not found or access denied"
  end.

Definition deleteDeployment (ctx : Ctx) (deploymentId : nat) : Handler unit :=
  let* user := requireUser ctx in
  let* deployment := db_get tbl_deployments deploymentId in
  match deployment with
  | None => throw "Deployment not found or access denied"
  | Some deployment =>
      if decide (DeploymentDoc.userId deployment = user)
      then
        do* db_patch tbl_deployments deploymentId
              (DeploymentDoc.with_status DeploymentStatus.stopped) in
        scheduler_runAfter 0 (JDestroyWordPress deploymentId)
      else throw "Deployment not found or access denied"
  end.

Definition deleteDeploymentRecord (ctx : Ctx) (deploymentId : nat) : Handler unit :=
  db_delete tbl_deployments deploymentId.

(** *** Actions of the deployments file *)

Definition internal_getDeployment (ctx : Ctx) (deploymentId : nat)
  : Action (option DeploymentView.t) :=
  runQuery (QGetDeployment deploymentId) (getDeployment ctx deploymentId).

Definition internal_updateDeploymentStatus (ctx : Ctx) (args : UpdateDeploymentStatusArgs.t)
  : Action unit :=
  runMutation (MUpdateDeploymentStatus args) (updateDeploymentStatus ctx args).

Definition internal_deleteDeploymentRecord (ctx : Ctx) (deploymentId : nat) : Action unit :=
  runMutation (MDeleteDeploymentRecord deploymentId) (deleteDeploymentRecord ctx deploymentId).

Definition running_args (deploymentId : nat) : UpdateDeploymentStatusArgs.t :=
  UpdateDeploymentStatusArgs.mk deploymentId DeploymentStatus.running None.

Definition error_args (deploymentId : nat) (error : Thrown) : UpdateDeploymentStatusArgs.t :=
  UpdateDeploymentStatusArgs.mk deploymentId DeploymentStatus.error
    (Some (error_message error)).

Definition deployWordPress (ctx : Ctx) (deploymentId : nat) : Action unit :=
  try_catch
    (let! deployment := internal_getDeployment ctx deploymentId in
     match deployment with
     | None => athrow "Deployment not found"
     | Some deployment =>
         do! sleep 2000 in
         internal_updateDeploymentStatus ctx (running_args deploymentId)
     end)
    (fun error => internal_updateDeploymentStatus ctx (error_args deploymentId error)).

Definition destroyWordPress (ctx : Ctx) (deploymentId : nat) : Action unit :=
  try_catch
    (internal_deleteDeploymentRecord ctx deploymentId)
    (fun error =>
       do! console_error "Error destroying WordPress deployment:" error in
       internal_deleteDeploymentRecord ctx deploymentId).

End Deployments.

(** ** The API key functions: mutations (the version that reads [user._id]) *)

(** [try { body } catch (error) { handler }] inside a handler *)
Definition try_catchH {A} (body : Handler A) (handler : Thrown -> Handler A) : Handler A :=
  fun st =>
    match body st with
    | Ok r => Ok r
    | Throw e => handler e st
    end.

Module ApiKeysStatus.
Record t : Type := mk {
  _id : nat;
  hasHetznerKey : bool;
  hasDokployKey : bool;
  dokployUrl : option string;
  isHetznerValid : bool;
  isDokployValid : bool;
  lastValidated : option Z;
}.
End ApiKeysStatus.

Module DecryptedApiKeys.
Record t : Type := mk {
  hetznerApiKey : option string;
  dokployApiKey : option string;
  dokployUrl : option string;
  isHetznerValid : bool;
  isDokployValid : bool;
}.
End DecryptedApiKeys.

Module ApiKeys.

Definition getUserApiKeys (ctx : Ctx) : Handler (option ApiKeysStatus.t) :=
  let* user := requireUser ctx in
  let* apiKeys := unique tbl_apiKeys (fun k => ApiKeysDoc.userId k = user) in
  match apiKeys with
  | None => ret None
  | Some apiKeys =>
      ret (Some (ApiKeysStatus.mk apiKeys.1
                   (truthy (ApiKeysDoc.hetznerApiKey apiKeys.2))
                   (truthy (ApiKeysDoc.dokployApiKey apiKeys.2))
                   (ApiKeysDoc.dokployUrl apiKeys.2)
                   (ApiKeysDoc.isHetznerValid apiKeys.2)
                   (ApiKeysDoc.isDokployValid apiKeys.2)
                   (ApiKeysDoc.lastValidated apiKeys.2)))
  end.

(** [getDecryptedApiKeys] is an [internalQuery]: it takes the user id as an
    argument and asks for no identity. *)
Definition getDecryptedApiKeys (ctx : Ctx) (userId : string)
  : Handler (option DecryptedApiKeys.t) :=
  let* apiKeys := unique tbl_apiKeys (fun k => ApiKeysDoc.userId k = userId) in
  match apiKeys with
  | None => ret None
  | Some apiKeys =>
      ret (Some (DecryptedApiKeys.mk
                   (ApiKeysDoc.hetznerApiKey apiKeys.2)
                   (ApiKeysDoc.dokployApiKey apiKeys.2)
                   (ApiKeysDoc.dokployUrl apiKeys.2)
                   (ApiKeysDoc.isHetznerValid apiKeys.2)
                   (ApiKeysDoc.isDokployValid apiKeys.2)))
  end.

Definition storeApiKeys (ctx : Ctx) (args : StoreApiKeysArgs.t) : Handler nat :=
  let* user := requireUser ctx in
  try_catchH
    (let encryptedHetznerKey := StoreApiKeysArgs.hetznerApiKey args in
     let encryptedDokployKey := StoreApiKeysArgs.dokployApiKey args in
     let* existingKeys := unique tbl_apiKeys (fun k => ApiKeysDoc.userId k = user) in
     match existingKeys with
     | Some existingKeys =>
         do* db_patch tbl_apiKeys existingKeys.1
               (fun doc =>
                  ApiKeysDoc.mk (ApiKeysDoc.userId doc)
                    (js_or encryptedHetznerKey (ApiKeysDoc.hetznerApiKey existingKeys.2))
                    (js_or encryptedDokployKey (ApiKeysDoc.dokployApiKey existingKeys.2))
                    (js_or (StoreApiKeysArgs.dokployUrl args)
                           (ApiKeysDoc.dokployUrl existingKeys.2))
                    false false None) in
         ret existingKeys.1
     | None =>
         db_insert tbl_apiKeys
           (ApiKeysDoc.mk user encryptedHetznerKey encryptedDokployKey
              (StoreApiKeysArgs.dokployUrl args) false false None)
     end)
    (fun error => throw "Failed to store API keys").

Definition updateValidationStatus (ctx : Ctx) (isHetznerValid isDokployValid : bool)
  : Handler unit :=
  let* user := requireUser ctx in
  let* apiKeys := unique tbl_apiKeys (fun k => ApiKeysDoc.userId k = user) in
  match apiKeys with
  | Some apiKeys =>
      db_patch tbl_apiKeys apiKeys.1
        (fun doc =>
           ApiKeysDoc.mk (ApiKeysDoc.userId doc) (ApiKeysDoc.hetznerApiKey doc)
             (ApiKeysDoc.dokployApiKey doc) (ApiKeysDoc.dokployUrl doc)
             isHetznerValid isDokployValid (Some (now ctx)))
  | None => ret tt
  end.

Definition deleteApiKeys (ctx : Ctx) (service : option Service) : Handler unit :=
  let* user := requireUser ctx in
  let* apiKeys := unique tbl_apiKeys (fun k => ApiKeysDoc.userId k = user) in
  match apiKeys with
  | None => ret tt
  | Some apiKeys =>
      match default svc_all service with
      | svc_all => db_delete tbl_apiKeys apiKeys.1
      | svc_hetzner =>
          db_patch tbl_apiKeys apiKeys.1
            (fun doc =>
               ApiKeysDoc.mk (ApiKeysDoc.userId doc) None
                 (ApiKeysDoc.dokployApiKey doc) (ApiKeysDoc.dokployUrl doc)
                 false (ApiKeysDoc.isDokployValid doc) None)
      | svc_dokploy =>
          db_patch tbl_apiKeys apiKeys.1
            (fun doc =>
               ApiKeysDoc.mk (ApiKeysDoc.userId doc) (ApiKeysDoc.hetznerApiKey doc)
                 None None (ApiKeysDoc.isHetznerValid doc) false None)
      end
  end.

(** *** [validateApiKeys], with the calls to the providers *)

Definition hetznerRequest (key : string) : Request.t :=
  Request.mk "GET" "https://api.hetzner.cloud/v1/locations"
             ("Bearer " +:+ key) "application/json".

Definition dokployRequest (url key : string) : Request.t :=
  let baseUrl := if endsWith_slash url then dropLast url else url in
  Request.mk "GET" (baseUrl +:+ "/api/auth/profile")
             ("Bearer " +:+ key) "application/json".

(** One provider check: the verdict and the errors it pushes. *)
Definition check (request : Request.t) (unauthorized apiError label unreachable : string)
  : Action (bool * list string) :=
  try_catch
    (let! response := fetch request in
     if Response.ok response then aret (true, [])
     else if Nat.eqb (Response.status response) 401 then aret (false, [unauthorized])
     else aret (false, [apiError]))
    (fun error =>
       do! console_error label error in
       aret (false, [unreachable])).

Definition validateApiKeys (ctx : Ctx) (args : ValidateApiKeysArgs.t)
  : Action ValidationResult.t :=
  let! hetzner :=
    (if truthy (ValidateApiKeysArgs.hetznerApiKey args)
     then check (hetznerRequest (default "" (ValidateApiKeysArgs.hetznerApiKey args)))
                "Invalid Hetzner API key - authentication failed"
                "Failed to validate Hetzner API key - API error"
                "Hetzner API validation error:"
                "Failed to connect to Hetzner API"
     else aret (false, [])) in
  let! dokploy :=
    (if truthy (ValidateApiKeysArgs.dokployApiKey args)
        && truthy (ValidateApiKeysArgs.dokployUrl args)
     then check (dokployRequest (default "" (ValidateApiKeysArgs.dokployUrl args))
                                (default "" (ValidateApiKeysArgs.dokployApiKey args)))
                "Invalid Dokploy API key - authentication failed"
                "Failed to validate Dokploy API key - API error"
                "Dokploy API validation error:"
                "Failed to connect to Dokploy API - check URL and network connectivity"
     else aret (false, [])) in
  aret (ValidationResult.mk hetzner.1 dokploy.1 (hetzner.2 ++ dokploy.2)).

End ApiKeys.
(** ** packages/backend/convex/apiKeys.ts: [validateApiKeys], the placeholder

    The verdict is read off the arguments: [length > 10], and for Dokploy
    also [startsWith("http")].  [String.length] counts the characters of the
    key as [.length] does for the ASCII keys the providers issue. *)

Module ApiKeysPlaceholder.

Definition validateApiKeys (ctx : Ctx) (args : ValidateApiKeysArgs.t)
  : Action ValidationResult.t :=
  let hetzner :=
    if truthy (ValidateApiKeysArgs.hetznerApiKey args)
    then
      if 10 <? String.length (default "" (ValidateApiKeysArgs.hetznerApiKey args))
      then (true, [])
      else (false, ["Invalid Hetzner API key format"])
    else (false, []) in
  let dokploy :=
    if truthy (ValidateApiKeysArgs.dokployApiKey args)
       && truthy (ValidateApiKeysArgs.dokployUrl args)
    then
      if (10 <? String.length (default "" (ValidateApiKeysArgs.dokployApiKey args)))
         && String.prefix "http" (default "" (ValidateApiKeysArgs.dokployUrl args))
      then (true, [])
      else (false, ["Invalid Dokploy API key or URL format"])
    else (false, []) in
  aret (ValidationResult.mk hetzner.1 dokploy.1 (hetzner.2 ++ dokploy.2)).

End ApiKeysPlaceholder.


(** ** Reading an index

    [.withIndex(...).order("desc").take(n)]: the documents that match, by
    the indexed field and, among equals, by creation, the latest first.  Ids
    are handed out in increasing order, so the later document of two is the
    one with the larger id.  With an equality on every field of the index
    ([field] constant) the order is the order of creation. *)

#[global] Instance LogLevel_eq_dec : EqDecision LogLevel.t.
Proof. solve_decision. Defined.

#[global] Instance ResourceType_eq_dec : EqDecision ResourceType.t.
Proof. solve_decision. Defined.

Definition index_after {D} (field : D -> Z) (a b : nat * D) : Prop :=
  (field b.2 < field a.2)%Z ∨ (field a.2 = field b.2 ∧ b.1 ≤ a.1).

#[global] Instance index_after_dec {D} (field : D -> Z) (a b : nat * D)
  : Decision (index_after field a b).
Proof. unfold index_after. apply _. Defined.

Definition order_desc {D} (field : D -> Z) (found : list (nat * D)) : list (nat * D) :=
  merge_sort (index_after field) found.

(** [limit || d], for the limits [take] accepts: the natural numbers. *)
Definition limit_or (limit : option nat) (d : nat) : nat :=
  match limit with
  | Some (S n) => S n
  | Some 0 | None => d
  end.

Module RecentLogsArgs.
Record t : Type := mk {
  limit : option nat;
  level : option LogLevel.t;
  category : option string;
}.
End RecentLogsArgs.

Module ResourceHealthArgs.
Record t : Type := mk {
  resourceType : ResourceType.t;
  resourceId : string;
  limit : option nat;
}.
End ResourceHealthArgs.

Module HealthCheckSummary.
Record t : Type := mk {
  _id : nat;
  status : HealthStatus.t;
  checkType : string;
  responseTime : option Z;
  errorMessage : option string;
  checkedAt : Z;
}.
End HealthCheckSummary.

(** ** logging.ts: mutations *)

Module Logging.

(** What arrives of an object passed as an argument: a field whose value is
    [undefined] is not sent. *)
Definition sent (fields : list (string * MetaValue)) : list (string * MetaValue) :=
  List.filter (fun kv => match kv.2 with MUndefined => false | _ => true end) fields.

(** [metadata: v.optional(v.object({}))]: the validator of the argument knows
    no field, so the platform lets through the object without fields, or
    none, and rejects any other before the handler runs. *)
Definition valid_metadata (metadata : option (list (string * MetaValue))) : bool :=
  match sent <$> metadata with
  | Some (_ :: _) => false
  | Some [] | None => true
  end.

(** The error is the platform's, and so is its text. *)
Definition logSystemEvent (ctx : Ctx) (args : LogSystemEventArgs.t) : Handler unit :=
  if valid_metadata (LogSystemEventArgs.metadata args)
  then
    let userId := getAuthUser ctx in
    do* db_insert tbl_systemLogs
          (SystemLogDoc.mk userId (LogSystemEventArgs.level args)
             (LogSystemEventArgs.category args) (LogSystemEventArgs.message args)
             (sent <$> LogSystemEventArgs.metadata args) (now ctx)) in
    ret tt
  else throw "ArgumentValidationError: Object contains extra field".

Definition optNumber (z : option Z) : MetaValue :=
  match z with
  | Some z => MNumber z
  | None => MUndefined
  end.

Definition recordHealthCheck (ctx : Ctx) (args : RecordHealthCheckArgs.t) : Handler unit :=
  do* db_insert tbl_healthChecks
        (HealthCheckDoc.mk (RecordHealthCheckArgs.resourceType args)
           (RecordHealthCheckArgs.resourceId args) (RecordHealthCheckArgs.status args)
           (RecordHealthCheckArgs.checkType args) (RecordHealthCheckArgs.responseTime args)
           (RecordHealthCheckArgs.errorMessage args) (now ctx)) in
  match RecordHealthCheckArgs.status args with
  | HealthStatus.error =>
      logSystemEvent ctx
        (LogSystemEventArgs.mk LogLevel.error "health_check"
           ("Health check failed for "
              +:+ ResourceType.to_string (RecordHealthCheckArgs.resourceType args)
              +:+ " " +:+ RecordHealthCheckArgs.resourceId args +:+ ": "
              +:+ default "Unknown error"
                    (js_or (RecordHealthCheckArgs.errorMessage args) None))
           (Some [("resourceType",
                   MString (ResourceType.to_string (RecordHealthCheckArgs.resourceType args)));
                  ("resourceId", MString (RecordHealthCheckArgs.resourceId args));
                  ("checkType", MString (RecordHealthCheckArgs.checkType args));
                  ("responseTime", optNumber (RecordHealthCheckArgs.responseTime args))]))
  | _ => ret tt
  end.

(** *** The queries of logging.ts *)

(** [getRecentLogs]: any caller with an identity; the index is chosen by
    [level] if it is there, else by [category] if that is there and not
    empty, else all logs by time. *)
Definition getRecentLogs (ctx : Ctx) (args : RecentLogsArgs.t)
  : Handler (list (nat * SystemLogDoc.t)) :=
  let* user := requireUser ctx in
  let* logs :=
    match RecentLogsArgs.level args with
    | Some level =>
        let* found := collect tbl_systemLogs (fun d => SystemLogDoc.level d = level) in
        ret (order_desc (fun _ => 0%Z) found)
    | None =>
        if truthy (RecentLogsArgs.category args)
        then
          let* found :=
            collect tbl_systemLogs
              (fun d => SystemLogDoc.category d = default "" (RecentLogsArgs.category args)) in
          ret (order_desc (fun _ => 0%Z) found)
        else
          let* found := collect tbl_systemLogs (fun _ => True) in
          ret (order_desc SystemLogDoc.timestamp found)
    end in
  ret (take (limit_or (RecentLogsArgs.limit args) 50) logs).

Definition healthSummary (check : nat * HealthCheckDoc.t) : HealthCheckSummary.t :=
  HealthCheckSummary.mk check.1 (HealthCheckDoc.status check.2)
    (HealthCheckDoc.checkType check.2) (HealthCheckDoc.responseTime check.2)
    (HealthCheckDoc.errorMessage check.2) (HealthCheckDoc.checkedAt check.2).

(** [getResourceHealthStatus] asks for no identity. *)
Definition getResourceHealthStatus (ctx : Ctx) (args : ResourceHealthArgs.t)
  : Handler (list HealthCheckSummary.t) :=
  let* found :=
    collect tbl_healthChecks
      (fun d => HealthCheckDoc.resourceType d = ResourceHealthArgs.resourceType args
                ∧ HealthCheckDoc.resourceId d = ResourceHealthArgs.resourceId args) in
  ret (healthSummary <$> take (limit_or (ResourceHealthArgs.limit args) 10)
                              (order_desc (fun _ => 0%Z) found)).

End Logging.

(** ** Every mutation, by name *)

Definition void {A} (h : Handler A) : Handler unit :=
  do* h in ret tt.

Definition mutate (ctx : Ctx) (m : Mutation) : Handler unit :=
  match m with
  | MCreateServer name region => void (Servers.createServer ctx name region)
  | MUpdateServerStatus args => Servers.updateServerStatus ctx args
  | MDeleteServer serverId => Servers.deleteServer ctx serverId
  | MDeleteServerRecord serverId => Servers.deleteServerRecord ctx serverId
  | MCreateDeployment args => void (Deployments.createDeployment ctx args)
  | MUpdateDeploymentStatus args => Deployments.updateDeploymentStatus ctx args
  | MDeleteDeployment deploymentId => Deployments.deleteDeployment ctx deploymentId
  | MDeleteDeploymentRecord deploymentId => Deployments.deleteDeploymentRecord ctx deploymentId
  | MStoreApiKeys args => void (ApiKeys.storeApiKeys ctx args)
  | MUpdateValidationStatus h d => ApiKeys.updateValidationStatus ctx h d
  | MDeleteApiKeys service => ApiKeys.deleteApiKeys ctx service
  | MLogSystemEvent args => Logging.logSystemEvent ctx args
  | MRecordHealthCheck args => Logging.recordHealthCheck ctx args
  end.

(** [internalMutation] in servers.ts; everything else is declared with
    [mutation]. *)
Definition visibility (m : Mutation) : Visibility :=
  match m with
  | MUpdateServerStatus _ | MDeleteServerRecord _ => Internal
  | _ => Public
  end.

(** ** The scheduler *)

Definition run_job (ctx : Ctx) (j : JobFn) : Action unit :=
  match j with
  | JProvisionServer serverId => Servers.provisionServer ctx serverId
  | JDestroyServer serverId => Servers.destroyServer ctx serverId
  | JDeployWordPress deploymentId => Deployments.deployWordPress ctx deploymentId
  | JDestroyWordPress deploymentId => Deployments.destroyWordPress ctx deploymentId
  end.

Definition dequeue (st : Store) : Store :=
  mkStore (apiKeys st) (servers st) (deployments st) (healthChecks st)
          (systemLogs st) (tail (scheduled st)) (nextId st).

(** The scheduler takes the oldest job off the queue and runs it; no client
    takes part.  [ctx] is the identity the platform gives the job. *)
Definition run_scheduled (ctx : Ctx) : Action unit :=
  fun w =>
    match scheduled (db w) with
    | [] => (Ok tt, w)
    | j :: _ => run_job ctx (fn j) (mkWorld (dequeue (db w)) (net w) (faults w) (events w))
    end.

(** ** Histories

    Every change of the store is the commit of one mutation, whoever calls
    it: a client, an action or the scheduler.  A history is a list of such
    calls, run from the empty store. *)

Definition after (st : Store) (call : Ctx * Mutation) : Store :=
  commit (mutate call.1 call.2) st.

Definition history (calls : list (Ctx * Mutation)) : Store :=
  foldl after empty_store calls.

(** A world around a store: no provider reachable, no platform failure to
    come, nothing logged yet. *)
Definition quiet_world (st : Store) : World :=
  mkWorld st (fun _ => None) [] [].

(** ** apps/web: the API key form and the dashboard

    [api-key-management.tsx] keeps three pieces of state; [handleSaveKeys]
    and [handleDeleteKeys] are its two handlers that call the backend.  A
    call from the browser into a mutation is one [runMutation]: its
    transaction is applied unless the platform fails the call.  A call into
    an action can be failed the same way, before the action starts. *)

Module Form.
Record t : Type := mk {
  hetznerApiKey : string;
  dokployApiKey : string;
  dokployUrl : string;
}.

Definition empty : t := mk "" "" "".

Inductive Field : Type := f_hetznerApiKey | f_dokployApiKey | f_dokployUrl.

(** [{ ...prev, [field]: value }] *)
Definition set (field : Field) (value : string) (prev : t) : t :=
  match field with
  | f_hetznerApiKey => mk value (dokployApiKey prev) (dokployUrl prev)
  | f_dokployApiKey => mk (hetznerApiKey prev) value (dokployUrl prev)
  | f_dokployUrl => mk (hetznerApiKey prev) (dokployApiKey prev) value
  end.
End Form.

(** [s || undefined] on a string of the form *)
Definition or_undefined (s : string) : option string :=
  if decide (s = "") then None else Some s.

(** One call of an action from outside. *)
Definition callAction {A} (a : Action A) : Action A :=
  fun w =>
    match faults w with
    | Some e :: rest => (Throw e, mkWorld (db w) (net w) rest (events w))
    | fs => a (mkWorld (db w) (net w) (tail fs) (events w))
    end.

Module ApiKeyManagement.

Record State : Type := mkState {
  formData : Form.t;
  isValidating : bool;
  validationErrors : list string;
}.

Definition initial : State := mkState Form.empty false [].

Definition setFormData (formData : Form.t) (s : State) : State :=
  mkState formData (isValidating s) (validationErrors s).

Definition setIsValidating (b : bool) (s : State) : State :=
  mkState (formData s) b (validationErrors s).

Definition setValidationErrors (errors : list string) (s : State) : State :=
  mkState (formData s) (isValidating s) errors.

Definition handleInputChange (field : Form.Field) (value : string) (s : State) : State :=
  setValidationErrors [] (setFormData (Form.set field value (formData s)) s).

(** The body of the [try] of [handleSaveKeys], from the call of
    [validateApiKeys] on; it returns the state it has set. *)
Definition handleSaveKeys_try (ctx : Ctx) (s : State) : Action State :=
  let form := formData s in
  let! validation :=
    callAction
      (ApiKeys.validateApiKeys ctx
         (ValidateApiKeysArgs.mk (or_undefined (Form.hetznerApiKey form))
                                 (or_undefined (Form.dokployApiKey form))
                                 (or_undefined (Form.dokployUrl form)))) in
  if 0 <? length (ValidationResult.errors validation)
  then aret (setValidationErrors (ValidationResult.errors validation) s)
  else
    let keys := StoreApiKeysArgs.mk (or_undefined (Form.hetznerApiKey form))
                                    (or_undefined (Form.dokployApiKey form))
                                    (or_undefined (Form.dokployUrl form)) in
    do! runMutation (MStoreApiKeys keys) (ApiKeys.storeApiKeys ctx keys) in
    do! runMutation (MUpdateValidationStatus (ValidationResult.hetznerValid validation)
                                             (ValidationResult.dokployValid validation))
          (ApiKeys.updateValidationStatus ctx
             (ValidationResult.hetznerValid validation)
             (ValidationResult.dokployValid validation)) in
    aret (setFormData Form.empty s).

(** [handleSaveKeys]: the component state and the world it leaves.  [ctx]
    is the session of the browser. *)
Definition handleSaveKeys (ctx : Ctx) (s : State) (w : World) : State * World :=
  let s1 := setValidationErrors [] (setIsValidating true s) in
  match handleSaveKeys_try ctx s1 w with
  | (Ok s2, w') => (setIsValidating false s2, w')
  | (Throw error, w') =>
      (setIsValidating false
         (setValidationErrors ["Failed to save API keys. Please try again."] s1),
       record_event (EvConsoleError "Failed to save API keys:" error) w')
  end.

(** [handleDeleteKeys]; [confirmed] is what [confirm] returns. *)
Definition handleDeleteKeys (ctx : Ctx) (service : Service) (confirmed : bool)
  : Action unit :=
  if confirmed
  then
    try_catch
      (runMutation (MDeleteApiKeys (Some service)) (ApiKeys.deleteApiKeys ctx (Some service)))
      (fun error => console_error "Failed to delete API keys:" error)
  else aret tt.

(** [formData.hetznerApiKey || formData.dokployApiKey || formData.dokployUrl],
    as the condition it is used for. *)
Definition hasUnsavedChanges (s : State) : bool :=
  truthy (js_or (js_or (Some (Form.hetznerApiKey (formData s)))
                       (Some (Form.dokployApiKey (formData s))))
                (Some (Form.dokployUrl (formData s)))).

(** [disabled={!hasUnsavedChanges || isValidating}] of the save button *)
Definition saveDisabled (s : State) : bool :=
  negb (hasUnsavedChanges s) || isValidating s.

End ApiKeyManagement.

Module DashboardPage.

(** [apiKeys?.isHetznerValid && apiKeys?.isDokployValid], as the condition
    it is used for; [None] is both [undefined], the query still loading, and
    [null], no credential stored. *)
Definition hasValidApiKeys (apiKeys : option ApiKeysStatus.t) : bool :=
  match apiKeys with
  | Some apiKeys => ApiKeysStatus.isHetznerValid apiKeys && ApiKeysStatus.isDokployValid apiKeys
  | None => false
  end.

End DashboardPage.

(** * Properties *)

(** ** Vocabulary of the statements *)

(** The credential [user] has stored: the one [apiKeys] document of theirs. *)
Definition stored_credential (st : Store) (user : string) (kid : nat) (k : ApiKeysDoc.t)
  : Prop :=
  apiKeys st !! kid = Some k
  ∧ ApiKeysDoc.userId k = user
  ∧ ∀ kid' k', apiKeys st !! kid' = Some k' → ApiKeysDoc.userId k' = user → kid' = kid.

(** The status of a server in a store, when the record is there. *)
Definition server_status (st : Store) (serverId : nat) : option ServerStatus.t :=
  ServerDoc.status <$> servers st !! serverId.

Definition deployment_status (st : Store) (deploymentId : nat) : option DeploymentStatus.t :=
  DeploymentDoc.status <$> deployments st !! deploymentId.

(** Three callers used in the examples. *)
Definition alice : Ctx := mkCtx (Some "alice") 1700000000000%Z.
Definition bob : Ctx := mkCtx (Some "bob") 1700000000500%Z.
Definition anonymous : Ctx := mkCtx None 1700000001000%Z.

(** Alice stores a Hetzner key, has it marked valid and creates a server:
    document 0 is her credential, document 1 her server, and the queue holds
    the provisioning of server 1. *)
Definition alice_creates_server : list (Ctx * Mutation) :=
  [ (alice, MStoreApiKeys (StoreApiKeysArgs.mk (Some "hetzner-key-0001") None None));
    (alice, MUpdateValidationStatus true true);
    (alice, MCreateServer "web-1" "fsn1") ].

(** What one committed mutation does to the servers, the deployments and
    the id counter: the cases of [mutate], read off the handlers. *)
Inductive effect (ctx : Ctx) (st st' : Store) : Mutation → Prop :=
| effect_createServer name region user :
    auth_user ctx = Some user →
    servers st' = <[nextId st := ServerDoc.mk user "" name None ServerStatus.creating
                                   region None false (now ctx) None]> (servers st) →
    deployments st' = deployments st →
    nextId st' = S (nextId st) →
    effect ctx st st' (MCreateServer name region)
| effect_updateServerStatus args server :
    auth_user ctx = Some (ServerDoc.userId server) →
    servers st !! UpdateServerStatusArgs.serverId args = Some server →
    servers st' = <[UpdateServerStatusArgs.serverId args := Servers.updates args server]>
                    (servers st) →
    deployments st' = deployments st →
    nextId st' = nextId st →
    effect ctx st st' (MUpdateServerStatus args)
| effect_deleteServer serverId server :
    auth_user ctx = Some (ServerDoc.userId server) →
    servers st !! serverId = Some server →
    servers st' = <[serverId := ServerDoc.with_status ServerStatus.deleting server]>
                    (servers st) →
    deployments st' = deployments st →
    nextId st' = nextId st →
    effect ctx st st' (MDeleteServer serverId)
| effect_deleteServerRecord serverId :
    servers st' = delete serverId (servers st) →
    deployments st' = deployments st →
    nextId st' = nextId st →
    effect ctx st st' (MDeleteServerRecord serverId)
| effect_createDeployment args server :
    auth_user ctx = Some (ServerDoc.userId server) →
    servers st !! CreateDeploymentArgs.serverId args = Some server →
    servers st' = servers st →
    deployments st' =
      <[nextId st := DeploymentDoc.mk (ServerDoc.userId server)
                       (CreateDeploymentArgs.serverId args) (CreateDeploymentArgs.name args)
                       (CreateDeploymentArgs.domain args) DeploymentStatus.deploying
                       (CreateDeploymentArgs.wordpressAdminUser args)
                       (CreateDeploymentArgs.wordpressAdminPass args)
                       (CreateDeploymentArgs.enableSsl args) (now ctx) None]>
        (deployments st) →
    nextId st' = S (nextId st) →
    effect ctx st st' (MCreateDeployment args)
| effect_updateDeploymentStatus args deployment :
    auth_user ctx = Some (DeploymentDoc.userId deployment) →
    deployments st !! UpdateDeploymentStatusArgs.deploymentId args = Some deployment →
    servers st' = servers st →
    deployments st' = <[UpdateDeploymentStatusArgs.deploymentId args :=
                          Deployments.updates args deployment]> (deployments st) →
    nextId st' = nextId st →
    effect ctx st st' (MUpdateDeploymentStatus args)
| effect_deleteDeployment deploymentId deployment :
    auth_user ctx = Some (DeploymentDoc.userId deployment) →
    deployments st !! deploymentId = Some deployment →
    servers st' = servers st →
    deployments st' = <[deploymentId :=
                          DeploymentDoc.with_status DeploymentStatus.stopped deployment]>
                        (deployments st) →
    nextId st' = nextId st →
    effect ctx st st' (MDeleteDeployment deploymentId)
| effect_deleteDeploymentRecord deploymentId :
    servers st' = servers st →
    deployments st' = delete deploymentId (deployments st) →
    nextId st' = nextId st →
    effect ctx st st' (MDeleteDeploymentRecord deploymentId)
| effect_none m :
    servers st' = servers st →
    deployments st' = deployments st →
    nextId st ≤ nextId st' →
    effect ctx st st' m.

(** What every reachable store satisfies: ids in use are below [nextId]
    (so an insert never lands on a record), and a deployment sits on a server
    of its own user for as long as that server exists. *)
Record consistent (st : Store) : Prop := mkConsistent {
  servers_fresh : ∀ id d, servers st !! id = Some d → id < nextId st;
  deployments_fresh : ∀ id d, deployments st !! id = Some d → id < nextId st;
  deployment_server_fresh :
    ∀ id d, deployments st !! id = Some d → DeploymentDoc.serverId d < nextId st;
  deployment_server_owner :
    ∀ id d s, deployments st !! id = Some d →
              servers st !! DeploymentDoc.serverId d = Some s →
              ServerDoc.userId s = DeploymentDoc.userId d;
}.

(** The record [provisionServer] leaves when its three writes go through. *)
Definition provisioned (server : ServerDoc.t) : ServerDoc.t :=
  ServerDoc.mk (ServerDoc.userId server) "placeholder-server-id" (ServerDoc.name server)
    (Some "192.168.1.100") ServerStatus.ready (ServerDoc.region server)
    (ServerDoc.sshKeyId server) true (ServerDoc.createdAt server)
    (ServerDoc.errorMessage server).

(** What a run of [provisionServer] adds to the log when nothing fails. *)
Definition provisioning_events (serverId : nat) : list Event :=
  [ EvRunMutation (MUpdateServerStatus (Servers.installing_args serverId));
    EvSleep 1000;
    EvRunMutation (MUpdateServerStatus (Servers.configuring_args serverId));
    EvRunMutation (MUpdateServerStatus (Servers.ready_args serverId)) ].

Definition deploying_events (deploymentId : nat) : list Event :=
  [ EvRunQuery (QGetDeployment deploymentId);
    EvSleep 2000;
    EvRunMutation (MUpdateDeploymentStatus (Deployments.running_args deploymentId)) ].

(** The requests to a provider among the events of a run. *)
Definition provider_calls (evs : list Event) : list Request.t :=
  omap (fun ev => match ev with EvFetch r => Some r | _ => None end) evs.

(** The statuses [updateServerStatus] was asked to write, in order. *)
Definition statuses_written (evs : list Event) : list ServerStatus.t :=
  omap (fun ev => match ev with
                  | EvRunMutation (MUpdateServerStatus args) =>
                      Some (UpdateServerStatusArgs.status args)
                  | _ => None
                  end) evs.

(** The three writes of a provisioning that goes through, as calls. *)
Definition provisioning (ctx : Ctx) (serverId : nat) : list (Ctx * Mutation) :=
  [ (ctx, MUpdateServerStatus (Servers.installing_args serverId));
    (ctx, MUpdateServerStatus (Servers.configuring_args serverId));
    (ctx, MUpdateServerStatus (Servers.ready_args serverId)) ].

(** Alice's server 1 after its provisioning, and a site on it (document 2). *)
Definition alice_has_ready_server : list (Ctx * Mutation) :=
  alice_creates_server ++ provisioning alice 1.

Definition alice_deploys_site : list (Ctx * Mutation) :=
  alice_has_ready_server
  ++ [ (alice, MCreateDeployment
                 (CreateDeploymentArgs.mk 1 "blog" None "admin" "s3cret" false)) ].

(** The lifecycle as the specification words it:
    [created → provisioning → {ready | failed}; ready → deprovisioning → deleted].
    [phase] reads the six statuses of the schema as its states: [installing]
    and [configuring] are both [provisioning]; a deleted record has no
    status. *)
Module Lifecycle.
Inductive t : Type :=
| created | provisioning | ready | failed | deprovisioning.

#[global] Instance eq_dec : EqDecision t.
Proof. solve_decision. Defined.

Definition phase (s : ServerStatus.t) : t :=
  match s with
  | ServerStatus.creating => created
  | ServerStatus.installing | ServerStatus.configuring => provisioning
  | ServerStatus.ready => ready
  | ServerStatus.error => failed
  | ServerStatus.deleting => deprovisioning
  end.

(** An edge of the lifecycle between two phases of a record that is still
    there. *)
Definition edge (p q : t) : bool :=
  match p, q with
  | created, provisioning
  | provisioning, ready
  | provisioning, failed
  | ready, deprovisioning => true
  | _, _ => false
  end.

(** A step the lifecycle allows: the phase stays, or moves along an edge. *)
Definition allowed (s s' : ServerStatus.t) : bool :=
  bool_decide (phase s = phase s') || edge (phase s) (phase s').
End Lifecycle.

(** What a caller gets back from a query or mutation. *)
Definition answer {A} (h : Handler A) (st : Store) : Result A :=
  match h st with
  | Ok (a, _) => Ok a
  | Throw e => Throw e
  end.

(** ** The calls the code makes

    [history] runs any list of calls.  The code makes fewer:
    [updateServerStatus] is an [internalMutation], and the one function that
    calls it is [provisionServer], with four argument objects: [installing]
    first, [configuring] once the write of [installing] has gone through,
    [ready] once the write of [configuring] has, and [error] from its
    [catch].  Runs of different jobs and calls of clients interleave
    freely, and every other mutation is called at any time with any
    arguments. *)

(** The write of [args] has gone through somewhere in [calls]. *)
Definition wrote (calls : list (Ctx * Mutation)) (args : UpdateServerStatusArgs.t) : Prop :=
  ∃ before ctx later,
    calls = before ++ (ctx, MUpdateServerStatus args) :: later
    ∧ answer (Servers.updateServerStatus ctx args) (history before) = Ok tt.

(** The mutation [m] can be the next call after [calls]. *)
Definition next_call (calls : list (Ctx * Mutation)) (m : Mutation) : Prop :=
  match m with
  | MUpdateServerStatus args =>
      ∃ serverId,
        args = Servers.installing_args serverId
        ∨ (args = Servers.configuring_args serverId
           ∧ wrote calls (Servers.installing_args serverId))
        ∨ (args = Servers.ready_args serverId
           ∧ wrote calls (Servers.configuring_args serverId))
        ∨ (∃ error, args = Servers.error_args serverId error)
  | _ => True
  end.

Inductive from_code : list (Ctx * Mutation) → Prop :=
| from_code_nil : from_code []
| from_code_snoc calls ctx m :
    from_code calls → next_call calls m → from_code (calls ++ [(ctx, m)]).

(** What holds after the calls the code makes: a write that went through
    went to a record that was there; once [installing] is written the
    record, while it is there, carries the provider id and the address that
    [provisionServer] writes; [configuring] is written after [installing];
    and a record that is [ready] was written [configuring] and has
    [dokployInstalled] set. *)
Record provisioning_order (calls : list (Ctx * Mutation)) : Prop := mkProvisioningOrder {
  written_below :
    ∀ args, wrote calls args →
            UpdateServerStatusArgs.serverId args < nextId (history calls);
  installed_kept :
    ∀ serverId server,
      wrote calls (Servers.installing_args serverId) →
      servers (history calls) !! serverId = Some server →
      ServerDoc.hetznerServerId server = "placeholder-server-id"
      ∧ ServerDoc.ipAddress server = Some "192.168.1.100";
  configured_after_installed :
    ∀ serverId,
      wrote calls (Servers.configuring_args serverId) →
      wrote calls (Servers.installing_args serverId);
  ready_after_configured :
    ∀ serverId server,
      servers (history calls) !! serverId = Some server →
      ServerDoc.status server = ServerStatus.ready →
      wrote calls (Servers.configuring_args serverId)
      ∧ ServerDoc.dokployInstalled server = true;
}.

(** Alice's ready server in a world where the platform is about to fail
    the calls [faults] says. *)
Definition alice_ready_world (faults : list (option Thrown)) : World :=
  mkWorld (history alice_has_ready_server) (fun _ => None) faults [].

Definition servers_of (user : string) (st : Store) : gmap nat ServerDoc.t :=
  filter (fun kd : nat * ServerDoc.t => ServerDoc.userId kd.2 = user) (servers st).

Definition deployments_of (user : string) (st : Store) : gmap nat DeploymentDoc.t :=
  filter (fun kd : nat * DeploymentDoc.t => DeploymentDoc.userId kd.2 = user)
         (deployments st).

(** Two stores that hold the same servers and deployments of [user],
    whatever else they hold. *)
Definition same_records_of (user : string) (st1 st2 : Store) : Prop :=
  servers_of user st1 = servers_of user st2
  ∧ deployments_of user st1 = deployments_of user st2.

(** Bob, meanwhile: a credential, a server of his own (document 4), which
    is provisioned and then marked for deletion. *)
Definition bob_comes_and_goes : list (Ctx * Mutation) :=
  [ (bob, MStoreApiKeys (StoreApiKeysArgs.mk (Some "hetzner-key-0002") None None));
    (bob, MUpdateValidationStatus true false);
    (bob, MCreateServer "shop" "nbg1") ]
  ++ provisioning bob 4
  ++ [ (bob, MDeleteServer 4) ].

(** What one committed mutation does to the credentials. *)
Inductive credential_effect (ctx : Ctx) (st st' : Store) : Prop :=
| credentials_kept :
    apiKeys st' = apiKeys st →
    nextId st ≤ nextId st' →
    credential_effect ctx st st'
| credentials_inserted doc :
    (∀ id d, apiKeys st !! id = Some d → ApiKeysDoc.userId d ≠ ApiKeysDoc.userId doc) →
    apiKeys st' = <[nextId st := doc]> (apiKeys st) →
    nextId st' = S (nextId st) →
    credential_effect ctx st st'
| credentials_patched id d d' :
    apiKeys st !! id = Some d →
    ApiKeysDoc.userId d' = ApiKeysDoc.userId d →
    apiKeys st' = <[id := d']> (apiKeys st) →
    nextId st' = nextId st →
    credential_effect ctx st st'
| credentials_deleted id :
    apiKeys st' = delete id (apiKeys st) →
    nextId st' = nextId st →
    credential_effect ctx st st'.

(** In every reachable store a user has at most one credential document,
    which is what [.unique()] relies on. *)
Record one_credential_each (st : Store) : Prop := mkOneCredential {
  credentials_fresh : ∀ id d, apiKeys st !! id = Some d → id < nextId st;
  credentials_unique :
    ∀ id1 d1 id2 d2,
      apiKeys st !! id1 = Some d1 → apiKeys st !! id2 = Some d2 →
      ApiKeysDoc.userId d1 = ApiKeysDoc.userId d2 → id1 = id2;
}.

(** ** Vocabulary of the further properties *)

(** The mutations of the API key functions. *)
Definition writes_credentials (m : Mutation) : bool :=
  match m with
  | MStoreApiKeys _ | MUpdateValidationStatus _ _ | MDeleteApiKeys _ => true
  | _ => false
  end.

(** Alice's three documents in [alice_deploys_site], and Bob's credential
    after [bob_comes_and_goes] (document 3 when he comes after Alice). *)
Definition alice_credential : ApiKeysDoc.t :=
  ApiKeysDoc.mk "alice" (Some "hetzner-key-0001") None None true true
                (Some 1700000000000%Z).

Definition alice_server : ServerDoc.t :=
  ServerDoc.mk "alice" "placeholder-server-id" "web-1" (Some "192.168.1.100")
               ServerStatus.ready "fsn1" None true 1700000000000%Z None.

Definition alice_deployment : DeploymentDoc.t :=
  DeploymentDoc.mk "alice" 1 "blog" None DeploymentStatus.deploying "admin" "s3cret"
                   false 1700000000000%Z None.

Definition bob_credential : ApiKeysDoc.t :=
  ApiKeysDoc.mk "bob" (Some "hetzner-key-0002") None None true false
                (Some 1700000000500%Z).

(** ** What an action leaves alone *)

(** An action keeps [R] when the store it leaves is related by [R] to the
    store it found, in every world: whatever the providers answer and
    whichever calls the platform fails. *)
Definition keeps {A} (R : relation Store) (a : Action A) : Prop :=
  ∀ w, R (db w) (db (a w).2).

Definition agree_off {D} (id : nat) (m m' : gmap nat D) : Prop :=
  ∀ i, i ≠ id → m' !! i = m !! i.

(** [st'] is [st] but for the server record [serverId]. *)
Record on_server (serverId : nat) (st st' : Store) : Prop := mkOnServer {
  on_server_apiKeys : apiKeys st' = apiKeys st;
  on_server_deployments : deployments st' = deployments st;
  on_server_healthChecks : healthChecks st' = healthChecks st;
  on_server_systemLogs : systemLogs st' = systemLogs st;
  on_server_nextId : nextId st' = nextId st;
  on_server_others : agree_off serverId (servers st) (servers st');
}.

(** [st'] is [st] but for the deployment record [deploymentId]. *)
Record on_deployment (deploymentId : nat) (st st' : Store) : Prop := mkOnDeployment {
  on_deployment_apiKeys : apiKeys st' = apiKeys st;
  on_deployment_servers : servers st' = servers st;
  on_deployment_healthChecks : healthChecks st' = healthChecks st;
  on_deployment_systemLogs : systemLogs st' = systemLogs st;
  on_deployment_nextId : nextId st' = nextId st;
  on_deployment_others : agree_off deploymentId (deployments st) (deployments st');
}.

Definition same_queue (st st' : Store) : Prop := scheduled st' = scheduled st.

(** The server record is still there, of the same user and under the same
    name, region and creation time. *)
Definition server_stays (serverId : nat) (st st' : Store) : Prop :=
  ∀ server, servers st !! serverId = Some server →
    ∃ server', servers st' !! serverId = Some server'
               ∧ ServerDoc.userId server' = ServerDoc.userId server
               ∧ ServerDoc.name server' = ServerDoc.name server
               ∧ ServerDoc.region server' = ServerDoc.region server
               ∧ ServerDoc.createdAt server' = ServerDoc.createdAt server.

(** The deployment record is still there: at most its status and its error
    message have changed. *)
Definition deployment_stays (deploymentId : nat) (st st' : Store) : Prop :=
  ∀ deployment, deployments st !! deploymentId = Some deployment →
    ∃ status errorMessage,
      deployments st' !! deploymentId
      = Some (DeploymentDoc.mk (DeploymentDoc.userId deployment)
                (DeploymentDoc.serverId deployment) (DeploymentDoc.name deployment)
                (DeploymentDoc.domain deployment) status
                (DeploymentDoc.wordpressAdminUser deployment)
                (DeploymentDoc.wordpressAdminPass deployment)
                (DeploymentDoc.sslEnabled deployment)
                (DeploymentDoc.createdAt deployment) errorMessage).

(** What a scheduled job may do to the store. *)
Definition job_frame (j : JobFn) (st st' : Store) : Prop :=
  match j with
  | JProvisionServer serverId =>
      on_server serverId st st' ∧ server_stays serverId st st'
      ∧ (scheduled st' = scheduled st
         ∨ scheduled st' = scheduled st ++ [mkJob 0 (JDestroyServer serverId)])
  | JDestroyServer serverId =>
      on_server serverId st st' ∧ same_queue st st'
  | JDeployWordPress deploymentId =>
      on_deployment deploymentId st st' ∧ deployment_stays deploymentId st st'
      ∧ same_queue st st'
  | JDestroyWordPress deploymentId =>
      on_deployment deploymentId st st' ∧ same_queue st st'
  end.

(** The two frames the writes of the jobs stay in. *)
Definition server_frame (serverId : nat) (st st' : Store) : Prop :=
  on_server serverId st st' ∧ server_stays serverId st st' ∧ same_queue st st'.

Definition deployment_frame (deploymentId : nat) (st st' : Store) : Prop :=
  on_deployment deploymentId st st' ∧ deployment_stays deploymentId st st'
  ∧ same_queue st st'.

(** The frames of the jobs that delete. *)
Definition server_removal (serverId : nat) (st st' : Store) : Prop :=
  on_server serverId st st' ∧ same_queue st st'.

Definition deployment_removal (deploymentId : nat) (st st' : Store) : Prop :=
  on_deployment deploymentId st st' ∧ same_queue st st'.

(** A store without one of its records. *)
Definition without_server (serverId : nat) (st : Store) : Store :=
  put_rows tbl_servers (delete serverId (servers st)) st.

Definition without_deployment (deploymentId : nat) (st : Store) : Store :=
  put_rows tbl_deployments (delete deploymentId (deployments st)) st.

(** The world around Alice's site when the platform is about to fail the
    calls [faults] says. *)
Definition alice_site_world (faults : list (option Thrown)) : World :=
  mkWorld (history alice_deploys_site) (fun _ => None) faults [].

(** ** Validation, as the providers see it *)

(** Whether a provider is asked at all, what it is asked, and whether it
    accepts: it answers, and with a 2xx status. *)
Definition asks_hetzner (args : ValidateApiKeysArgs.t) : bool :=
  truthy (ValidateApiKeysArgs.hetznerApiKey args).

Definition asks_dokploy (args : ValidateApiKeysArgs.t) : bool :=
  truthy (ValidateApiKeysArgs.dokployApiKey args)
  && truthy (ValidateApiKeysArgs.dokployUrl args).

Definition hetzner_request (args : ValidateApiKeysArgs.t) : Request.t :=
  ApiKeys.hetznerRequest (default "" (ValidateApiKeysArgs.hetznerApiKey args)).

Definition dokploy_request (args : ValidateApiKeysArgs.t) : Request.t :=
  ApiKeys.dokployRequest (default "" (ValidateApiKeysArgs.dokployUrl args))
                         (default "" (ValidateApiKeysArgs.dokployApiKey args)).

Definition provider_accepts (w : World) (request : Request.t) : bool :=
  match net w request with
  | Some response => Response.ok response
  | None => false
  end.

Definition hetzner_verdict (w : World) (args : ValidateApiKeysArgs.t) : bool :=
  asks_hetzner args && provider_accepts w (hetzner_request args).

Definition dokploy_verdict (w : World) (args : ValidateApiKeysArgs.t) : bool :=
  asks_dokploy args && provider_accepts w (dokploy_request args).

(** Every key that was sent was accepted. *)
Definition all_accepted (w : World) (args : ValidateApiKeysArgs.t) : bool :=
  bool_decide (hetzner_verdict w args = asks_hetzner args)
  && bool_decide (dokploy_verdict w args = asks_dokploy args).

(** What the form sends. *)
Definition form_args (form : Form.t) : ValidateApiKeysArgs.t :=
  ValidateApiKeysArgs.mk (or_undefined (Form.hetznerApiKey form))
                         (or_undefined (Form.dokployApiKey form))
                         (or_undefined (Form.dokployUrl form)).

(** [st'] is [st] but for the credentials and the id counter. *)
Definition on_credentials (st st' : Store) : Prop :=
  servers st' = servers st ∧ deployments st' = deployments st
  ∧ healthChecks st' = healthChecks st ∧ systemLogs st' = systemLogs st
  ∧ scheduled st' = scheduled st.

(** A world in which every provider accepts every request, around Alice's
    store, and the form with a new Hetzner key typed in. *)
Definition accepting_world : World :=
  mkWorld (history alice_deploys_site) (fun _ => Some (Response.mk true 200)) [] [].

Definition hetzner_key_typed : ApiKeyManagement.State :=
  ApiKeyManagement.mkState (Form.mk "hetzner-key-0009" "" "") false [].

(** Ids of log entries and health checks in use are below [nextId]. *)
Definition logs_fresh (st : Store) : Prop :=
  (∀ id d, systemLogs st !! id = Some d → id < nextId st)
  ∧ (∀ id d, healthChecks st !! id = Some d → id < nextId st).

(** * Proofs *)

Create HintDb handlers.
#[global] Hint Unfold bind ret throw requireUser db_get db_patch db_delete db_insert
  scheduler_runAfter commit void try_catchH collect unique after mutate getAuthUser : handlers.

(** Evaluate a handler: unfold the monad and split on what it reads. *)
Ltac split_read :=
  match goal with
  | |- context [match auth_user ?c with _ => _ end] => destruct (auth_user c) eqn:?
  | |- context [match ?m !! ?k with _ => _ end] => destruct (m !! k) eqn:?
  | |- context [decide ?P] => destruct (decide P)
  | |- context [map_to_list ?m] => destruct (map_to_list m) as [|? [|? ?]] eqn:?
  | |- context [if ?b then _ else _] => destruct b eqn:?
  | |- context [match ?x with svc_hetzner => _ | _ => _ end] => destruct x eqn:?
  | |- context [match ?x with HealthStatus.healthy => _ | _ => _ end] => destruct x eqn:?
  end.

Ltac run_handler :=
  repeat (autounfold with handlers; simpl; try split_read).

(** Open a call of [mutate] down to the reads and writes of its handler. *)
Ltac open_mutation :=
  unfold after, mutate, void; simpl;
  unfold Servers.createServer, Servers.updateServerStatus, Servers.deleteServer,
    Servers.deleteServerRecord, Deployments.createDeployment,
    Deployments.updateDeploymentStatus, Deployments.deleteDeployment,
    Deployments.deleteDeploymentRecord, ApiKeys.storeApiKeys,
    ApiKeys.updateValidationStatus, ApiKeys.deleteApiKeys, Logging.recordHealthCheck,
    Logging.logSystemEvent;
  run_handler; simplify_eq.

(** ** What a mutation does

    Every call of a mutation, committed or rolled back, is one of the cases
    of [effect]. *)

Lemma after_effect ctx m st : effect ctx st (after st (ctx, m)) m.
Proof.
  destruct m; open_mutation;
    first [ by apply effect_none; simpl; auto with lia
          | by econstructor; simpl; eauto ].
Qed.

(** ** Reachable stores are consistent

    [consistent] holds of the empty store and is kept by every call, hence
    it holds after every history. *)

Ltac split_lookup :=
  repeat match goal with
         | H : <[_:=_]> _ !! _ = Some _ |- _ =>
             apply lookup_insert_Some in H as [[? ?]|[? H]]
         | H : delete _ _ !! _ = Some _ |- _ =>
             apply lookup_delete_Some in H as [? H]
         end; simplify_eq/=.

Lemma consistent_empty : consistent empty_store.
Proof. by constructor; simpl; intros *; rewrite lookup_empty. Qed.

Lemma consistent_effect ctx st st' m :
  consistent st → effect ctx st st' m → consistent st'.
Proof.
  intros [Hs Hd Hds Hown] E.
  inversion E as [? ? ? ? Es Ed En|? ? ? ? Es Ed En|? ? ? ? Es Ed En|? Es Ed En
                 |? ? ? ? Es Ed En|? ? ? ? Es Ed En|? ? ? ? Es Ed En|? Es Ed En
                 |? Es Ed En]; subst;
    constructor; rewrite ?Es, ?Ed, ?En; intros; split_lookup;
    repeat match goal with
           | H : servers st !! _ = Some _ |- _ => learn_hyp (Hs _ _ H)
           | H : deployments st !! _ = Some _ |- _ => learn_hyp (Hd _ _ H)
           | H : deployments st !! _ = Some _ |- _ => learn_hyp (Hds _ _ H)
           end;
    try lia; eauto; eapply Hown; eauto; congruence.
Qed.

Lemma history_snoc calls call :
  history (calls ++ [call]) = after (history calls) call.
Proof. unfold history. by rewrite foldl_snoc. Qed.

Lemma consistent_history calls : consistent (history calls).
Proof.
  induction calls as [|[ctx m] calls IH] using rev_ind.
  - apply consistent_empty.
  - rewrite history_snoc. eapply consistent_effect; [exact IH|apply after_effect].
Qed.

(** ** A user has one credential

    [storeApiKeys] inserts only when [.unique()] found nothing, and no patch
    changes the [userId] of a credential. *)

Lemma nobody_found {D} (P : nat * D → Prop) `{!∀ x, Decision (P x)} (m : gmap nat D) :
  map_to_list (filter P m) = [] → ∀ id d, m !! id = Some d → ¬ P (id, d).
Proof.
  intros Hnil%map_to_list_empty_iff id d Hd HP.
  by eapply (map_filter_empty_not_lookup P m id d).
Qed.

Lemma after_credential_effect ctx m st : credential_effect ctx st (after st (ctx, m)).
Proof.
  destruct m; open_mutation;
    first [ by apply credentials_kept; simpl; auto with lia
          | by eapply credentials_patched; simpl;
               [eassumption| |reflexivity|reflexivity]
          | by eapply credentials_deleted; simpl; eauto
          | idtac ].
  eapply credentials_inserted; simpl; [|done..].
  intros id d Hd. simpl.
  match goal with H : map_to_list _ = [] |- _ => exact (nobody_found _ _ H id d Hd) end.
Qed.

Lemma one_credential_empty : one_credential_each empty_store.
Proof. by constructor; simpl; intros *; rewrite lookup_empty. Qed.

Lemma one_credential_effect ctx st st' :
  one_credential_each st → credential_effect ctx st st' → one_credential_each st'.
Proof.
  intros [Hfresh Huniq] [Ek En|doc Hnew Ek En|id d d' Hd Hu Ek En|id Ek En];
    constructor; rewrite ?Ek, ?En.
  - intros id d Hd. apply Hfresh in Hd. lia.
  - eauto.
  - intros id d [[<- <-]|[_ Hd]]%lookup_insert_Some; [lia|]. apply Hfresh in Hd. lia.
  - intros id1 d1 id2 d2 [[<- <-]|[? H1]]%lookup_insert_Some
      [[<- <-]|[? H2]]%lookup_insert_Some Hsame; try done.
    + by apply Hnew in H2.
    + symmetry in Hsame. by apply Hnew in H1.
    + eauto.
  - intros id0 d0 [[<- <-]|[_ Hd0]]%lookup_insert_Some; eauto.
  - intros id1 d1 id2 d2 [[<- <-]|[? H1]]%lookup_insert_Some
      [[<- <-]|[? H2]]%lookup_insert_Some Hsame; try done.
    + rewrite Hu in Hsame. eauto.
    + rewrite Hu in Hsame. eauto.
    + eauto.
  - intros id0 d0 [_ Hd0]%lookup_delete_Some. eauto.
  - intros id1 d1 id2 d2 [_ H1]%lookup_delete_Some [_ H2]%lookup_delete_Some. eauto.
Qed.

Lemma one_credential_history calls : one_credential_each (history calls).
Proof.
  induction calls as [|[ctx m] calls IH] using rev_ind.
  - apply one_credential_empty.
  - rewrite history_snoc.
    eapply one_credential_effect; [exact IH|apply after_credential_effect].
Qed.

(** ** Single calls *)

Lemma updateServerStatus_owner ctx args st server :
  auth_user ctx = Some (ServerDoc.userId server) →
  servers st !! UpdateServerStatusArgs.serverId args = Some server →
  Servers.updateServerStatus ctx args st
  = Ok (tt, put_rows tbl_servers
              (<[UpdateServerStatusArgs.serverId args := Servers.updates args server]>
                 (servers st)) st).
Proof.
  intros Hu Hs. unfold Servers.updateServerStatus.
  autounfold with handlers. simpl. rewrite Hu. simpl. rewrite Hs.
  rewrite decide_True by done. simpl. by rewrite Hs.
Qed.

Lemma updateServerStatus_unauthenticated ctx args st :
  auth_user ctx = None →
  Servers.updateServerStatus ctx args st = Throw (Error "Not authenticated").
Proof.
  intros Hu. unfold Servers.updateServerStatus. autounfold with handlers. by rewrite Hu.
Qed.

Lemma getServer_owner ctx serverId st server :
  auth_user ctx = Some (ServerDoc.userId server) →
  servers st !! serverId = Some server →
  Servers.getServer ctx serverId st = Ok (Some (Servers.view serverId server), st).
Proof.
  intros Hu Hs. unfold Servers.getServer. autounfold with handlers. simpl.
  rewrite Hu. simpl. rewrite Hs. by rewrite decide_True.
Qed.

Lemma getServer_not_theirs ctx user serverId st :
  auth_user ctx = Some user →
  (∀ server, servers st !! serverId = Some server → ServerDoc.userId server ≠ user) →
  Servers.getServer ctx serverId st = Ok (None, st).
Proof.
  intros Hu Hs. unfold Servers.getServer. autounfold with handlers. simpl.
  rewrite Hu. simpl. destruct (servers st !! serverId) as [server|] eqn:E; [|done].
  rewrite decide_False; [done|]. by apply Hs.
Qed.

Lemma getServer_unauthenticated ctx serverId st :
  auth_user ctx = None →
  Servers.getServer ctx serverId st = Throw (Error "Not authenticated").
Proof.
  intros Hu. unfold Servers.getServer. autounfold with handlers. by rewrite Hu.
Qed.

Lemma deleteServerRecord_present ctx serverId st server :
  servers st !! serverId = Some server →
  Servers.deleteServerRecord ctx serverId st
  = Ok (tt, put_rows tbl_servers (delete serverId (servers st)) st).
Proof.
  intros Hs. unfold Servers.deleteServerRecord, db_delete. simpl. by rewrite Hs.
Qed.

Lemma platform_call_ok {A} ev (h : Handler A) w a st :
  faults w = [] → h (db w) = Ok (a, st) →
  platform_call ev h w = (Ok a, mkWorld st (net w) [] (events w ++ [ev])).
Proof. intros Hf Hh. unfold platform_call. by rewrite Hf, Hh. Qed.

Lemma platform_call_throw {A} ev (h : Handler A) w e :
  faults w = [] → h (db w) = Throw e →
  platform_call ev h w = (Throw e, mkWorld (db w) (net w) [] (events w ++ [ev])).
Proof. intros Hf Hh. unfold platform_call. by rewrite Hf, Hh. Qed.

Lemma platform_call_fault {A} ev (h : Handler A) w e rest :
  faults w = Some e :: rest →
  platform_call ev h w = (Throw e, mkWorld (db w) (net w) rest (events w ++ [ev])).
Proof. intros Hf. unfold platform_call. by rewrite Hf. Qed.

(** ** provisionServer *)

Lemma updates_thrice serverId server :
  Servers.updates (Servers.ready_args serverId)
    (Servers.updates (Servers.configuring_args serverId)
       (Servers.updates (Servers.installing_args serverId) server))
  = provisioned server.
Proof. by destruct server. Qed.

Lemma provisionServer_try_owner ctx serverId server w :
  auth_user ctx = Some (ServerDoc.userId server) →
  servers (db w) !! serverId = Some server →
  faults w = [] →
  Servers.provisionServer_try ctx serverId w
  = (Ok tt,
     mkWorld (put_rows tbl_servers (<[serverId := provisioned server]> (servers (db w))) (db w))
             (net w) [] (events w ++ provisioning_events serverId)).
Proof.
  intros Hu Hs Hf.
  unfold Servers.provisionServer_try, Servers.internal_updateServerStatus, runMutation,
    abind, sleep, emit, record_event.
  erewrite platform_call_ok;
    [|done|by apply updateServerStatus_owner with (server := server)].
  simpl.
  erewrite platform_call_ok;
    [|done|apply updateServerStatus_owner; simpl; [|apply lookup_insert_eq]; done].
  simpl.
  erewrite platform_call_ok;
    [|done|apply updateServerStatus_owner; simpl; [|apply lookup_insert_eq]; done].
  simpl. rewrite !insert_insert_eq, updates_thrice, <- !app_assoc. done.
Qed.

Lemma provisionServer_owner ctx serverId server w :
  auth_user ctx = Some (ServerDoc.userId server) →
  servers (db w) !! serverId = Some server →
  faults w = [] →
  Servers.provisionServer ctx serverId w
  = (Ok tt,
     mkWorld (put_rows tbl_servers (<[serverId := provisioned server]> (servers (db w))) (db w))
             (net w) [] (events w ++ provisioning_events serverId)).
Proof.
  intros Hu Hs Hf. unfold Servers.provisionServer, try_catch.
  by rewrite (provisionServer_try_owner _ _ server).
Qed.

(** Whether [updateServerStatus] throws depends on the caller and on the
    record, not on what is to be written. *)
Lemma updateServerStatus_throws_alike ctx args args' st e :
  UpdateServerStatusArgs.serverId args' = UpdateServerStatusArgs.serverId args →
  Servers.updateServerStatus ctx args st = Throw e →
  Servers.updateServerStatus ctx args' st = Throw e.
Proof.
  intros Hid. unfold Servers.updateServerStatus. rewrite Hid.
  run_handler; congruence.
Qed.

Lemma updateServerStatus_inv ctx args st st' :
  Servers.updateServerStatus ctx args st = Ok (tt, st') →
  ∃ server, auth_user ctx = Some (ServerDoc.userId server)
            ∧ servers st !! UpdateServerStatusArgs.serverId args = Some server.
Proof.
  unfold Servers.updateServerStatus. run_handler; intros; simplify_eq; eauto.
Qed.

(** Without a failure of the platform the error branch never completes:
    when the [try] throws, it is [updateServerStatus] that refuses the
    caller or misses the record, and it refuses the write of [error] just
    the same.  The action then fails and the store is as it was. *)
Lemma error_branch_needs_platform_failure ctx serverId w e w_try :
  faults w = [] →
  Servers.provisionServer_try ctx serverId w = (Throw e, w_try) →
  (Servers.provisionServer ctx serverId w).1 = Throw e
  ∧ db (Servers.provisionServer ctx serverId w).2 = db w.
Proof.
  intros Hf Htry.
  destruct (Servers.updateServerStatus ctx (Servers.installing_args serverId) (db w))
    as [[[] st']|e1] eqn:E1.
  - apply updateServerStatus_inv in E1 as (server & Hu & Hs).
    rewrite (provisionServer_try_owner _ _ server) in Htry by done. discriminate.
  - unfold Servers.provisionServer, try_catch.
    revert Htry.
    unfold Servers.provisionServer_try, Servers.provisionServer_catch,
      Servers.internal_updateServerStatus, runMutation, abind.
    rewrite (platform_call_throw _ _ _ e1) by done.
    intros [= <- <-].
    rewrite (platform_call_throw _ _ _ e1); [done|done|].
    by apply (updateServerStatus_throws_alike _ (Servers.installing_args serverId)).
Qed.

(** The error branch, when its write goes through: the record is marked
    and its destruction is queued. *)
Lemma provisionServer_error_branch ctx serverId server error w w_try :
  auth_user ctx = Some (ServerDoc.userId server) →
  Servers.provisionServer_try ctx serverId w = (Throw error, w_try) →
  servers (db w_try) !! serverId = Some server →
  faults w_try = [] →
  Servers.provisionServer ctx serverId w
  = (Ok tt,
     mkWorld (enqueue (mkJob 0 (JDestroyServer serverId))
                (put_rows tbl_servers
                   (<[serverId := Servers.updates (Servers.error_args serverId error) server]>
                      (servers (db w_try))) (db w_try)))
             (net w_try) []
             (events w_try
              ++ [EvRunMutation (MUpdateServerStatus (Servers.error_args serverId error))])).
Proof.
  intros Hu Htry Hs Hf.
  unfold Servers.provisionServer, try_catch. rewrite Htry.
  unfold Servers.provisionServer_catch, abind, Servers.internal_updateServerStatus,
    runMutation, schedule.
  by erewrite platform_call_ok; [|done|by apply updateServerStatus_owner].
Qed.

(** ** destroyServer *)

Lemma destroyServer_owner ctx serverId server w :
  auth_user ctx = Some (ServerDoc.userId server) →
  servers (db w) !! serverId = Some server →
  faults w = [] →
  Servers.destroyServer ctx serverId w
  = (Ok tt,
     mkWorld (put_rows tbl_servers (delete serverId (servers (db w))) (db w)) (net w) []
             (events w ++ [EvRunQuery (QGetServer serverId);
                           EvRunMutation (MDeleteServerRecord serverId)])).
Proof.
  intros Hu Hs Hf.
  unfold Servers.destroyServer, try_catch, abind, Servers.internal_getServer,
    Servers.internal_deleteServerRecord, runQuery, runMutation.
  erewrite platform_call_ok; [|done|by apply getServer_owner]. simpl.
  erewrite platform_call_ok; [|done|by eapply deleteServerRecord_present]. simpl.
  by rewrite <- app_assoc.
Qed.

Lemma destroyServer_unauthenticated ctx serverId server w :
  auth_user ctx = None →
  servers (db w) !! serverId = Some server →
  faults w = [] →
  Servers.destroyServer ctx serverId w
  = (Ok tt,
     mkWorld (put_rows tbl_servers (delete serverId (servers (db w))) (db w)) (net w) []
             (events w ++ [EvRunQuery (QGetServer serverId);
                           EvConsoleError "Error destroying server:" (Error "Not authenticated");
                           EvRunMutation (MDeleteServerRecord serverId)])).
Proof.
  intros Hu Hs Hf.
  unfold Servers.destroyServer, try_catch, abind, Servers.internal_getServer,
    Servers.internal_deleteServerRecord, runQuery, runMutation, console_error, emit,
    record_event.
  erewrite platform_call_throw; [|done|by apply getServer_unauthenticated]. simpl.
  erewrite platform_call_ok; [|done|by eapply deleteServerRecord_present]. simpl.
  by rewrite <- !app_assoc.
Qed.

Lemma destroyServer_not_theirs ctx user serverId w :
  auth_user ctx = Some user →
  (∀ server, servers (db w) !! serverId = Some server → ServerDoc.userId server ≠ user) →
  faults w = [] →
  Servers.destroyServer ctx serverId w
  = (Ok tt, mkWorld (db w) (net w) [] (events w ++ [EvRunQuery (QGetServer serverId)])).
Proof.
  intros Hu Hs Hf.
  unfold Servers.destroyServer, try_catch, abind, Servers.internal_getServer, runQuery.
  erewrite platform_call_ok; [|done|by eapply getServer_not_theirs]. done.
Qed.

(** ** deployWordPress *)

Lemma getDeployment_owner ctx deploymentId st deployment :
  auth_user ctx = Some (DeploymentDoc.userId deployment) →
  deployments st !! deploymentId = Some deployment →
  Deployments.getDeployment ctx deploymentId st
  = Ok (Some (Deployments.view deploymentId deployment
                (servers st !! DeploymentDoc.serverId deployment)), st).
Proof.
  intros Hu Hd. unfold Deployments.getDeployment. autounfold with handlers. simpl.
  rewrite Hu. simpl. rewrite Hd. by rewrite decide_True.
Qed.

Lemma updateDeploymentStatus_owner ctx args st deployment :
  auth_user ctx = Some (DeploymentDoc.userId deployment) →
  deployments st !! UpdateDeploymentStatusArgs.deploymentId args = Some deployment →
  Deployments.updateDeploymentStatus ctx args st
  = Ok (tt, put_rows tbl_deployments
              (<[UpdateDeploymentStatusArgs.deploymentId args :=
                   Deployments.updates args deployment]> (deployments st)) st).
Proof.
  intros Hu Hd. unfold Deployments.updateDeploymentStatus.
  autounfold with handlers. simpl. rewrite Hu. simpl. rewrite Hd.
  rewrite decide_True by done. simpl. by rewrite Hd.
Qed.

Lemma deployWordPress_owner ctx deploymentId deployment w :
  auth_user ctx = Some (DeploymentDoc.userId deployment) →
  deployments (db w) !! deploymentId = Some deployment →
  faults w = [] →
  Deployments.deployWordPress ctx deploymentId w
  = (Ok tt,
     mkWorld (put_rows tbl_deployments
                (<[deploymentId := Deployments.updates (Deployments.running_args deploymentId)
                                     deployment]> (deployments (db w))) (db w))
             (net w) [] (events w ++ deploying_events deploymentId)).
Proof.
  intros Hu Hd Hf.
  unfold Deployments.deployWordPress, try_catch, abind, Deployments.internal_getDeployment,
    Deployments.internal_updateDeploymentStatus, runQuery, runMutation, sleep, emit,
    record_event.
  erewrite platform_call_ok; [|done|by apply getDeployment_owner]. simpl.
  erewrite platform_call_ok; [|done|by apply updateDeploymentStatus_owner]. simpl.
  by rewrite <- !app_assoc.
Qed.

(** ** Claims on the actions *)

(** C1, as the spec states it, fails: after provisioning takes its error
    branch the scheduler alone removes the record.  Here the platform fails
    the first write of the provisioning of Alice's server 1; the run marks
    the record [error] and queues [destroyServer], and the next scheduled
    run deletes the record.  The log shows internal calls only. *)
Lemma C1_counterexample :
  let w0 := mkWorld (history alice_creates_server) (fun _ => None)
                    [Some (Error "Hetzner API unreachable")] [] in
  let w1 := (run_scheduled alice w0).2 in
  let w2 := (run_scheduled alice w1).2 in
  server_status (db w0) 1 = Some ServerStatus.creating
  ∧ server_status (db w1) 1 = Some ServerStatus.error
  ∧ scheduled (db w1) = [mkJob 0 (JDestroyServer 1)]
  ∧ servers (db w2) !! 1 = None
  ∧ events w2 = [ EvRunMutation (MUpdateServerStatus (Servers.installing_args 1));
                  EvRunMutation (MUpdateServerStatus
                                   (Servers.error_args 1 (Error "Hetzner API unreachable")));
                  EvRunQuery (QGetServer 1);
                  EvRunMutation (MDeleteServerRecord 1) ].
Proof. vm_compute. repeat split; reflexivity. Qed.

(** C1, amended: when [provisionServer] takes its error branch and the write
    of [error] goes through, the record is kept, marked [error] with the
    message of the failure, and [destroyServer] is scheduled in the same
    run; that scheduled [destroyServer], run with the owner's identity or
    with none, removes the record without any call from the user. *)
Theorem C1_failed_provisioning_is_cleaned_up ctx serverId server error w w_try :
  auth_user ctx = Some (ServerDoc.userId server) →
  Servers.provisionServer_try ctx serverId w = (Throw error, w_try) →
  servers (db w_try) !! serverId = Some server →
  faults w_try = [] →
  ∃ w1,
    Servers.provisionServer ctx serverId w = (Ok tt, w1)
    ∧ servers (db w1) !! serverId
      = Some (Servers.updates (Servers.error_args serverId error) server)
    ∧ server_status (db w1) serverId = Some ServerStatus.error
    ∧ scheduled (db w1) = scheduled (db w_try) ++ [mkJob 0 (JDestroyServer serverId)]
    ∧ ∀ scheduler,
        auth_user scheduler = auth_user ctx ∨ auth_user scheduler = None →
        (Servers.destroyServer scheduler serverId w1).1 = Ok tt
        ∧ servers (db (Servers.destroyServer scheduler serverId w1).2) !! serverId = None.
Proof.
  intros Hu Htry Hs Hf.
  rewrite (provisionServer_error_branch _ _ server error w w_try) by done.
  eexists. split; [done|]. simpl. unfold server_status. simpl.
  rewrite lookup_insert_eq. split; [done|split; [done|split; [done|]]].
  intros scheduler [Hsch|Hsch].
  - rewrite (destroyServer_owner _ _
               (Servers.updates (Servers.error_args serverId error) server)); simpl;
      [ |by rewrite Hsch, Hu|apply lookup_insert_eq|done].
    simpl. split; [done|]. apply lookup_delete_eq.
  - rewrite (destroyServer_unauthenticated _ _
               (Servers.updates (Servers.error_args serverId error) server)); simpl;
      [ |done|apply lookup_insert_eq|done].
    simpl. split; [done|]. apply lookup_delete_eq.
Qed.

(** The theorem at Alice's server 1, when the platform fails the first write
    of its provisioning. *)
Lemma C1_witness :
  ∃ w1,
    Servers.provisionServer alice 1
      (mkWorld (history alice_creates_server) (fun _ => None)
               [Some (Error "Hetzner API unreachable")] [])
    = (Ok tt, w1)
    ∧ server_status (db w1) 1 = Some ServerStatus.error.
Proof.
  destruct (C1_failed_provisioning_is_cleaned_up alice 1
              (ServerDoc.mk "alice" "" "web-1" None ServerStatus.creating "fsn1" None false
                            (now alice) None)
              (Error "Hetzner API unreachable")
              (mkWorld (history alice_creates_server) (fun _ => None)
                       [Some (Error "Hetzner API unreachable")] [])
              (mkWorld (history alice_creates_server) (fun _ => None) []
                       [EvRunMutation (MUpdateServerStatus (Servers.installing_args 1))]))
    as (w1 & H1 & _ & H3 & _).
  - reflexivity.
  - vm_compute. reflexivity.
  - vm_compute. reflexivity.
  - reflexivity.
  - exists w1. split; assumption.
Defined.

Lemma statuses_written_app evs evs' :
  statuses_written (evs ++ evs') = statuses_written evs ++ statuses_written evs'.
Proof. apply omap_app. Qed.

Lemma provider_calls_app evs evs' :
  provider_calls (evs ++ evs') = provider_calls evs ++ provider_calls evs'.
Proof. apply omap_app. Qed.

(** ** What the code can leave of a ready server *)

Lemma wrote_snoc calls ctx m args :
  wrote (calls ++ [(ctx, m)]) args
  ↔ wrote calls args
    ∨ (m = MUpdateServerStatus args
       ∧ answer (Servers.updateServerStatus ctx args) (history calls) = Ok tt).
Proof.
  split.
  - intros (before & ctx' & later & Heq & Hok).
    destruct later as [|c later _] using rev_ind.
    + apply app_inj_tail in Heq as [<- [= <- <-]]. by right.
    + rewrite app_comm_cons, app_assoc in Heq. apply app_inj_tail in Heq as [-> _].
      left. by exists before, ctx', later.
  - intros [(before & ctx' & later & -> & Hok)|[-> Hok]].
    + exists before, ctx', (later ++ [(ctx, m)]). by rewrite <- app_assoc.
    + by exists calls, ctx, [].
Qed.

Lemma answer_updateServerStatus ctx args st :
  answer (Servers.updateServerStatus ctx args) st = Ok tt →
  ∃ server,
    auth_user ctx = Some (ServerDoc.userId server)
    ∧ servers st !! UpdateServerStatusArgs.serverId args = Some server
    ∧ servers (after st (ctx, MUpdateServerStatus args))
      = <[UpdateServerStatusArgs.serverId args := Servers.updates args server]> (servers st).
Proof.
  unfold answer. destruct (Servers.updateServerStatus ctx args st) as [[[] st']|e] eqn:E; [|done].
  intros _. destruct (updateServerStatus_inv _ _ _ _ E) as (server & Hu & Hs).
  exists server. split; [done|]. split; [done|].
  unfold after, commit, mutate. simpl.
  by rewrite (updateServerStatus_owner _ _ _ server).
Qed.

Lemma effect_nextId ctx st st' m : effect ctx st st' m → nextId st ≤ nextId st'.
Proof. intros []; lia. Qed.

Lemma provisioning_order_nil : provisioning_order [].
Proof.
  assert (∀ args, ¬ wrote [] args) as Hnone.
  { intros args (before & ctx & later & Heq & _). by destruct before. }
  split.
  - intros args H. by apply Hnone in H.
  - intros id server H. by apply Hnone in H.
  - intros id H. by apply Hnone in H.
  - intros id server. simpl. by rewrite lookup_empty.
Qed.
(** Where a server record of the store after a call comes from. *)
Lemma effect_server_at ctx st st' m serverId server :
  effect ctx st st' m →
  servers st' !! serverId = Some server →
  servers st !! serverId = Some server
  ∨ (serverId = nextId st ∧ ServerDoc.status server = ServerStatus.creating)
  ∨ (∃ args before,
       m = MUpdateServerStatus args
       ∧ serverId = UpdateServerStatusArgs.serverId args
       ∧ servers st !! serverId = Some before
       ∧ server = Servers.updates args before)
  ∨ (∃ before,
       servers st !! serverId = Some before
       ∧ server = ServerDoc.with_status ServerStatus.deleting before).
Proof.
  intros [name region user _ Es _ _|args before _ Hb Es _ _|id before _ Hb Es _ _|id Es _ _
         |? ? _ _ Es _ _|? ? _ _ Es _ _|? ? _ _ Es _ _|? Es _ _|? Es _ _];
    rewrite Es; try by left.
  - intros [[<- <-]|[_ ?]]%lookup_insert_Some; [right; left|left]; done.
  - intros [[<- <-]|[_ ?]]%lookup_insert_Some; [|by left].
    right; right; left. by exists args, before.
  - intros [[<- <-]|[_ ?]]%lookup_insert_Some; [|by left].
    right; right; right. by exists before.
  - intros [_ ?]%lookup_delete_Some. by left.
Qed.

Lemma provisioning_order_snoc calls ctx m :
  provisioning_order calls → next_call calls m → provisioning_order (calls ++ [(ctx, m)]).
Proof.
  intros [Hbelow Hinst Hconf Hready] Hnext.
  pose proof (after_effect ctx m (history calls)) as E. rewrite <- history_snoc in E.
  pose proof (servers_fresh _ (consistent_history calls)) as Hfresh.
  pose proof (effect_nextId _ _ _ _ E) as Hnext_id.
  assert (∀ args, wrote calls args → wrote (calls ++ [(ctx, m)]) args) as Hmono
    by (intros args ?; apply wrote_snoc; by left).
  split.
  - intros args [Hold|[-> Hok]]%wrote_snoc.
    + apply Hbelow in Hold. lia.
    + apply answer_updateServerStatus in Hok as (before & _ & Hb & _).
      apply Hfresh in Hb. lia.
  - intros serverId server [Hold|[-> Hok]]%wrote_snoc Hs.
    + destruct (effect_server_at _ _ _ _ _ _ E Hs)
        as [Hsame|[[-> _]|[(args & before & -> & -> & Hb & ->)|(before & Hb & ->)]]].
      * by apply (Hinst serverId).
      * apply Hbelow in Hold. simpl in Hold. lia.
      * destruct (Hinst _ _ Hold Hb) as [Hid Hip].
        destruct Hnext as (id & [->|[[-> _]|[[-> _]|[e ->]]]]); simpl; done.
      * by destruct (Hinst _ _ Hold Hb).
    + apply answer_updateServerStatus in Hok as (before & _ & Hb & Es).
      rewrite history_snoc, Es in Hs. simpl in Hs. rewrite lookup_insert_eq in Hs.
      by injection Hs as <-.
  - intros serverId [Hold|[-> _]]%wrote_snoc.
    + by apply Hmono, Hconf.
    + destruct Hnext as (id & [[=]|[[[= <-] ?]|[[[=] _]|[e [=]]]]]). by apply Hmono.
  - intros serverId server Hs Hstatus.
    destruct (effect_server_at _ _ _ _ _ _ E Hs)
      as [Hsame|[[_ Hc]|[(args & before & -> & -> & Hb & ->)|(before & Hb & ->)]]].
    + destruct (Hready _ _ Hsame Hstatus). split; [by apply Hmono|done].
    + congruence.
    + destruct Hnext as (id & [->|[[-> _]|[[-> ?]|[e ->]]]]); simpl in *; try done.
      split; [by apply Hmono|done].
    + done.
Qed.

Lemma provisioning_order_from_code calls : from_code calls → provisioning_order calls.
Proof.
  induction 1; [apply provisioning_order_nil|by apply provisioning_order_snoc].
Qed.

(** In a store the code has made, a [ready] record is as [provisionServer]
    leaves it. *)
Lemma ready_as_provisioned calls serverId server :
  from_code calls →
  servers (history calls) !! serverId = Some server →
  ServerDoc.status server = ServerStatus.ready →
  provisioned server = server.
Proof.
  intros [Hbelow Hinst Hconf Hready]%provisioning_order_from_code Hs Hstatus.
  destruct (Hready _ _ Hs Hstatus) as [Hc Hd].
  destruct (Hinst _ _ (Hconf _ Hc) Hs) as [Hid Hip].
  destruct server. simpl in *. unfold provisioned. simpl. congruence.
Qed.
Lemma alice_has_ready_server_from_code : from_code alice_has_ready_server.
Proof.
  assert (∀ calls (ctx : Ctx) m, from_code calls → next_call calls m →
            ∀ calls', calls' = calls ++ [(ctx, m)] → from_code calls') as Hsnoc
    by (intros calls ctx m ? ? ? ->; by constructor).
  set (installing := (alice, MUpdateServerStatus (Servers.installing_args 1))).
  set (configuring := (alice, MUpdateServerStatus (Servers.configuring_args 1))).
  apply (Hsnoc (alice_creates_server ++ [installing; configuring]) alice
               (MUpdateServerStatus (Servers.ready_args 1))); [ | |reflexivity].
  2: { exists 1. right; right; left. split; [reflexivity|].
       by exists (alice_creates_server ++ [installing]), alice, []. }
  apply (Hsnoc (alice_creates_server ++ [installing]) alice
               (MUpdateServerStatus (Servers.configuring_args 1))); [ | |reflexivity].
  2: { exists 1. right; left. split; [reflexivity|].
       by exists alice_creates_server, alice, []. }
  apply (Hsnoc alice_creates_server alice
               (MUpdateServerStatus (Servers.installing_args 1))); [ | |reflexivity].
  2: { exists 1. by left. }
  set (store := (alice, MStoreApiKeys
                          (StoreApiKeysArgs.mk (Some "hetzner-key-0001") None None))).
  set (validate := (alice, MUpdateValidationStatus true true)).
  apply (Hsnoc [store; validate] alice (MCreateServer "web-1" "fsn1"));
    [ |done|reflexivity].
  apply (Hsnoc [store] alice (MUpdateValidationStatus true true)); [ |done|reflexivity].
  apply (Hsnoc [] alice
               (MStoreApiKeys (StoreApiKeysArgs.mk (Some "hetzner-key-0001") None None)));
    [constructor|done|reflexivity].
Qed.

(** C3, as the spec states it, fails on a server the code has made
    [ready].  Alice's server 1 is created and provisioned; the job runs
    again, and the platform fails its first write.  The [catch] marks the
    ready server [error] and queues [destroyServer], which removes the
    record. *)
Lemma C3_counterexample :
  from_code alice_has_ready_server
  ∧ server_status (db (alice_ready_world [Some (Error "Transient error")])) 1
    = Some ServerStatus.ready
  ∧ (Servers.provisionServer alice 1 (alice_ready_world [Some (Error "Transient error")])).1
    = Ok tt
  ∧ servers (db (Servers.provisionServer alice 1
                   (alice_ready_world [Some (Error "Transient error")])).2) !! 1
    ≠ servers (db (alice_ready_world [Some (Error "Transient error")])) !! 1
  ∧ server_status (db (Servers.provisionServer alice 1
                         (alice_ready_world [Some (Error "Transient error")])).2) 1
    = Some ServerStatus.error
  ∧ last (scheduled (db (Servers.provisionServer alice 1
                           (alice_ready_world [Some (Error "Transient error")])).2))
    = Some (mkJob 0 (JDestroyServer 1))
  ∧ servers (db (Servers.destroyServer alice 1
                   (Servers.provisionServer alice 1
                      (alice_ready_world [Some (Error "Transient error")])).2).2) !! 1
    = None.
Proof.
  split; [apply alice_has_ready_server_from_code|].
  vm_compute. split; [reflexivity|]. split; [reflexivity|]. split; [discriminate|].
  repeat split; reflexivity.
Qed.

(** C3, amended: for a server record that is [ready] in a store the code
    has made, a run of [provisionServer] leaves the record unchanged when
    the platform fails none of its calls, and not otherwise.  With no
    failure the store at the end is the store at the start, whoever runs
    the job; the owner's run gets there by writing [installing],
    [configuring] and [ready] over the record.  When the platform fails one
    of these three writes of the owner's run, the run ends without error
    with the record marked [error], the message of the failure on it, and
    [destroyServer] queued for the server. *)
Theorem C3_reprovision_ready calls ctx serverId server w :
  from_code calls →
  db w = history calls →
  servers (db w) !! serverId = Some server →
  ServerDoc.status server = ServerStatus.ready →
  (faults w = [] → db (Servers.provisionServer ctx serverId w).2 = db w)
  ∧ (faults w = [] →
     auth_user ctx = Some (ServerDoc.userId server) →
     (Servers.provisionServer ctx serverId w).1 = Ok tt
     ∧ statuses_written (events (Servers.provisionServer ctx serverId w).2)
       = statuses_written (events w)
         ++ [ServerStatus.installing; ServerStatus.configuring; ServerStatus.ready])
  ∧ (∀ error,
       faults w ∈ [[Some error]; [None; Some error]; [None; None; Some error]] →
       auth_user ctx = Some (ServerDoc.userId server) →
       (Servers.provisionServer ctx serverId w).1 = Ok tt
       ∧ servers (db (Servers.provisionServer ctx serverId w).2) !! serverId
         = Some (Servers.updates (Servers.error_args serverId error) server)
       ∧ server_status (db (Servers.provisionServer ctx serverId w).2) serverId
         = Some ServerStatus.error
       ∧ scheduled (db (Servers.provisionServer ctx serverId w).2)
         = scheduled (db w) ++ [mkJob 0 (JDestroyServer serverId)]).
Proof.
  intros Hcode Hdb Hs Hready.
  assert (provisioned server = server) as Hsame
    by (rewrite Hdb in Hs; by eapply ready_as_provisioned).
  split; [|split].
  - intros Hf.
    destruct (Servers.updateServerStatus ctx (Servers.installing_args serverId) (db w))
      as [[[] st']|e1] eqn:E1.
    + apply updateServerStatus_inv in E1 as (server' & Hu & Hs'). simpl in Hs'.
      assert (server' = server) as -> by congruence.
      rewrite (provisionServer_owner _ _ server) by done. simpl.
      rewrite Hsame, insert_id by done. by destruct (db w).
    + eapply (error_branch_needs_platform_failure ctx serverId w e1); [done|].
      unfold Servers.provisionServer_try, Servers.internal_updateServerStatus,
        runMutation, abind.
      by rewrite (platform_call_throw _ _ _ e1).
  - intros Hf Hu. rewrite (provisionServer_owner _ _ server) by done. simpl.
    by rewrite statuses_written_app.
  - intros error Hf Hu.
    assert (Servers.updates (Servers.error_args serverId error)
              (Servers.updates (Servers.installing_args serverId) server)
            = Servers.updates (Servers.error_args serverId error) server
            ∧ Servers.updates (Servers.error_args serverId error)
                (Servers.updates (Servers.configuring_args serverId)
                   (Servers.updates (Servers.installing_args serverId) server))
              = Servers.updates (Servers.error_args serverId error) server) as [Hone Htwo].
    { destruct server. unfold provisioned in Hsame. simpl in Hsame.
      unfold Servers.updates. simpl. injection Hsame as ? ? ? ?. subst. by split. }
    assert (∀ st args before, servers st !! serverId = Some before →
              ServerDoc.userId before = ServerDoc.userId server →
              UpdateServerStatusArgs.serverId args = serverId →
              Servers.updateServerStatus ctx args st
              = Ok (tt, put_rows tbl_servers
                          (<[serverId := Servers.updates args before]> (servers st)) st))
      as Hwrite.
    { intros st args before Hst Hown <-. apply updateServerStatus_owner; [|done].
      by rewrite Hown. }
    unfold server_status.
    unfold Servers.provisionServer, try_catch, Servers.provisionServer_try,
      Servers.provisionServer_catch, Servers.internal_updateServerStatus, runMutation,
      abind, sleep, emit, record_event, schedule.
    set_unfold in Hf. destruct Hf as [Hf|[Hf|[Hf|[]]]].
    + rewrite (platform_call_fault _ _ _ error []) by done. simpl.
      unfold platform_call. simpl.
      rewrite (Hwrite _ _ server) by done. simpl.
      rewrite lookup_insert_eq. done.
    + unfold platform_call. rewrite Hf. simpl.
      rewrite (Hwrite _ _ server) by done. simpl.
      rewrite (Hwrite _ _ (Servers.updates (Servers.installing_args serverId) server));
        [|apply lookup_insert_eq|done|done].
      simpl. rewrite insert_insert_eq, lookup_insert_eq, Hone. done.
    + unfold platform_call. rewrite Hf. simpl.
      rewrite (Hwrite _ _ server) by done. simpl.
      rewrite (Hwrite _ _ (Servers.updates (Servers.installing_args serverId) server));
        [|apply lookup_insert_eq|done|done].
      simpl.
      rewrite (Hwrite _ _ (Servers.updates (Servers.configuring_args serverId)
                             (Servers.updates (Servers.installing_args serverId) server)));
        [|apply lookup_insert_eq|done|done].
      simpl. rewrite !insert_insert_eq, lookup_insert_eq, Htwo. done.
Qed.

(** The theorem at Alice's server 1, provisioned once already: run again
    with no failure, and run again with the second write failed. *)
Lemma C3_witness :
  db (Servers.provisionServer alice 1 (alice_ready_world [])).2 = db (alice_ready_world [])
  ∧ server_status
      (db (Servers.provisionServer alice 1 (alice_ready_world [None; Some NotAnError])).2) 1
    = Some ServerStatus.error.
Proof.
  split.
  - apply (C3_reprovision_ready alice_has_ready_server alice 1
             (ServerDoc.mk "alice" "placeholder-server-id" "web-1" (Some "192.168.1.100")
                           ServerStatus.ready "fsn1" None true (now alice) None)
             (alice_ready_world [])).
    + apply alice_has_ready_server_from_code.
    + reflexivity.
    + vm_compute. reflexivity.
    + reflexivity.
    + reflexivity.
  - destruct (C3_reprovision_ready alice_has_ready_server alice 1
                (ServerDoc.mk "alice" "placeholder-server-id" "web-1" (Some "192.168.1.100")
                              ServerStatus.ready "fsn1" None true (now alice) None)
                (alice_ready_world [None; Some NotAnError]))
      as (_ & _ & Hfailed).
    + apply alice_has_ready_server_from_code.
    + reflexivity.
    + vm_compute. reflexivity.
    + reflexivity.
    + destruct (Hfailed NotAnError) as (_ & _ & Hstatus & _).
      * right. left.
      * reflexivity.
      * exact Hstatus.
Defined.

(** C6, as the spec states it, fails: the record being there is not enough.
    Called without an identity on Alice's freshly created server, the action
    throws and the record stays [creating]. *)
Lemma C6_counterexample :
  let w := quiet_world (history alice_creates_server) in
  server_status (db w) 1 = Some ServerStatus.creating
  ∧ (Servers.provisionServer anonymous 1 w).1 = Throw (Error "Not authenticated")
  ∧ server_status (db (Servers.provisionServer anonymous 1 w).2) 1
    = Some ServerStatus.creating.
Proof. vm_compute. repeat split; reflexivity. Qed.

(** C6, amended: for every invocation that carries the identity of the
    record's owner and meets no failure of the platform, [provisionServer]
    writes [installing], sleeps 1000 ms, writes [configuring] and [ready];
    [deployWordPress] reads the record, sleeps 2000 ms and writes [running].
    Each call is made once, in this order, and no request goes to a
    provider. *)
Theorem C6_placeholder_actions ctx user w :
  auth_user ctx = Some user →
  faults w = [] →
  (∀ serverId server,
     servers (db w) !! serverId = Some server →
     ServerDoc.userId server = user →
     (Servers.provisionServer ctx serverId w).1 = Ok tt
     ∧ server_status (db (Servers.provisionServer ctx serverId w).2) serverId
       = Some ServerStatus.ready
     ∧ events (Servers.provisionServer ctx serverId w).2
       = events w ++ provisioning_events serverId
     ∧ provider_calls (events (Servers.provisionServer ctx serverId w).2)
       = provider_calls (events w))
  ∧ (∀ deploymentId deployment,
       deployments (db w) !! deploymentId = Some deployment →
       DeploymentDoc.userId deployment = user →
       (Deployments.deployWordPress ctx deploymentId w).1 = Ok tt
       ∧ deployment_status (db (Deployments.deployWordPress ctx deploymentId w).2)
                           deploymentId
         = Some DeploymentStatus.running
       ∧ events (Deployments.deployWordPress ctx deploymentId w).2
         = events w ++ deploying_events deploymentId
       ∧ provider_calls (events (Deployments.deployWordPress ctx deploymentId w).2)
         = provider_calls (events w)).
Proof.
  intros Hu Hf. split.
  - intros serverId server Hs <-.
    rewrite (provisionServer_owner _ _ server) by done. simpl.
    unfold server_status. simpl. rewrite lookup_insert_eq.
    repeat split; try done. rewrite provider_calls_app. simpl. apply app_nil_r.
  - intros deploymentId deployment Hd <-.
    rewrite (deployWordPress_owner _ _ deployment) by done. simpl.
    unfold deployment_status. simpl. rewrite lookup_insert_eq.
    repeat split; try done. rewrite provider_calls_app. simpl. apply app_nil_r.
Qed.

(** The theorem at Alice's server 1 and at her site on it, document 2. *)
Lemma C6_witness :
  server_status
    (db (Servers.provisionServer alice 1 (quiet_world (history alice_deploys_site))).2) 1
  = Some ServerStatus.ready
  ∧ deployment_status
      (db (Deployments.deployWordPress alice 2 (quiet_world (history alice_deploys_site))).2) 2
    = Some DeploymentStatus.running.
Proof.
  destruct (C6_placeholder_actions alice "alice" (quiet_world (history alice_deploys_site)))
    as [Hserver Hdeployment]; [reflexivity|reflexivity|].
  split.
  - eapply Hserver; [vm_compute; reflexivity|reflexivity].
  - eapply Hdeployment; [vm_compute; reflexivity|reflexivity].
Defined.

(** C8, as the spec states it, fails: a record that is not the caller's can
    still be deleted.  Run without an identity on Alice's server, the query
    throws, the [catch] logs the error and deletes the record. *)
Lemma C8_counterexample :
  let w := quiet_world (history alice_creates_server) in
  (ServerDoc.userId <$> servers (db w) !! 1) = Some "alice"
  ∧ auth_user anonymous = None
  ∧ (Servers.destroyServer anonymous 1 w).1 = Ok tt
  ∧ servers (db (Servers.destroyServer anonymous 1 w).2) !! 1 = None.
Proof. vm_compute. repeat split; reflexivity. Qed.

(** Without an identity and without a record, the [catch] itself throws:
    the record it tries to delete is not there. *)
Lemma destroyServer_unauthenticated_missing :
  (Servers.destroyServer anonymous 7 (quiet_world empty_store)).1
  = Throw (Error "Delete on nonexistent document ID").
Proof. reflexivity. Qed.

(** C8, amended: for every deletion attempt by an authenticated caller on a
    server id whose record is not found or not owned by that caller, and
    with no failure of the platform, [destroyServer] returns without error
    and leaves the store as it was; all it does is the one read. *)
Theorem C8_destroyServer_not_found ctx user serverId w :
  auth_user ctx = Some user →
  (∀ server, servers (db w) !! serverId = Some server → ServerDoc.userId server ≠ user) →
  faults w = [] →
  Servers.destroyServer ctx serverId w
  = (Ok tt, mkWorld (db w) (net w) [] (events w ++ [EvRunQuery (QGetServer serverId)])).
Proof. apply destroyServer_not_theirs. Qed.

(** The theorem at Bob asking for Alice's server 1, and for a server 7 that
    does not exist. *)
Lemma C8_witness :
  Servers.destroyServer bob 1 (quiet_world (history alice_creates_server))
  = (Ok tt, mkWorld (history alice_creates_server) (fun _ => None) []
                    [EvRunQuery (QGetServer 1)])
  ∧ Servers.destroyServer bob 7 (quiet_world (history alice_creates_server))
    = (Ok tt, mkWorld (history alice_creates_server) (fun _ => None) []
                      [EvRunQuery (QGetServer 7)]).
Proof.
  split.
  - apply (C8_destroyServer_not_found bob "bob" 1
             (quiet_world (history alice_creates_server))).
    + reflexivity.
    + vm_compute. intros server [= <-]. discriminate.
    + reflexivity.
  - apply (C8_destroyServer_not_found bob "bob" 7
             (quiet_world (history alice_creates_server))).
    + reflexivity.
    + vm_compute. discriminate.
    + reflexivity.
Defined.

(** ** Validation of API keys *)

(** Neither version of [validateApiKeys] writes to the store. *)
Lemma validateApiKeys_persists_nothing ctx args w :
  db (ApiKeys.validateApiKeys ctx args w).2 = db w
  ∧ db (ApiKeysPlaceholder.validateApiKeys ctx args w).2 = db w.
Proof.
  split; [|done].
  unfold ApiKeys.validateApiKeys, ApiKeys.check, try_catch, abind, fetch, console_error,
    emit, aret, record_event.
  repeat (simpl; match goal with
                 | |- context [if ?b then _ else _] => destruct b
                 | |- context [match net ?w ?r with _ => _ end] => destruct (net w r)
                 end); done.
Qed.

(** In the version that calls the providers, the Hetzner verdict is the
    answer to one [GET] on the locations endpoint. *)
Lemma validateApiKeys_hetzner_verdict ctx key w :
  truthy (Some key) = true →
  let args := ValidateApiKeysArgs.mk (Some key) None None in
  let verdict := match net w (ApiKeys.hetznerRequest key) with
                 | Some response => Response.ok response
                 | None => false
                 end in
  ∃ errors,
    (ApiKeys.validateApiKeys ctx args w).1 = Ok (ValidationResult.mk verdict false errors)
    ∧ provider_calls (events (ApiKeys.validateApiKeys ctx args w).2)
      = provider_calls (events w) ++ [ApiKeys.hetznerRequest key].
Proof.
  intros Hkey. destruct key as [|c key]; [done|].
  set (k := String c key). simpl.
  unfold ApiKeys.validateApiKeys, ApiKeys.check, try_catch, abind, fetch, console_error,
    emit, aret, record_event. simpl. fold k.
  destruct (net w (ApiKeys.hetznerRequest k)) as [[ok status]|]; simpl.
  - destruct ok; simpl; [|destruct (status =? 401)]; simpl;
      eexists; (split; [done|]); by rewrite provider_calls_app.
  - eexists. split; [done|]. rewrite !provider_calls_app. simpl. by rewrite app_nil_r.
Qed.

(** The placeholder version leaves the whole world as it was: it asks no
    provider. *)
Lemma placeholder_asks_nobody ctx args w :
  (ApiKeysPlaceholder.validateApiKeys ctx args w).2 = w.
Proof. done. Qed.

(** C7 holds for the version of [validateApiKeys] that calls the providers
    and fails for the one in packages/backend/convex/apiKeys.ts: there a key
    of more than ten characters is reported valid whatever the provider
    would answer, and no request is made.  The same key is rejected by the
    other version when Hetzner answers 401. *)
Theorem C7_placeholder_verdict_without_provider ctx w :
  let args := ValidateApiKeysArgs.mk (Some "not-a-real-key") None None in
  let rejecting := mkWorld (db w) (fun _ => Some (Response.mk false 401)) (faults w) (events w) in
  ApiKeysPlaceholder.validateApiKeys ctx args rejecting
  = (Ok (ValidationResult.mk true false []), rejecting)
  ∧ (ApiKeys.validateApiKeys ctx args rejecting).1
    = Ok (ValidationResult.mk false false
            ["Invalid Hetzner API key - authentication failed"])
  ∧ provider_calls (events (ApiKeys.validateApiKeys ctx args rejecting).2)
    = provider_calls (events w) ++ [ApiKeys.hetznerRequest "not-a-real-key"].
Proof.
  simpl. split; [done|]. split; [done|].
  unfold ApiKeys.validateApiKeys, ApiKeys.check, try_catch, abind, fetch, aret,
    record_event. simpl. by rewrite provider_calls_app.
Qed.

(** ** createServer without a valid credential *)

Lemma filter_user_singleton {D} (owner : D → string) (m : gmap nat D) user kid k :
  m !! kid = Some k → owner k = user →
  (∀ kid' k', m !! kid' = Some k' → owner k' = user → kid' = kid) →
  filter (λ kd : nat * D, owner kd.2 = user) m = {[kid := k]}.
Proof.
  intros Hk Hu Huniq. apply map_eq. intros i.
  destruct (decide (i = kid)) as [->|Hne].
  - rewrite lookup_singleton_eq. apply map_lookup_filter_Some. done.
  - rewrite lookup_singleton_ne by done. apply map_lookup_filter_None.
    destruct (m !! i) as [k'|] eqn:Hi; [right|by left].
    intros x Hx Hown. simplify_eq. simpl in Hown. eauto.
Qed.

Lemma unique_stored st user kid k :
  stored_credential st user kid k →
  unique tbl_apiKeys (λ d, ApiKeysDoc.userId d = user) st = Ok (Some (kid, k), st).
Proof.
  intros (Hk & Hu & Huniq). unfold unique, collect, bind. simpl.
  rewrite (filter_user_singleton ApiKeysDoc.userId _ user kid k) by done.
  by rewrite map_to_list_singleton.
Qed.

Lemma createServer_refuses ctx user kid k name region st :
  auth_user ctx = Some user →
  stored_credential st user kid k →
  ApiKeysDoc.isHetznerValid k = false →
  Servers.createServer ctx name region st = Throw (Error "Valid Hetzner API key required").
Proof.
  intros Hu Hk Hv. unfold Servers.createServer, requireUser, getAuthUser. rewrite Hu.
  unfold bind at 1. simpl. unfold bind at 1. rewrite (unique_stored _ _ _ _ Hk). simpl.
  by rewrite Hv.
Qed.

Lemma stored_credential_history calls user kid k :
  apiKeys (history calls) !! kid = Some k →
  ApiKeysDoc.userId k = user →
  stored_credential (history calls) user kid k.
Proof.
  intros Hk Hu. split; [done|split; [done|]]. intros kid' k' Hk' Hu'.
  eapply (credentials_unique _ (one_credential_history calls)); [done..|congruence].
Qed.

(** C4: in every reachable store, a create-server request of a user whose
    stored credential is not marked valid throws "Valid Hetzner API key
    required" before anything is written.  The transaction leaves the store
    as it was: the credential is still marked invalid, no server record
    exists that was not there, and nothing is scheduled, so nothing proceeds
    to provisioning.  A handler has no access to the network, so no provider
    is called. *)
Theorem C4_createServer_invalid_credential calls ctx user kid k name region :
  auth_user ctx = Some user →
  apiKeys (history calls) !! kid = Some k →
  ApiKeysDoc.userId k = user →
  ApiKeysDoc.isHetznerValid k = false →
  Servers.createServer ctx name region (history calls)
  = Throw (Error "Valid Hetzner API key required")
  ∧ after (history calls) (ctx, MCreateServer name region) = history calls
  ∧ (ApiKeysDoc.isHetznerValid
       <$> apiKeys (after (history calls) (ctx, MCreateServer name region)) !! kid)
    = Some false
  ∧ servers (after (history calls) (ctx, MCreateServer name region))
    = servers (history calls)
  ∧ scheduled (after (history calls) (ctx, MCreateServer name region))
    = scheduled (history calls).
Proof.
  intros Hu Hk Ho Hv.
  pose proof (createServer_refuses ctx user kid k name region (history calls) Hu
                (stored_credential_history _ _ _ _ Hk Ho) Hv) as E.
  unfold after, commit, mutate, void, bind. simpl. rewrite E.
  split_and!; try done. rewrite Hk. simpl. by rewrite Hv.
Qed.

(** The theorem at Alice right after she stored a key that nobody has
    validated yet. *)
Lemma C4_witness :
  Servers.createServer alice "web-1" "fsn1"
    (history [(alice, MStoreApiKeys (StoreApiKeysArgs.mk (Some "hetzner-key-0001") None None))])
  = Throw (Error "Valid Hetzner API key required").
Proof.
  apply (C4_createServer_invalid_credential
           [(alice, MStoreApiKeys (StoreApiKeysArgs.mk (Some "hetzner-key-0001") None None))]
           alice "alice" 0
           (ApiKeysDoc.mk "alice" (Some "hetzner-key-0001") None None false false None)).
  - reflexivity.
  - vm_compute. reflexivity.
  - reflexivity.
  - reflexivity.
Defined.

(** A user with no stored credential at all is turned away the same way. *)
Lemma createServer_no_credential ctx user name region st :
  auth_user ctx = Some user →
  (∀ kid k, apiKeys st !! kid = Some k → ApiKeysDoc.userId k ≠ user) →
  Servers.createServer ctx name region st = Throw (Error "Valid Hetzner API key required").
Proof.
  intros Hu Hnone. unfold Servers.createServer, requireUser, getAuthUser. rewrite Hu.
  unfold bind at 1. simpl. unfold bind at 1, unique, collect, bind. simpl.
  replace (filter (λ kd : nat * ApiKeysDoc.t, ApiKeysDoc.userId kd.2 = user) (apiKeys st))
    with (∅ : gmap nat ApiKeysDoc.t).
  - by rewrite map_to_list_empty.
  - symmetry. apply map_eq. intros i. rewrite lookup_empty.
    apply map_lookup_filter_None. destruct (apiKeys st !! i) eqn:E; [right|by left].
    intros x [= <-]. simpl. eauto.
Qed.

(** ** deleteDeploymentRecord *)

Lemma deleteDeployment_unauthenticated ctx deploymentId st :
  auth_user ctx = None →
  Deployments.deleteDeployment ctx deploymentId st = Throw (Error "Not authenticated").
Proof.
  intros Hu. unfold Deployments.deleteDeployment. autounfold with handlers. by rewrite Hu.
Qed.

Lemma deleteDeployment_not_theirs ctx user deploymentId st :
  auth_user ctx = Some user →
  (∀ d, deployments st !! deploymentId = Some d → DeploymentDoc.userId d ≠ user) →
  Deployments.deleteDeployment ctx deploymentId st
  = Throw (Error "Deployment not found or access denied").
Proof.
  intros Hu Hd. unfold Deployments.deleteDeployment. autounfold with handlers. simpl.
  rewrite Hu. simpl. destruct (deployments st !! deploymentId) as [d|] eqn:E; [|done].
  rewrite decide_False; [done|]. by apply Hd.
Qed.

(** The public mutations on servers, deployments and credentials all turn
    away a caller without identity, [deleteDeploymentRecord] apart; the two
    public mutations of logging.ts accept such a caller by design. *)
Lemma guarded_public_mutations ctx m st :
  auth_user ctx = None →
  visibility m = Public →
  match m with
  | MDeleteDeploymentRecord _ | MLogSystemEvent _ | MRecordHealthCheck _ => True
  | _ => answer (mutate ctx m) st = Throw (Error "Not authenticated")
  end.
Proof.
  intros Hu Hpublic.
  destruct m; try done; unfold answer, mutate, void, Servers.createServer,
    Servers.deleteServer, Deployments.createDeployment, Deployments.updateDeploymentStatus,
    Deployments.deleteDeployment, ApiKeys.storeApiKeys, ApiKeys.updateValidationStatus,
    ApiKeys.deleteApiKeys;
    autounfold with handlers; by rewrite Hu.
Qed.

(** C9: [deleteDeploymentRecord] is exported with [mutation], and it looks
    at neither the caller nor the owner: whoever calls it, a record that is
    there is deleted, and no call ends in "Not authenticated" or in
    "Deployment not found or access denied".  [deleteDeployment], next to it,
    raises both; [deleteServerRecord] does the same unguarded delete but is
    exported with [internalMutation]. *)
Theorem C9_deleteDeploymentRecord_unguarded ctx deploymentId st :
  visibility (MDeleteDeploymentRecord deploymentId) = Public
  ∧ visibility (MDeleteServerRecord deploymentId) = Internal
  ∧ (∀ deployment,
       deployments st !! deploymentId = Some deployment →
       Deployments.deleteDeploymentRecord ctx deploymentId st
       = Ok (tt, put_rows tbl_deployments (delete deploymentId (deployments st)) st))
  ∧ deployments (after st (ctx, MDeleteDeploymentRecord deploymentId)) !! deploymentId = None
  ∧ Deployments.deleteDeploymentRecord ctx deploymentId st ≠ Throw (Error "Not authenticated")
  ∧ Deployments.deleteDeploymentRecord ctx deploymentId st
    ≠ Throw (Error "Deployment not found or access denied")
  ∧ (auth_user ctx = None →
     Deployments.deleteDeployment ctx deploymentId st = Throw (Error "Not authenticated"))
  ∧ (∀ user deployment,
       auth_user ctx = Some user →
       deployments st !! deploymentId = Some deployment →
       DeploymentDoc.userId deployment ≠ user →
       Deployments.deleteDeployment ctx deploymentId st
       = Throw (Error "Deployment not found or access denied")).
Proof.
  split; [done|]. split; [done|].
  unfold after, commit, mutate, Deployments.deleteDeploymentRecord, db_delete. simpl.
  destruct (deployments st !! deploymentId) as [d|] eqn:E; simpl;
    rewrite ?lookup_delete_eq; split_and!; try done;
    try apply deleteDeployment_unauthenticated.
  intros user d' Hu [= <-] Hne. eapply deleteDeployment_not_theirs; [done|].
  intros d'' Hd''. by simplify_eq.
Qed.

(** ** Who changes a status, and to what *)

Lemma effect_server_change ctx st st' m serverId server s' :
  consistent st →
  effect ctx st st' m →
  servers st !! serverId = Some server →
  server_status st' serverId = Some s' →
  s' ≠ ServerDoc.status server →
  auth_user ctx = Some (ServerDoc.userId server)
  ∧ ((∃ args, m = MUpdateServerStatus args
              ∧ UpdateServerStatusArgs.serverId args = serverId
              ∧ s' = UpdateServerStatusArgs.status args)
     ∨ (m = MDeleteServer serverId ∧ s' = ServerStatus.deleting)).
Proof.
  intros [Hfresh _ _ _] E Hs Hs' Hne. unfold server_status in Hs'.
  inversion E as [? ? ? ? Es Ed En|? ? ? ? Es Ed En|? ? ? ? Es Ed En|? Es Ed En
                 |? ? ? ? Es Ed En|? ? ? ? Es Ed En|? ? ? ? Es Ed En|? Es Ed En
                 |? Es Ed En]; subst; rewrite Es in Hs';
    try (rewrite Hs in Hs'; simpl in Hs'; by simplify_eq).
  - (* createServer inserts at a fresh id *)
    rewrite lookup_insert_ne in Hs'; [rewrite Hs in Hs'; simpl in Hs'; by simplify_eq|].
    apply Hfresh in Hs. lia.
  - (* updateServerStatus *)
    destruct (decide (UpdateServerStatusArgs.serverId args = serverId)) as [<-|?].
    + rewrite lookup_insert_eq in Hs'. simplify_eq/=. split; [done|]. left. eauto.
    + rewrite lookup_insert_ne in Hs' by done. rewrite Hs in Hs'. simpl in Hs'.
      by simplify_eq.
  - (* deleteServer *)
    match goal with H : servers st !! ?i = Some _ |- _ =>
      destruct (decide (i = serverId)) as [<-|?] end.
    + rewrite lookup_insert_eq in Hs'. simplify_eq/=. split; [done|]. by right.
    + rewrite lookup_insert_ne in Hs' by done. rewrite Hs in Hs'. simpl in Hs'.
      by simplify_eq.
  - (* deleteServerRecord *)
    match goal with H : context [delete ?i _] |- _ =>
      destruct (decide (i = serverId)) as [<-|?] end.
    + by rewrite lookup_delete_eq in Hs'.
    + rewrite lookup_delete_ne in Hs' by done. rewrite Hs in Hs'. simpl in Hs'.
      by simplify_eq.
Qed.

Lemma effect_deployment_change ctx st st' m deploymentId deployment s' :
  consistent st →
  effect ctx st st' m →
  deployments st !! deploymentId = Some deployment →
  deployment_status st' deploymentId = Some s' →
  s' ≠ DeploymentDoc.status deployment →
  auth_user ctx = Some (DeploymentDoc.userId deployment)
  ∧ ((∃ args, m = MUpdateDeploymentStatus args
              ∧ UpdateDeploymentStatusArgs.deploymentId args = deploymentId
              ∧ s' = UpdateDeploymentStatusArgs.status args)
     ∨ (m = MDeleteDeployment deploymentId ∧ s' = DeploymentStatus.stopped)).
Proof.
  intros [_ Hfresh _ _] E Hd Hd' Hne. unfold deployment_status in Hd'.
  inversion E as [? ? ? ? Es Ed En|? ? ? ? Es Ed En|? ? ? ? Es Ed En|? Es Ed En
                 |? ? ? ? Es Ed En|? ? ? ? Es Ed En|? ? ? ? Es Ed En|? Es Ed En
                 |? Es Ed En]; subst; rewrite Ed in Hd';
    try (rewrite Hd in Hd'; simpl in Hd'; by simplify_eq).
  - rewrite lookup_insert_ne in Hd'; [rewrite Hd in Hd'; simpl in Hd'; by simplify_eq|].
    apply Hfresh in Hd. lia.
  - destruct (decide (UpdateDeploymentStatusArgs.deploymentId args = deploymentId))
      as [<-|?].
    + rewrite lookup_insert_eq in Hd'. simplify_eq/=. split; [done|]. left. eauto.
    + rewrite lookup_insert_ne in Hd' by done. rewrite Hd in Hd'. simpl in Hd'.
      by simplify_eq.
  - match goal with H : deployments st !! ?i = Some _ |- _ =>
      destruct (decide (i = deploymentId)) as [<-|?] end.
    + rewrite lookup_insert_eq in Hd'. simplify_eq/=. split; [done|]. by right.
    + rewrite lookup_insert_ne in Hd' by done. rewrite Hd in Hd'. simpl in Hd'.
      by simplify_eq.
  - match goal with H : context [delete ?i _] |- _ =>
      destruct (decide (i = deploymentId)) as [<-|?] end.
    + by rewrite lookup_delete_eq in Hd'.
    + rewrite lookup_delete_ne in Hd' by done. rewrite Hd in Hd'. simpl in Hd'.
      by simplify_eq.
Qed.

Lemma effect_server_new ctx st st' m serverId s' :
  effect ctx st st' m →
  servers st !! serverId = None →
  server_status st' serverId = Some s' →
  s' = ServerStatus.creating ∧ ∃ name region, m = MCreateServer name region.
Proof.
  intros E Hs Hs'. unfold server_status in Hs'.
  inversion E as [? ? ? ? Es Ed En|? ? ? ? Es Ed En|? ? ? ? Es Ed En|? Es Ed En
                 |? ? ? ? Es Ed En|? ? ? ? Es Ed En|? ? ? ? Es Ed En|? Es Ed En
                 |? Es Ed En]; subst; rewrite Es in Hs';
    try (rewrite Hs in Hs'; by simplify_eq).
  - destruct (decide (nextId st = serverId)) as [<-|?].
    + rewrite lookup_insert_eq in Hs'. simplify_eq/=. eauto.
    + rewrite lookup_insert_ne in Hs' by done. rewrite Hs in Hs'. by simplify_eq.
  - destruct (decide (UpdateServerStatusArgs.serverId args = serverId)) as [<-|?];
      [congruence|].
    rewrite lookup_insert_ne in Hs' by done. rewrite Hs in Hs'. by simplify_eq.
  - match goal with H : servers st !! ?i = Some _ |- _ =>
      destruct (decide (i = serverId)) as [<-|?]; [congruence|] end.
    rewrite lookup_insert_ne in Hs' by done. rewrite Hs in Hs'. by simplify_eq.
  - match goal with H : context [delete ?i _] |- _ =>
      destruct (decide (i = serverId)) as [<-|?] end.
    + by rewrite lookup_delete_eq in Hs'.
    + rewrite lookup_delete_ne in Hs' by done. rewrite Hs in Hs'. by simplify_eq.
Qed.

Lemma effect_deployment_new ctx st st' m deploymentId s' :
  effect ctx st st' m →
  deployments st !! deploymentId = None →
  deployment_status st' deploymentId = Some s' →
  s' = DeploymentStatus.deploying ∧ ∃ args, m = MCreateDeployment args.
Proof.
  intros E Hd Hd'. unfold deployment_status in Hd'.
  inversion E as [? ? ? ? Es Ed En|? ? ? ? Es Ed En|? ? ? ? Es Ed En|? Es Ed En
                 |? ? ? ? Es Ed En|? ? ? ? Es Ed En|? ? ? ? Es Ed En|? Es Ed En
                 |? Es Ed En]; subst; rewrite Ed in Hd';
    try (rewrite Hd in Hd'; by simplify_eq).
  - destruct (decide (nextId st = deploymentId)) as [<-|?].
    + rewrite lookup_insert_eq in Hd'. simplify_eq/=. eauto.
    + rewrite lookup_insert_ne in Hd' by done. rewrite Hd in Hd'. by simplify_eq.
  - destruct (decide (UpdateDeploymentStatusArgs.deploymentId args = deploymentId))
      as [<-|?]; [congruence|].
    rewrite lookup_insert_ne in Hd' by done. rewrite Hd in Hd'. by simplify_eq.
  - match goal with H : deployments st !! ?i = Some _ |- _ =>
      destruct (decide (i = deploymentId)) as [<-|?]; [congruence|] end.
    rewrite lookup_insert_ne in Hd' by done. rewrite Hd in Hd'. by simplify_eq.
  - match goal with H : context [delete ?i _] |- _ =>
      destruct (decide (i = deploymentId)) as [<-|?] end.
    + by rewrite lookup_delete_eq in Hd'.
    + rewrite lookup_delete_ne in Hd' by done. rewrite Hd in Hd'. by simplify_eq.
Qed.

Lemma deleteServer_owner ctx serverId st server :
  auth_user ctx = Some (ServerDoc.userId server) →
  servers st !! serverId = Some server →
  Servers.deleteServer ctx serverId st
  = Ok (tt, enqueue (mkJob 0 (JDestroyServer serverId))
              (put_rows tbl_servers
                 (<[serverId := ServerDoc.with_status ServerStatus.deleting server]>
                    (servers st)) st)).
Proof.
  intros Hu Hs. unfold Servers.deleteServer. autounfold with handlers. simpl.
  rewrite Hu. simpl. rewrite Hs. rewrite decide_True by done. simpl. by rewrite Hs.
Qed.

(** C2, as the spec states it, fails: public mutations write [status]
    themselves.  On Alice's ready server the public [deleteServer] sets
    [deleting]; on her deployment the public [deleteDeployment] sets
    [stopped]. *)
Lemma C2_counterexample :
  let st := history alice_deploys_site in
  visibility (MDeleteServer 1) = Public
  ∧ server_status st 1 = Some ServerStatus.ready
  ∧ server_status (after st (alice, MDeleteServer 1)) 1 = Some ServerStatus.deleting
  ∧ visibility (MDeleteDeployment 2) = Public
  ∧ deployment_status st 2 = Some DeploymentStatus.deploying
  ∧ deployment_status (after st (alice, MDeleteDeployment 2)) 2
    = Some DeploymentStatus.stopped.
Proof. vm_compute. repeat split; reflexivity. Qed.

(** C2, amended: in every reachable store a record gets its first status
    from the public [createServer] ([creating]) or [createDeployment]
    ([deploying]).  The status of an existing server record is changed only
    by the internal [updateServerStatus] and by the public [deleteServer],
    and the status of an existing deployment record only by
    [updateDeploymentStatus] and by the public [deleteDeployment]; each of
    them writes only for the authenticated owner of the record.  No other
    mutation writes a status. *)
Theorem C2_status_writers calls ctx m :
  (∀ serverId s',
     servers (history calls) !! serverId = None →
     server_status (after (history calls) (ctx, m)) serverId = Some s' →
     s' = ServerStatus.creating
     ∧ visibility m = Public ∧ ∃ name region, m = MCreateServer name region)
  ∧ (∀ deploymentId s',
       deployments (history calls) !! deploymentId = None →
       deployment_status (after (history calls) (ctx, m)) deploymentId = Some s' →
       s' = DeploymentStatus.deploying
       ∧ visibility m = Public ∧ ∃ args, m = MCreateDeployment args)
  ∧ (∀ serverId server s',
       servers (history calls) !! serverId = Some server →
       server_status (after (history calls) (ctx, m)) serverId = Some s' →
       s' ≠ ServerDoc.status server →
       auth_user ctx = Some (ServerDoc.userId server)
       ∧ ((∃ args, m = MUpdateServerStatus args ∧ visibility m = Internal)
          ∨ (m = MDeleteServer serverId ∧ visibility m = Public)))
  ∧ (∀ deploymentId deployment s',
       deployments (history calls) !! deploymentId = Some deployment →
       deployment_status (after (history calls) (ctx, m)) deploymentId = Some s' →
       s' ≠ DeploymentDoc.status deployment →
       auth_user ctx = Some (DeploymentDoc.userId deployment)
       ∧ ((∃ args, m = MUpdateDeploymentStatus args)
          ∨ (m = MDeleteDeployment deploymentId ∧ visibility m = Public))).
Proof.
  pose proof (consistent_history calls) as Hc.
  pose proof (after_effect ctx m (history calls)) as E.
  split_and!.
  - intros serverId s' Hs Hs'.
    destruct (effect_server_new _ _ _ _ _ _ E Hs Hs') as (-> & name & region & ->).
    eauto.
  - intros deploymentId s' Hd Hd'.
    destruct (effect_deployment_new _ _ _ _ _ _ E Hd Hd') as (-> & args & ->).
    eauto.
  - intros serverId server s' Hs Hs' Hne.
    destruct (effect_server_change _ _ _ _ _ _ _ Hc E Hs Hs' Hne)
      as [Hu [(args & -> & _ & _)|[-> _]]]; split; eauto.
  - intros deploymentId deployment s' Hd Hd' Hne.
    destruct (effect_deployment_change _ _ _ _ _ _ _ Hc E Hd Hd' Hne)
      as [Hu [(args & -> & _ & _)|[-> _]]]; split; eauto.
Qed.

(** C5, as the spec states it, fails: [deleteServer] does not wait for
    [ready].  Alice deletes the server she has just created, and its status
    goes from [creating] to [deleting], which is no step of the lifecycle. *)
Lemma C5_counterexample :
  let st := history alice_creates_server in
  server_status st 1 = Some ServerStatus.creating
  ∧ server_status (after st (alice, MDeleteServer 1)) 1 = Some ServerStatus.deleting
  ∧ Lifecycle.allowed ServerStatus.creating ServerStatus.deleting = false.
Proof. vm_compute. repeat split; reflexivity. Qed.

(** C5, amended: a status is one of the six of the schema.  In every
    reachable store a record appears with status [creating], by
    [createServer]; afterwards its status changes only by the write of
    [updateServerStatus], to the status passed, and by [deleteServer], to
    [deleting].  Neither looks at the current status: the owner's
    [deleteServer] writes [deleting] and [updateServerStatus] writes its
    argument from any status, and [deleteServerRecord] removes the record
    from any status.  The statuses [provisionServer] passes are
    [installing], [configuring], [ready], in this order, and [error] from
    its error branch. *)
Theorem C5_server_status_transitions calls ctx m serverId :
  (∀ s', servers (history calls) !! serverId = None →
         server_status (after (history calls) (ctx, m)) serverId = Some s' →
         s' = ServerStatus.creating ∧ ∃ name region, m = MCreateServer name region)
  ∧ (∀ server s',
       servers (history calls) !! serverId = Some server →
       server_status (after (history calls) (ctx, m)) serverId = Some s' →
       s' ≠ ServerDoc.status server →
       (∃ args, m = MUpdateServerStatus args ∧ s' = UpdateServerStatusArgs.status args)
       ∨ (m = MDeleteServer serverId ∧ s' = ServerStatus.deleting))
  ∧ (∀ server,
       servers (history calls) !! serverId = Some server →
       auth_user ctx = Some (ServerDoc.userId server) →
       server_status (after (history calls) (ctx, MDeleteServer serverId)) serverId
       = Some ServerStatus.deleting
       ∧ (∀ args,
            UpdateServerStatusArgs.serverId args = serverId →
            server_status (after (history calls) (ctx, MUpdateServerStatus args)) serverId
            = Some (UpdateServerStatusArgs.status args))
       ∧ servers (after (history calls) (ctx, MDeleteServerRecord serverId)) !! serverId
         = None)
  ∧ (∀ s, server_status (history calls) serverId = Some s → s ∈ ServerStatus.all)
  ∧ (∀ w server,
       servers (db w) !! serverId = Some server →
       auth_user ctx = Some (ServerDoc.userId server) →
       faults w = [] →
       statuses_written (events (Servers.provisionServer ctx serverId w).2)
       = statuses_written (events w)
         ++ [ServerStatus.installing; ServerStatus.configuring; ServerStatus.ready])
  ∧ (∀ w w_try server error,
       Servers.provisionServer_try ctx serverId w = (Throw error, w_try) →
       servers (db w_try) !! serverId = Some server →
       auth_user ctx = Some (ServerDoc.userId server) →
       faults w_try = [] →
       server_status (db (Servers.provisionServer ctx serverId w).2) serverId
       = Some ServerStatus.error).
Proof.
  pose proof (consistent_history calls) as Hc.
  pose proof (after_effect ctx m (history calls)) as E.
  split_and!.
  - intros s' Hs Hs'. by eapply effect_server_new.
  - intros server s' Hs Hs' Hne.
    destruct (effect_server_change _ _ _ _ _ _ _ Hc E Hs Hs' Hne)
      as [Hu [(args & -> & _ & ->)|[-> ->]]]; eauto.
  - intros server Hs Hu. unfold after, commit, mutate, server_status. simpl. split_and!.
    + rewrite (deleteServer_owner _ _ _ server) by done. simpl.
      by rewrite lookup_insert_eq.
    + intros args <-. rewrite (updateServerStatus_owner _ _ _ server) by done. simpl.
      by rewrite lookup_insert_eq.
    + rewrite (deleteServerRecord_present _ _ _ server) by done. simpl.
      apply lookup_delete_eq.
  - intros s _. destruct s; unfold ServerStatus.all; set_solver.
  - intros w server Hs Hu Hf. rewrite (provisionServer_owner _ _ server) by done.
    simpl. by rewrite statuses_written_app.
  - intros w w_try server error Htry Hs Hu Hf.
    rewrite (provisionServer_error_branch _ _ server error w w_try) by done.
    unfold server_status. simpl. by rewrite lookup_insert_eq.
Qed.

(** ** What a user sees *)

Lemma getUserServers_answer ctx user st :
  auth_user ctx = Some user →
  answer (Servers.getUserServers ctx) st
  = Ok (Servers.summary <$> map_to_list (servers_of user st)).
Proof.
  intros Hu. unfold answer, Servers.getUserServers. autounfold with handlers.
  by rewrite Hu.
Qed.

Lemma getServer_answer ctx user serverId st :
  auth_user ctx = Some user →
  answer (Servers.getServer ctx serverId) st
  = Ok (Servers.view serverId <$> servers_of user st !! serverId).
Proof.
  intros Hu. unfold answer, Servers.getServer, servers_of. autounfold with handlers.
  rewrite Hu. simpl.
  destruct (servers st !! serverId) as [server|] eqn:E.
  - destruct (decide (ServerDoc.userId server = user)) as [Ho|Ho]; simpl.
    + by erewrite map_lookup_filter_Some_2.
    + rewrite map_lookup_filter_None_2; [done|].
      right. intros x Hx. by simplify_eq.
  - rewrite map_lookup_filter_None_2; [done|]. by left.
Qed.

Lemma mapH_withServerInfo rows st :
  mapH Deployments.withServerInfo rows st
  = Ok ((λ row : nat * DeploymentDoc.t,
           Deployments.view row.1 row.2 (servers st !! DeploymentDoc.serverId row.2))
          <$> rows, st).
Proof.
  induction rows as [|row rows IH]; [done|].
  simpl. unfold bind at 1. unfold Deployments.withServerInfo at 1.
  autounfold with handlers. simpl. unfold bind in IH |- *. by rewrite IH.
Qed.

Lemma getUserDeployments_answer ctx user st :
  auth_user ctx = Some user →
  answer (Deployments.getUserDeployments ctx) st
  = Ok ((λ row : nat * DeploymentDoc.t,
           Deployments.view row.1 row.2 (servers st !! DeploymentDoc.serverId row.2))
          <$> map_to_list (deployments_of user st)).
Proof.
  intros Hu. unfold answer, Deployments.getUserDeployments, requireUser, getAuthUser, collect.
  rewrite Hu. unfold bind, ret. simpl. by rewrite mapH_withServerInfo.
Qed.

Lemma getDeployment_answer ctx user deploymentId st :
  auth_user ctx = Some user →
  answer (Deployments.getDeployment ctx deploymentId) st
  = Ok ((λ d, Deployments.view deploymentId d (servers st !! DeploymentDoc.serverId d))
          <$> deployments_of user st !! deploymentId).
Proof.
  intros Hu. unfold answer, Deployments.getDeployment, deployments_of.
  autounfold with handlers. rewrite Hu. simpl.
  destruct (deployments st !! deploymentId) as [d|] eqn:E.
  - destruct (decide (DeploymentDoc.userId d = user)) as [Ho|Ho]; simpl.
    + by erewrite map_lookup_filter_Some_2.
    + rewrite map_lookup_filter_None_2; [done|].
      right. intros x Hx. by simplify_eq.
  - rewrite map_lookup_filter_None_2; [done|]. by left.
Qed.

(** In a consistent store the server of a user's deployment is looked up
    among that user's servers. *)
Lemma server_of_own_deployment user st deploymentId d :
  consistent st →
  deployments_of user st !! deploymentId = Some d →
  servers st !! DeploymentDoc.serverId d = servers_of user st !! DeploymentDoc.serverId d.
Proof.
  intros Hc [Hd Ho]%map_lookup_filter_Some. simpl in Ho. unfold servers_of.
  destruct (servers st !! DeploymentDoc.serverId d) as [s|] eqn:E.
  - symmetry. apply map_lookup_filter_Some_2; [done|]. simpl.
    rewrite <- Ho. by eapply deployment_server_owner.
  - symmetry. apply map_lookup_filter_None. by left.
Qed.

Lemma same_records_same_server user st1 st2 deploymentId d :
  consistent st1 → consistent st2 →
  same_records_of user st1 st2 →
  deployments_of user st1 !! deploymentId = Some d →
  servers st1 !! DeploymentDoc.serverId d = servers st2 !! DeploymentDoc.serverId d.
Proof.
  intros Hc1 Hc2 [Hs Hd] H1.
  rewrite (server_of_own_deployment user st1 deploymentId d) by done.
  rewrite (server_of_own_deployment user st2 deploymentId d);
    [|done|by rewrite <- Hd].
  by rewrite Hs.
Qed.

(** C10: an authenticated user's list queries return exactly the records
    whose [userId] is theirs, the single-record queries return [null] for a
    record of someone else, and two reachable stores that hold the same
    records of that user give the same answers to all four queries,
    whatever other users' records were added, removed or changed. *)
Theorem C10_user_isolation calls1 calls2 ctx user :
  auth_user ctx = Some user →
  same_records_of user (history calls1) (history calls2) →
  (∃ found, answer (Servers.getUserServers ctx) (history calls1) = Ok found
            ∧ length found = size (servers_of user (history calls1))
            ∧ ∀ v, v ∈ found
                   ↔ ∃ id server, servers (history calls1) !! id = Some server
                                  ∧ ServerDoc.userId server = user
                                  ∧ v = Servers.summary (id, server))
  ∧ (∃ found, answer (Deployments.getUserDeployments ctx) (history calls1) = Ok found
              ∧ length found = size (deployments_of user (history calls1))
              ∧ ∀ v, v ∈ found
                     ↔ ∃ id d, deployments (history calls1) !! id = Some d
                               ∧ DeploymentDoc.userId d = user
                               ∧ v = Deployments.view id d
                                       (servers (history calls1)
                                          !! DeploymentDoc.serverId d))
  ∧ (∀ id server, servers (history calls1) !! id = Some server →
                  ServerDoc.userId server ≠ user →
                  answer (Servers.getServer ctx id) (history calls1) = Ok None)
  ∧ (∀ id d, deployments (history calls1) !! id = Some d →
             DeploymentDoc.userId d ≠ user →
             answer (Deployments.getDeployment ctx id) (history calls1) = Ok None)
  ∧ answer (Servers.getUserServers ctx) (history calls1)
    = answer (Servers.getUserServers ctx) (history calls2)
  ∧ answer (Deployments.getUserDeployments ctx) (history calls1)
    = answer (Deployments.getUserDeployments ctx) (history calls2)
  ∧ (∀ id, answer (Servers.getServer ctx id) (history calls1)
           = answer (Servers.getServer ctx id) (history calls2))
  ∧ (∀ id, answer (Deployments.getDeployment ctx id) (history calls1)
           = answer (Deployments.getDeployment ctx id) (history calls2)).
Proof.
  intros Hu Hsame.
  pose proof (consistent_history calls1) as Hc1.
  pose proof (consistent_history calls2) as Hc2.
  set (st1 := history calls1) in *. set (st2 := history calls2) in *.
  destruct Hsame as [Hs Hd]. split_and!.
  - eexists. split; [by apply getUserServers_answer|].
    split; [by rewrite length_fmap, length_map_to_list|]. intros v.
    rewrite list_elem_of_fmap. split.
    + intros ([id server] & -> & Hin). apply elem_of_map_to_list in Hin.
      apply map_lookup_filter_Some in Hin as [Hin Ho]. eauto.
    + intros (id & server & Hin & Ho & ->). exists (id, server). split; [done|].
      apply elem_of_map_to_list. by apply map_lookup_filter_Some.
  - eexists. split; [by apply getUserDeployments_answer|].
    split; [by rewrite length_fmap, length_map_to_list|]. intros v.
    rewrite list_elem_of_fmap. split.
    + intros ([id d] & -> & Hin). apply elem_of_map_to_list in Hin.
      apply map_lookup_filter_Some in Hin as [Hin Ho]. eauto.
    + intros (id & d & Hin & Ho & ->). exists (id, d). split; [done|].
      apply elem_of_map_to_list. by apply map_lookup_filter_Some.
  - intros id server Hin Ho. rewrite (getServer_answer _ user) by done.
    unfold servers_of. rewrite map_lookup_filter_None_2; [done|].
    right. intros x Hx. by simplify_eq.
  - intros id d Hin Ho. rewrite (getDeployment_answer _ user) by done.
    unfold deployments_of. rewrite map_lookup_filter_None_2; [done|].
    right. intros x Hx. by simplify_eq.
  - by rewrite !(getUserServers_answer _ user), Hs.
  - rewrite !(getUserDeployments_answer _ user) by done. rewrite <- Hd. f_equal.
    apply list_fmap_ext. intros i [id d] Hin. simpl.
    apply list_elem_of_lookup_2, elem_of_map_to_list in Hin.
    by rewrite (same_records_same_server user st1 st2 id d).
  - intros id. by rewrite !(getServer_answer _ user), Hs.
  - intros id. rewrite !(getDeployment_answer _ user) by done. rewrite <- Hd.
    destruct (deployments_of user st1 !! id) as [d|] eqn:E; [|done]. simpl.
    by rewrite (same_records_same_server user st1 st2 id d).
Qed.

(** The theorem at Alice, before and after Bob has come and gone. *)
Lemma C10_witness :
  answer (Servers.getUserServers alice) (history alice_deploys_site)
  = answer (Servers.getUserServers alice) (history (alice_deploys_site ++ bob_comes_and_goes))
  ∧ answer (Deployments.getUserDeployments alice) (history alice_deploys_site)
    = answer (Deployments.getUserDeployments alice)
             (history (alice_deploys_site ++ bob_comes_and_goes)).
Proof.
  destruct (C10_user_isolation alice_deploys_site (alice_deploys_site ++ bob_comes_and_goes)
              alice "alice") as (_ & _ & _ & _ & Hservers & Hdeployments & _).
  - reflexivity.
  - split; vm_compute; reflexivity.
  - split; assumption.
Defined.
(** * Further properties of the code *)

(** ** Tools *)

Lemma the_one_found {D} (P : nat * D → Prop) `{!∀ x, Decision (P x)} (m : gmap nat D) p :
  map_to_list (filter P m) = [p] → m !! p.1 = Some p.2 ∧ P p.
Proof.
  intros Hone. assert (p ∈ map_to_list (filter P m)) as Hin by (rewrite Hone; left).
  destruct p as [i x]. by apply elem_of_map_to_list, map_lookup_filter_Some in Hin.
Qed.

Lemma credential_kept ctx m st kid k :
  one_credential_each st →
  apiKeys st !! kid = Some k →
  auth_user ctx ≠ Some (ApiKeysDoc.userId k) ∨ writes_credentials m = false →
  apiKeys (after st (ctx, m)) !! kid = Some k.
Proof.
  intros [Hfresh _] Hk Hwho. destruct m; open_mutation; try done.
  all: destruct Hwho as [Hwho|[=]].
  all: repeat match goal with
         | H : map_to_list _ = [_] |- _ => apply the_one_found in H as [? ?]; simpl in *
         end.
  all: match goal with
       | |- <[?i := _]> _ !! _ = _ =>
           rewrite lookup_insert_ne; [done|intros Heq]
       | |- delete ?i _ !! _ = _ =>
           rewrite lookup_delete_ne; [done|intros Heq]
       end.
  all: try (apply Hfresh in Hk; lia).
  all: apply Hwho; congruence.
Qed.

(** ** What the stores keep *)

(** X1: the credentials table never holds two documents of one user:
    [storeApiKeys] inserts only when [.unique()] found none and otherwise
    patches the one it found, and no patch changes a [userId]. *)
Theorem one_credential_per_user calls id1 d1 id2 d2 :
  apiKeys (history calls) !! id1 = Some d1 →
  apiKeys (history calls) !! id2 = Some d2 →
  id1 ≠ id2 →
  ApiKeysDoc.userId d1 ≠ ApiKeysDoc.userId d2.
Proof.
  intros H1 H2 Hne Heq. apply Hne.
  by apply (credentials_unique _ (one_credential_history calls) id1 d1 id2 d2).
Qed.

Lemma one_credential_per_user_witness :
  ApiKeysDoc.userId alice_credential ≠ ApiKeysDoc.userId bob_credential.
Proof.
  apply (one_credential_per_user (alice_deploys_site ++ bob_comes_and_goes) 0 _ 3 _).
  - vm_compute. reflexivity.
  - vm_compute. reflexivity.
  - lia.
Defined.

(** X2: as long as the server of a deployment exists, it belongs to the user
    the deployment belongs to: [createDeployment] checks the owner, and
    nothing changes the [userId] of a record or reuses an id. *)
Theorem deployment_on_own_server calls id deployment server :
  deployments (history calls) !! id = Some deployment →
  servers (history calls) !! DeploymentDoc.serverId deployment = Some server →
  ServerDoc.userId server = DeploymentDoc.userId deployment.
Proof. apply (deployment_server_owner _ (consistent_history calls)). Qed.

Lemma deployment_on_own_server_witness :
  ServerDoc.userId alice_server = DeploymentDoc.userId alice_deployment.
Proof.
  apply (deployment_on_own_server alice_deploys_site 2).
  - vm_compute. reflexivity.
  - vm_compute. reflexivity.
Defined.

(** X3: a credential is written only by [storeApiKeys],
    [updateValidationStatus] and [deleteApiKeys], and only for the caller:
    whatever mutation anybody else calls, and whatever other mutation the
    owner calls, the document stays as it is. *)
Theorem credentials_written_by_owner_only calls ctx m kid k :
  apiKeys (history calls) !! kid = Some k →
  auth_user ctx ≠ Some (ApiKeysDoc.userId k) ∨ writes_credentials m = false →
  apiKeys (after (history calls) (ctx, m)) !! kid = Some k.
Proof. apply credential_kept, one_credential_history. Qed.

Lemma credentials_written_by_owner_only_witness :
  apiKeys (after (history alice_deploys_site) (bob, MDeleteApiKeys None)) !! 0
  = Some alice_credential.
Proof.
  apply credentials_written_by_owner_only.
  - vm_compute. reflexivity.
  - left. discriminate.
Defined.

Lemma server_kept ctx m st st' id server :
  consistent st →
  effect ctx st st' m →
  visibility m = Public →
  servers st !! id = Some server →
  auth_user ctx ≠ Some (ServerDoc.userId server) →
  servers st' !! id = Some server.
Proof.
  intros [Hfresh _ _ _] E Hpublic Hs Hwho.
  inversion E as [? ? ? ? Es Ed En|? ? ? ? Es Ed En|? ? ? ? Es Ed En|? Es Ed En
                 |? ? ? ? Es Ed En|? ? ? ? Es Ed En|? ? ? ? Es Ed En|? Es Ed En
                 |? Es Ed En]; subst; try done; rewrite Es; try done.
  - rewrite lookup_insert_ne; [done|]. apply Hfresh in Hs. lia.
  - rewrite lookup_insert_ne; [done|]. intros ->. apply Hwho. congruence.
Qed.

Lemma deployment_kept ctx m st st' id deployment :
  consistent st →
  effect ctx st st' m →
  (∀ deploymentId, m ≠ MDeleteDeploymentRecord deploymentId) →
  deployments st !! id = Some deployment →
  auth_user ctx ≠ Some (DeploymentDoc.userId deployment) →
  deployments st' !! id = Some deployment.
Proof.
  intros [_ Hfresh _ _] E Hnot Hd Hwho.
  inversion E as [? ? ? ? Es Ed En|? ? ? ? Es Ed En|? ? ? ? Es Ed En|? Es Ed En
                 |? ? ? ? Es Ed En|? ? ? ? Es Ed En|? ? ? ? Es Ed En|? Es Ed En
                 |? Es Ed En]; subst; rewrite Ed; try done.
  - rewrite lookup_insert_ne; [done|]. apply Hfresh in Hd. lia.
  - rewrite lookup_insert_ne; [done|]. intros Heq. apply Hwho. congruence.
  - rewrite lookup_insert_ne; [done|]. intros ->. apply Hwho. congruence.
  - by destruct (Hnot deploymentId).
Qed.

(** X4: no public mutation lets a caller change or remove a server record
    of somebody else: after any such call by anyone but the owner,
    authenticated or not, the record is there, field for field. *)
Theorem servers_safe_from_other_callers calls ctx m id server :
  visibility m = Public →
  servers (history calls) !! id = Some server →
  auth_user ctx ≠ Some (ServerDoc.userId server) →
  servers (after (history calls) (ctx, m)) !! id = Some server.
Proof.
  intros. eapply server_kept; eauto using consistent_history, after_effect.
Qed.

Lemma servers_safe_from_other_callers_witness :
  servers (after (history alice_deploys_site) (bob, MDeleteServer 1)) !! 1
  = Some alice_server.
Proof.
  apply servers_safe_from_other_callers.
  - reflexivity.
  - vm_compute. reflexivity.
  - discriminate.
Defined.

(** X5: the same holds of deployment records for every mutation but one:
    apart from [deleteDeploymentRecord], no call by anyone but the owner
    changes or removes a deployment. *)
Theorem deployments_safe_from_other_callers calls ctx m id deployment :
  (∀ deploymentId, m ≠ MDeleteDeploymentRecord deploymentId) →
  deployments (history calls) !! id = Some deployment →
  auth_user ctx ≠ Some (DeploymentDoc.userId deployment) →
  deployments (after (history calls) (ctx, m)) !! id = Some deployment.
Proof.
  intros. eapply deployment_kept; eauto using consistent_history, after_effect.
Qed.

Lemma deployments_safe_from_other_callers_witness :
  deployments (after (history alice_deploys_site) (bob, MDeleteDeployment 2)) !! 2
  = Some alice_deployment.
Proof.
  apply deployments_safe_from_other_callers.
  - discriminate.
  - vm_compute. reflexivity.
  - discriminate.
Defined.
(** ** Frames of the actions *)

Section keeps.
Context (R : relation Store) `{!PreOrder R}.

Lemma keeps_aret {A} (a : A) : keeps R (aret a).
Proof. intros w. simpl. reflexivity. Qed.

Lemma keeps_athrow {A} msg : keeps R (@athrow A msg).
Proof. intros w. simpl. reflexivity. Qed.

Lemma keeps_emit ev : keeps R (emit ev).
Proof. intros w. simpl. reflexivity. Qed.

Lemma keeps_abind {A B} (m : Action A) (k : A → Action B) :
  keeps R m → (∀ a, keeps R (k a)) → keeps R (abind m k).
Proof.
  intros Hm Hk w. unfold abind. specialize (Hm w).
  destruct (m w) as [[a|e] w1]; simpl in *; [|done].
  etrans; [done|apply Hk].
Qed.

Lemma keeps_try_catch {A} (body : Action A) handler :
  keeps R body → (∀ e, keeps R (handler e)) → keeps R (try_catch body handler).
Proof.
  intros Hm Hk w. unfold try_catch. specialize (Hm w).
  destruct (body w) as [[a|e] w1]; simpl in *; [done|].
  etrans; [done|apply Hk].
Qed.

Lemma keeps_platform_call {A} ev (h : Handler A) :
  (∀ st a st', h st = Ok (a, st') → R st st') → keeps R (platform_call ev h).
Proof.
  intros Hh w. unfold platform_call.
  destruct (faults w) as [|[e|] rest]; simpl;
    (try reflexivity); destruct (h (db w)) as [[a st']|e] eqn:E; simpl;
    first [reflexivity|by eapply Hh].
Qed.

End keeps.


Lemma on_server_preorder serverId : PreOrder (on_server serverId).
Proof.
  split.
  - by intros st.
  - intros st1 st2 st3 [? ? ? ? ? H1] [? ? ? ? ? H2]. split; try congruence.
    intros i Hi. by rewrite H2, H1.
Qed.

Lemma on_deployment_preorder deploymentId : PreOrder (on_deployment deploymentId).
Proof.
  split.
  - by intros st.
  - intros st1 st2 st3 [? ? ? ? ? H1] [? ? ? ? ? H2]. split; try congruence.
    intros i Hi. by rewrite H2, H1.
Qed.

Lemma server_frame_preorder serverId : PreOrder (server_frame serverId).
Proof.
  pose proof (on_server_preorder serverId) as Hpre.
  split.
  - intros st. split; [reflexivity|]. split; [|done]. intros server Hs. eauto 10.
  - intros st1 st2 st3 (H1 & S1 & Q1) (H2 & S2 & Q2). split; [by etrans|].
    split; [|unfold same_queue in *; congruence].
    intros server Hs. destruct (S1 _ Hs) as (s2 & Hs2 & ? & ? & ? & ?).
    destruct (S2 _ Hs2) as (s3 & Hs3 & ? & ? & ? & ?).
    exists s3. split_and!; congruence.
Qed.

Lemma deployment_frame_preorder deploymentId :
  PreOrder (deployment_frame deploymentId).
Proof.
  pose proof (on_deployment_preorder deploymentId) as Hpre.
  split.
  - intros st. split; [reflexivity|]. split; [|done]. intros [] Hd. eauto.
  - intros st1 st2 st3 (H1 & S1 & Q1) (H2 & S2 & Q2). split; [by etrans|].
    split; [|unfold same_queue in *; congruence].
    intros d Hd. destruct (S1 _ Hd) as (s & e & Hd2).
    destruct (S2 _ Hd2) as (s' & e' & Hd3). simpl in Hd3. eauto.
Qed.

Lemma server_removal_preorder serverId : PreOrder (server_removal serverId).
Proof.
  pose proof (on_server_preorder serverId) as Hpre.
  split.
  - intros st. split; [reflexivity|done].
  - intros st1 st2 st3 [H1 Q1] [H2 Q2]. split; [by etrans|].
    unfold same_queue in *; congruence.
Qed.

Lemma deployment_removal_preorder deploymentId :
  PreOrder (deployment_removal deploymentId).
Proof.
  pose proof (on_deployment_preorder deploymentId) as Hpre.
  split.
  - intros st. split; [reflexivity|done].
  - intros st1 st2 st3 [H1 Q1] [H2 Q2]. split; [by etrans|].
    unfold same_queue in *; congruence.
Qed.

Lemma updateServerStatus_frame ctx args st a st' :
  Servers.updateServerStatus ctx args st = Ok (a, st') →
  server_frame (UpdateServerStatusArgs.serverId args) st st'.
Proof.
  unfold Servers.updateServerStatus. run_handler; intros; simplify_eq.
  split; [split; try done; intros i Hi; simpl; by rewrite lookup_insert_ne|].
  split; [|done]. intros server Hs. simpl. rewrite lookup_insert_eq.
  eexists. split; [done|]. by simplify_eq.
Qed.

Lemma getServer_pure ctx serverId st a st' :
  Servers.getServer ctx serverId st = Ok (a, st') → st' = st.
Proof. unfold Servers.getServer. run_handler; intros; by simplify_eq. Qed.

Lemma deleteServerRecord_frame ctx serverId st a st' :
  Servers.deleteServerRecord ctx serverId st = Ok (a, st') →
  server_removal serverId st st'.
Proof.
  unfold Servers.deleteServerRecord. run_handler; intros; simplify_eq.
  split; [|done]. split; try done. intros i Hi; simpl; by rewrite lookup_delete_ne.
Qed.

Lemma getDeployment_pure ctx deploymentId st a st' :
  Deployments.getDeployment ctx deploymentId st = Ok (a, st') → st' = st.
Proof. unfold Deployments.getDeployment. run_handler; intros; by simplify_eq. Qed.

Lemma updateDeploymentStatus_frame ctx args st a st' :
  Deployments.updateDeploymentStatus ctx args st = Ok (a, st') →
  deployment_frame (UpdateDeploymentStatusArgs.deploymentId args) st st'.
Proof.
  unfold Deployments.updateDeploymentStatus. run_handler; intros; simplify_eq.
  split; [split; try done; intros i Hi; simpl; by rewrite lookup_insert_ne|].
  split; [|done]. intros d Hd. simpl. rewrite lookup_insert_eq. simplify_eq.
  unfold Deployments.updates. eauto.
Qed.

Lemma deleteDeploymentRecord_frame ctx deploymentId st a st' :
  Deployments.deleteDeploymentRecord ctx deploymentId st = Ok (a, st') →
  deployment_removal deploymentId st st'.
Proof.
  unfold Deployments.deleteDeploymentRecord. run_handler; intros; simplify_eq.
  split; [|done]. split; try done. intros i Hi; simpl; by rewrite lookup_delete_ne.
Qed.

Lemma provisionServer_try_frame ctx serverId :
  keeps (server_frame serverId) (Servers.provisionServer_try ctx serverId).
Proof.
  unfold Servers.provisionServer_try, Servers.internal_updateServerStatus, runMutation, sleep.
  assert (∀ args, UpdateServerStatusArgs.serverId args = serverId →
            keeps (server_frame serverId)
              (platform_call (EvRunMutation (MUpdateServerStatus args))
                 (Servers.updateServerStatus ctx args))) as Hwrite.
  { intros args <-. apply keeps_platform_call; [apply server_frame_preorder|].
    apply updateServerStatus_frame. }
  apply keeps_abind; [apply server_frame_preorder|by apply Hwrite|intros _].
  apply keeps_abind; [apply server_frame_preorder|apply keeps_emit; apply server_frame_preorder|intros _].
  apply keeps_abind; [apply server_frame_preorder|by apply Hwrite|intros _].
  by apply Hwrite.
Qed.

Lemma provisionServer_frame ctx serverId w :
  job_frame (JProvisionServer serverId) (db w) (db (Servers.provisionServer ctx serverId w).2).
Proof.
  pose proof (server_frame_preorder serverId) as Hpre.
  unfold Servers.provisionServer, try_catch.
  pose proof (provisionServer_try_frame ctx serverId w) as Htry.
  destruct (Servers.provisionServer_try ctx serverId w) as [[[]|e] w1]; simpl in *.
  { destruct Htry as (? & ? & ?). split_and!; auto. }
  unfold Servers.provisionServer_catch, abind, Servers.internal_updateServerStatus,
    runMutation.
  pose proof (keeps_platform_call (server_frame serverId)
                (EvRunMutation (MUpdateServerStatus (Servers.error_args serverId e)))
                (Servers.updateServerStatus ctx (Servers.error_args serverId e))
                (updateServerStatus_frame ctx (Servers.error_args serverId e)) w1) as Hc.
  destruct (platform_call _ _ w1) as [[[]|e'] w2]; simpl in *.
  - assert (server_frame serverId (db w) (db w2)) as (F & S & Q) by (by etrans).
    split_and!.
    + by destruct F.
    + done.
    + right. by rewrite Q.
  - assert (server_frame serverId (db w) (db w2)) as (F & S & Q) by (by etrans).
    split_and!; auto.
Qed.

Lemma destroyServer_frame ctx serverId :
  keeps (server_removal serverId) (Servers.destroyServer ctx serverId).
Proof.
  pose proof (server_removal_preorder serverId) as Hpre.
  unfold Servers.destroyServer, Servers.internal_getServer,
    Servers.internal_deleteServerRecord, runQuery, runMutation, console_error.
  apply keeps_try_catch; [apply server_removal_preorder| |intros e].
  - apply keeps_abind; [apply server_removal_preorder| |intros [v|]].
    + apply keeps_platform_call; [apply server_removal_preorder|]. intros st a st' ->%getServer_pure. reflexivity.
    + apply keeps_platform_call; [apply server_removal_preorder|]. apply deleteServerRecord_frame.
    + apply keeps_aret; apply server_removal_preorder.
  - apply keeps_abind; [apply server_removal_preorder| |intros _].
    + apply keeps_emit; apply server_removal_preorder.
    + apply keeps_platform_call; [apply server_removal_preorder|]. apply deleteServerRecord_frame.
Qed.

Lemma deployWordPress_frame ctx deploymentId :
  keeps (deployment_frame deploymentId) (Deployments.deployWordPress ctx deploymentId).
Proof.
  pose proof (deployment_frame_preorder deploymentId) as Hpre.
  unfold Deployments.deployWordPress, Deployments.internal_getDeployment,
    Deployments.internal_updateDeploymentStatus, runQuery, runMutation, sleep.
  apply keeps_try_catch; [apply deployment_frame_preorder| |intros e].
  - apply keeps_abind; [apply deployment_frame_preorder| |intros [v|]].
    + apply keeps_platform_call; [apply deployment_frame_preorder|].
      intros st a st' ->%getDeployment_pure. reflexivity.
    + apply keeps_abind; [apply deployment_frame_preorder| |intros _].
      * apply keeps_emit; apply deployment_frame_preorder.
      * apply keeps_platform_call; [apply deployment_frame_preorder|].
        apply (updateDeploymentStatus_frame ctx (Deployments.running_args deploymentId)).
    + apply keeps_athrow; apply deployment_frame_preorder.
  - apply keeps_platform_call; [apply deployment_frame_preorder|].
    apply (updateDeploymentStatus_frame ctx (Deployments.error_args deploymentId e)).
Qed.

Lemma destroyWordPress_frame ctx deploymentId :
  keeps (deployment_removal deploymentId) (Deployments.destroyWordPress ctx deploymentId).
Proof.
  unfold Deployments.destroyWordPress, Deployments.internal_deleteDeploymentRecord,
    runMutation, console_error.
  apply keeps_try_catch; [apply deployment_removal_preorder| |intros e].
  - apply keeps_platform_call; [apply deployment_removal_preorder|]. apply deleteDeploymentRecord_frame.
  - apply keeps_abind; [apply deployment_removal_preorder| |intros _].
    + apply keeps_emit; apply deployment_removal_preorder.
    + apply keeps_platform_call; [apply deployment_removal_preorder|]. apply deleteDeploymentRecord_frame.
Qed.

(** X6: a scheduled job touches its own record and nothing else, in every
    world: whichever calls the platform fails and whoever the job runs as.
    [provisionServer] and [deployWordPress] never remove their record, nor
    change whose it is; [provisionServer] schedules at most the
    [destroyServer] of its own server, and no other job schedules anything;
    a server going leaves its deployments where they are. *)
Theorem jobs_touch_their_record_only ctx j w :
  job_frame j (db w) (db (run_job ctx j w).2).
Proof.
  destruct j as [serverId|serverId|deploymentId|deploymentId]; simpl.
  - apply provisionServer_frame.
  - apply (destroyServer_frame ctx serverId w).
  - apply (deployWordPress_frame ctx deploymentId w).
  - apply (destroyWordPress_frame ctx deploymentId w).
Qed.
(** ** Jobs and the identity they run with *)

Ltac open_action :=
  unfold run_job, Servers.provisionServer, Servers.provisionServer_try,
    Servers.provisionServer_catch, Servers.destroyServer, Deployments.deployWordPress,
    Deployments.destroyWordPress, Servers.internal_updateServerStatus,
    Servers.internal_getServer, Servers.internal_deleteServerRecord,
    Deployments.internal_getDeployment, Deployments.internal_updateDeploymentStatus,
    Deployments.internal_deleteDeploymentRecord, runQuery, runMutation, try_catch, abind,
    sleep, console_error, emit, record_event, schedule, platform_call, athrow, aret.

(** X7: what the four jobs do when they run without an identity and the
    platform fails no call.  [provisionServer] and [deployWordPress] throw
    "Not authenticated" out of their [catch] and leave the store as it was:
    the record keeps its status, no error is written and no cleanup is
    scheduled.  [destroyServer] and [destroyWordPress] delete the record if
    it is there, and throw if it is not. *)
Theorem jobs_without_identity ctx j w :
  auth_user ctx = None →
  faults w = [] →
  match j with
  | JProvisionServer _ | JDeployWordPress _ =>
      (run_job ctx j w).1 = Throw (Error "Not authenticated")
      ∧ db (run_job ctx j w).2 = db w
  | JDestroyServer serverId =>
      match servers (db w) !! serverId with
      | Some _ =>
          (run_job ctx j w).1 = Ok tt
          ∧ servers (db (run_job ctx j w).2) !! serverId = None
      | None =>
          (run_job ctx j w).1 = Throw (Error "Delete on nonexistent document ID")
          ∧ db (run_job ctx j w).2 = db w
      end
  | JDestroyWordPress deploymentId =>
      match deployments (db w) !! deploymentId with
      | Some _ =>
          (run_job ctx j w).1 = Ok tt
          ∧ deployments (db (run_job ctx j w).2) !! deploymentId = None
      | None =>
          (run_job ctx j w).1 = Throw (Error "Delete on nonexistent document ID")
          ∧ db (run_job ctx j w).2 = db w
      end
  end.
Proof.
  intros Hu Hf.
  destruct j as [serverId|serverId|deploymentId|deploymentId]; open_action;
    rewrite Hf; simpl.
  - unfold Servers.updateServerStatus. autounfold with handlers. by rewrite Hu.
  - unfold Servers.getServer, Servers.deleteServerRecord. autounfold with handlers.
    rewrite Hu. simpl.
    destruct (servers (db w) !! serverId) eqn:E; simpl; [|done].
    split; [done|apply lookup_delete_eq].
  - unfold Deployments.getDeployment, Deployments.updateDeploymentStatus.
    autounfold with handlers. by rewrite Hu.
  - unfold Deployments.deleteDeploymentRecord. autounfold with handlers. simpl.
    destruct (deployments (db w) !! deploymentId) eqn:E; simpl.
    + split; [done|apply lookup_delete_eq].
    + by rewrite E.
Qed.

Lemma jobs_without_identity_witness :
  (run_job anonymous (JProvisionServer 1) (quiet_world (history alice_creates_server))).1
  = Throw (Error "Not authenticated")
  ∧ db (run_job anonymous (JProvisionServer 1) (quiet_world (history alice_creates_server))).2
    = db (quiet_world (history alice_creates_server)).
Proof.
  apply (jobs_without_identity anonymous (JProvisionServer 1)
           (quiet_world (history alice_creates_server))); reflexivity.
Defined.
(** ** From a server to a site *)

Lemma createServer_valid ctx user kid k name region st :
  auth_user ctx = Some user →
  stored_credential st user kid k →
  ApiKeysDoc.isHetznerValid k = true →
  Servers.createServer ctx name region st
  = Ok (nextId st,
        enqueue (mkJob 0 (JProvisionServer (nextId st)))
          (bump_id (put_rows tbl_servers
                      (<[nextId st := ServerDoc.mk user "" name None ServerStatus.creating
                                        region None false (now ctx) None]> (servers st))
                      st))).
Proof.
  intros Hu Hk Hv. unfold Servers.createServer, requireUser, getAuthUser. rewrite Hu.
  unfold bind at 1. simpl. unfold bind at 1. rewrite (unique_stored _ _ _ _ Hk). simpl.
  by rewrite Hv.
Qed.

(** X8: with a credential marked valid for Hetzner, [createServer] returns
    a fresh id: no record is overwritten, the caller reads the new server
    back through [getServer] as [creating], without address or provider id,
    another user is told nothing, and the one job added to the queue is the
    provisioning of this server. *)
Theorem createServer_then_getServer calls ctx other user kid k name region :
  auth_user ctx = Some user →
  auth_user other ≠ Some user →
  apiKeys (history calls) !! kid = Some k →
  ApiKeysDoc.userId k = user →
  ApiKeysDoc.isHetznerValid k = true →
  ∃ st',
    Servers.createServer ctx name region (history calls) = Ok (nextId (history calls), st')
    ∧ servers (history calls) !! nextId (history calls) = None
    ∧ answer (Servers.getServer ctx (nextId (history calls))) st'
      = Ok (Some (ServerView.mk (nextId (history calls)) name "" None ServerStatus.creating
                                region false (now ctx) None))
    ∧ answer (Servers.getServer other (nextId (history calls))) st'
      ∈ [Ok None; Throw (Error "Not authenticated")]
    ∧ scheduled st'
      = scheduled (history calls) ++ [mkJob 0 (JProvisionServer (nextId (history calls)))]
    ∧ nextId st' = S (nextId (history calls)).
Proof.
  intros Hu Hother Hk Hown Hv. eexists. split.
  { eapply createServer_valid; [done|by apply stored_credential_history|done]. }
  split.
  { destruct (servers (history calls) !! nextId (history calls)) eqn:E; [|done].
    apply (servers_fresh _ (consistent_history calls)) in E. lia. }
  split.
  { unfold answer.
    rewrite (getServer_owner _ _ _ (ServerDoc.mk user "" name None ServerStatus.creating
                                                 region None false (now ctx) None));
      [done|done|]. simpl. apply lookup_insert_eq. }
  split; [|done].
  unfold answer. destruct (auth_user other) as [u|] eqn:Eo.
  - erewrite getServer_not_theirs; [set_solver|done|]. simpl. intros server.
    rewrite lookup_insert_eq. intros [= <-]. simpl. congruence.
  - rewrite getServer_unauthenticated by done. set_solver.
Qed.

Lemma createServer_then_getServer_witness :
  ∃ st',
    Servers.createServer alice "web-2" "hel1" (history alice_deploys_site) = Ok (3, st')
    ∧ servers (history alice_deploys_site) !! 3 = None
    ∧ answer (Servers.getServer alice 3) st'
      = Ok (Some (ServerView.mk 3 "web-2" "" None ServerStatus.creating "hel1" false
                                (now alice) None))
    ∧ answer (Servers.getServer bob 3) st' ∈ [Ok None; Throw (Error "Not authenticated")]
    ∧ scheduled st' = scheduled (history alice_deploys_site) ++ [mkJob 0 (JProvisionServer 3)]
    ∧ nextId st' = 4.
Proof.
  apply (createServer_then_getServer alice_deploys_site alice bob "alice" 0 alice_credential
           "web-2" "hel1").
  - reflexivity.
  - discriminate.
  - vm_compute. reflexivity.
  - reflexivity.
  - reflexivity.
Defined.
Lemma createDeployment_on ctx user kid k args server st :
  auth_user ctx = Some user →
  servers st !! CreateDeploymentArgs.serverId args = Some server →
  ServerDoc.userId server = user →
  stored_credential st user kid k →
  Deployments.createDeployment ctx args st
  = if bool_decide (ServerDoc.status server = ServerStatus.ready)
       && ServerDoc.dokployInstalled server
    then
      if ApiKeysDoc.isDokployValid k
      then Ok (nextId st,
               enqueue (mkJob 0 (JDeployWordPress (nextId st)))
                 (bump_id
                    (put_rows tbl_deployments
                       (<[nextId st :=
                            DeploymentDoc.mk user (CreateDeploymentArgs.serverId args)
                              (CreateDeploymentArgs.name args)
                              (CreateDeploymentArgs.domain args)
                              DeploymentStatus.deploying
                              (CreateDeploymentArgs.wordpressAdminUser args)
                              (CreateDeploymentArgs.wordpressAdminPass args)
                              (CreateDeploymentArgs.enableSsl args) (now ctx) None]>
                          (deployments st)) st)))
      else Throw (Error "Valid Dokploy API key required")
    else Throw (Error "Server is not ready for deployments").
Proof.
  intros Hu Hs Hown Hk. unfold Deployments.createDeployment, requireUser, getAuthUser.
  rewrite Hu. unfold bind at 1. simpl. unfold bind at 1, db_get. simpl. rewrite Hs.
  rewrite decide_True by done.
  destruct (bool_decide _ && _); [|done].
  unfold bind at 1. rewrite (unique_stored _ _ _ _ Hk). simpl.
  by destruct (ApiKeysDoc.isDokployValid k).
Qed.

(** X9: a server just created takes no deployment: [createDeployment] is
    refused with "Server is not ready for deployments" until the scheduled
    [provisionServer] has run.  Once it has, as the owner and with no
    failure of the platform, the same request goes through exactly when the
    credential is marked valid for Dokploy. *)
Theorem new_server_takes_sites_once_provisioned calls ctx user kid k name region args net evs :
  auth_user ctx = Some user →
  apiKeys (history calls) !! kid = Some k →
  ApiKeysDoc.userId k = user →
  ApiKeysDoc.isHetznerValid k = true →
  CreateDeploymentArgs.serverId args = nextId (history calls) →
  ∃ st1 w2,
    Servers.createServer ctx name region (history calls) = Ok (nextId (history calls), st1)
    ∧ answer (Deployments.createDeployment ctx args) st1
      = Throw (Error "Server is not ready for deployments")
    ∧ run_job ctx (JProvisionServer (nextId (history calls))) (mkWorld st1 net [] evs)
      = (Ok tt, w2)
    ∧ server_status (db w2) (nextId (history calls)) = Some ServerStatus.ready
    ∧ answer (Deployments.createDeployment ctx args) (db w2)
      = if ApiKeysDoc.isDokployValid k then Ok (S (nextId (history calls)))
        else Throw (Error "Valid Dokploy API key required").
Proof.
  intros Hu Hk Hown Hv Hsid.
  pose proof (stored_credential_history _ _ _ _ Hk Hown) as Hstored.
  set (server := ServerDoc.mk user "" name None ServerStatus.creating region None false
                              (now ctx) None).
  eexists _, _. split; [by eapply createServer_valid|].
  split.
  { unfold answer.
    rewrite (createDeployment_on ctx user kid k args server); simpl;
      [done|done|by rewrite Hsid, lookup_insert_eq|done|done]. }
  split.
  { simpl. rewrite (provisionServer_owner _ _ server); simpl;
      [done|done|apply lookup_insert_eq|done]. }
  split.
  { unfold server_status. simpl. by rewrite lookup_insert_eq. }
  unfold answer.
  rewrite (createDeployment_on ctx user kid k args (provisioned server)); simpl;
    [by destruct (ApiKeysDoc.isDokployValid k)
    |done|by rewrite Hsid, lookup_insert_eq|done|done].
Qed.

Lemma new_server_takes_sites_once_provisioned_witness :
  ∃ st1 w2,
    Servers.createServer alice "web-2" "hel1" (history alice_deploys_site) = Ok (3, st1)
    ∧ answer (Deployments.createDeployment alice
                (CreateDeploymentArgs.mk 3 "shop" None "admin" "pw" true)) st1
      = Throw (Error "Server is not ready for deployments")
    ∧ run_job alice (JProvisionServer 3) (mkWorld st1 (fun _ => None) [] []) = (Ok tt, w2)
    ∧ server_status (db w2) 3 = Some ServerStatus.ready
    ∧ answer (Deployments.createDeployment alice
                (CreateDeploymentArgs.mk 3 "shop" None "admin" "pw" true)) (db w2)
      = Ok 4.
Proof.
  apply (new_server_takes_sites_once_provisioned alice_deploys_site alice "alice" 0
           alice_credential "web-2" "hel1"
           (CreateDeploymentArgs.mk 3 "shop" None "admin" "pw" true) (fun _ => None) []).
  - reflexivity.
  - vm_compute. reflexivity.
  - reflexivity.
  - reflexivity.
  - reflexivity.
Defined.

(** X10: on a ready server of the caller, with a credential marked valid
    for Dokploy, [createDeployment] stores the site as [deploying], the
    admin password exactly as it was sent, and queues [deployWordPress];
    that job, run as the owner with no failure of the platform, marks the
    site [running], and [getDeployment] then shows it under the name of its
    server. *)
Theorem createDeployment_then_deployWordPress calls ctx user kid k server args net evs :
  auth_user ctx = Some user →
  apiKeys (history calls) !! kid = Some k →
  ApiKeysDoc.userId k = user →
  ApiKeysDoc.isDokployValid k = true →
  servers (history calls) !! CreateDeploymentArgs.serverId args = Some server →
  ServerDoc.userId server = user →
  ServerDoc.status server = ServerStatus.ready →
  ServerDoc.dokployInstalled server = true →
  ∃ st1 w2,
    Deployments.createDeployment ctx args (history calls) = Ok (nextId (history calls), st1)
    ∧ deployments (history calls) !! nextId (history calls) = None
    ∧ deployments st1 !! nextId (history calls)
      = Some (DeploymentDoc.mk user (CreateDeploymentArgs.serverId args)
                (CreateDeploymentArgs.name args) (CreateDeploymentArgs.domain args)
                DeploymentStatus.deploying (CreateDeploymentArgs.wordpressAdminUser args)
                (CreateDeploymentArgs.wordpressAdminPass args)
                (CreateDeploymentArgs.enableSsl args) (now ctx) None)
    ∧ scheduled st1
      = scheduled (history calls) ++ [mkJob 0 (JDeployWordPress (nextId (history calls)))]
    ∧ run_job ctx (JDeployWordPress (nextId (history calls))) (mkWorld st1 net [] evs)
      = (Ok tt, w2)
    ∧ answer (Deployments.getDeployment ctx (nextId (history calls))) (db w2)
      = Ok (Some (DeploymentView.mk (nextId (history calls))
                    (CreateDeploymentArgs.serverId args)
                    (Deployments.serverName (Some server))
                    (CreateDeploymentArgs.name args) (CreateDeploymentArgs.domain args)
                    DeploymentStatus.running (CreateDeploymentArgs.wordpressAdminUser args)
                    (CreateDeploymentArgs.enableSsl args) (now ctx) None)).
Proof.
  intros Hu Hk Hown Hv Hs Hmine Hready Hinstalled.
  pose proof (stored_credential_history _ _ _ _ Hk Hown) as Hstored.
  set (deployment :=
         DeploymentDoc.mk user (CreateDeploymentArgs.serverId args)
           (CreateDeploymentArgs.name args) (CreateDeploymentArgs.domain args)
           DeploymentStatus.deploying (CreateDeploymentArgs.wordpressAdminUser args)
           (CreateDeploymentArgs.wordpressAdminPass args)
           (CreateDeploymentArgs.enableSsl args) (now ctx) None).
  eexists _, _. split.
  { rewrite (createDeployment_on ctx user kid k args server) by done.
    by rewrite Hready, Hinstalled, Hv. }
  split.
  { destruct (deployments (history calls) !! nextId (history calls)) eqn:E; [|done].
    apply (deployments_fresh _ (consistent_history calls)) in E. lia. }
  split; [simpl; apply lookup_insert_eq|]. split; [done|]. split.
  { simpl. rewrite (deployWordPress_owner _ _ deployment); simpl;
      [done|done|apply lookup_insert_eq|done]. }
  unfold answer.
  erewrite (getDeployment_owner _ _ _
              (Deployments.updates (Deployments.running_args _) deployment)); simpl;
    [by rewrite Hs|done|apply lookup_insert_eq].
Qed.

Lemma createDeployment_then_deployWordPress_witness :
  ∃ st1 w2,
    Deployments.createDeployment alice
      (CreateDeploymentArgs.mk 1 "shop" (Some "shop.example.org") "admin" "pw" true)
      (history alice_deploys_site) = Ok (3, st1)
    ∧ deployments (history alice_deploys_site) !! 3 = None
    ∧ deployments st1 !! 3
      = Some (DeploymentDoc.mk "alice" 1 "shop" (Some "shop.example.org")
                DeploymentStatus.deploying "admin" "pw" true (now alice) None)
    ∧ scheduled st1 = scheduled (history alice_deploys_site) ++ [mkJob 0 (JDeployWordPress 3)]
    ∧ run_job alice (JDeployWordPress 3) (mkWorld st1 (fun _ => None) [] []) = (Ok tt, w2)
    ∧ answer (Deployments.getDeployment alice 3) (db w2)
      = Ok (Some (DeploymentView.mk 3 1 "web-1" "shop" (Some "shop.example.org")
                    DeploymentStatus.running "admin" true (now alice) None)).
Proof.
  apply (createDeployment_then_deployWordPress alice_deploys_site alice "alice" 0
           alice_credential alice_server
           (CreateDeploymentArgs.mk 1 "shop" (Some "shop.example.org") "admin" "pw" true)
           (fun _ => None) []).
  - reflexivity.
  - vm_compute. reflexivity.
  - reflexivity.
  - reflexivity.
  - vm_compute. reflexivity.
  - reflexivity.
  - reflexivity.
  - reflexivity.
Defined.
(** ** Records of somebody else *)

(** X11: to anyone but its owner a server is as good as absent: [getServer],
    [updateServerStatus], [deleteServer], [createDeployment] and
    [getServerDeployments] answer on it exactly what they answer when the
    record is not in the store, so their answers do not tell whether the id
    names a server of another user. *)
Theorem foreign_server_looks_missing ctx st serverId server status ipAddress hetznerServerId
    errorMessage dokployInstalled name domain wordpressAdminUser wordpressAdminPass enableSsl :
  servers st !! serverId = Some server →
  auth_user ctx ≠ Some (ServerDoc.userId server) →
  let st0 := without_server serverId st in
  let status_args := UpdateServerStatusArgs.mk serverId status ipAddress hetznerServerId
                       errorMessage dokployInstalled in
  let site_args := CreateDeploymentArgs.mk serverId name domain wordpressAdminUser
                     wordpressAdminPass enableSsl in
  answer (Servers.getServer ctx serverId) st = answer (Servers.getServer ctx serverId) st0
  ∧ answer (Servers.updateServerStatus ctx status_args) st
    = answer (Servers.updateServerStatus ctx status_args) st0
  ∧ answer (Servers.deleteServer ctx serverId) st
    = answer (Servers.deleteServer ctx serverId) st0
  ∧ answer (Deployments.createDeployment ctx site_args) st
    = answer (Deployments.createDeployment ctx site_args) st0
  ∧ answer (Deployments.getServerDeployments ctx serverId) st
    = answer (Deployments.getServerDeployments ctx serverId) st0.
Proof.
  intros Hs Hwho. simpl.
  unfold answer, without_server, Servers.getServer, Servers.updateServerStatus,
    Servers.deleteServer, Deployments.createDeployment, Deployments.getServerDeployments.
  autounfold with handlers.
  destruct (auth_user ctx) as [user|] eqn:Hu; simpl; [|done].
  rewrite Hs, lookup_delete_eq.
  destruct (decide (ServerDoc.userId server = user)); [congruence|done].
Qed.

Lemma foreign_server_looks_missing_witness :
  answer (Servers.getServer bob 1) (history alice_deploys_site)
  = answer (Servers.getServer bob 1) (without_server 1 (history alice_deploys_site))
  ∧ answer (Servers.updateServerStatus bob
              (UpdateServerStatusArgs.mk 1 ServerStatus.error None None None None))
           (history alice_deploys_site)
    = answer (Servers.updateServerStatus bob
                (UpdateServerStatusArgs.mk 1 ServerStatus.error None None None None))
             (without_server 1 (history alice_deploys_site))
  ∧ answer (Servers.deleteServer bob 1) (history alice_deploys_site)
    = answer (Servers.deleteServer bob 1) (without_server 1 (history alice_deploys_site))
  ∧ answer (Deployments.createDeployment bob
              (CreateDeploymentArgs.mk 1 "shop" None "admin" "pw" false))
           (history alice_deploys_site)
    = answer (Deployments.createDeployment bob
                (CreateDeploymentArgs.mk 1 "shop" None "admin" "pw" false))
             (without_server 1 (history alice_deploys_site))
  ∧ answer (Deployments.getServerDeployments bob 1) (history alice_deploys_site)
    = answer (Deployments.getServerDeployments bob 1)
             (without_server 1 (history alice_deploys_site)).
Proof.
  apply (foreign_server_looks_missing bob (history alice_deploys_site) 1 alice_server).
  - vm_compute. reflexivity.
  - discriminate.
Defined.

(** X12: the same for a deployment: [getDeployment],
    [updateDeploymentStatus] and [deleteDeployment] answer anyone but the
    owner as if the record were not there. *)
Theorem foreign_deployment_looks_missing ctx st deploymentId deployment status errorMessage :
  deployments st !! deploymentId = Some deployment →
  auth_user ctx ≠ Some (DeploymentDoc.userId deployment) →
  let st0 := without_deployment deploymentId st in
  let status_args := UpdateDeploymentStatusArgs.mk deploymentId status errorMessage in
  answer (Deployments.getDeployment ctx deploymentId) st
  = answer (Deployments.getDeployment ctx deploymentId) st0
  ∧ answer (Deployments.updateDeploymentStatus ctx status_args) st
    = answer (Deployments.updateDeploymentStatus ctx status_args) st0
  ∧ answer (Deployments.deleteDeployment ctx deploymentId) st
    = answer (Deployments.deleteDeployment ctx deploymentId) st0.
Proof.
  intros Hd Hwho. simpl.
  unfold answer, without_deployment, Deployments.getDeployment,
    Deployments.updateDeploymentStatus, Deployments.deleteDeployment.
  autounfold with handlers.
  destruct (auth_user ctx) as [user|] eqn:Hu; simpl; [|done].
  rewrite Hd, lookup_delete_eq.
  destruct (decide (DeploymentDoc.userId deployment = user)); [congruence|done].
Qed.

Lemma foreign_deployment_looks_missing_witness :
  answer (Deployments.getDeployment bob 2) (history alice_deploys_site)
  = answer (Deployments.getDeployment bob 2)
           (without_deployment 2 (history alice_deploys_site))
  ∧ answer (Deployments.updateDeploymentStatus bob
              (UpdateDeploymentStatusArgs.mk 2 DeploymentStatus.stopped None))
           (history alice_deploys_site)
    = answer (Deployments.updateDeploymentStatus bob
                (UpdateDeploymentStatusArgs.mk 2 DeploymentStatus.stopped None))
             (without_deployment 2 (history alice_deploys_site))
  ∧ answer (Deployments.deleteDeployment bob 2) (history alice_deploys_site)
    = answer (Deployments.deleteDeployment bob 2)
             (without_deployment 2 (history alice_deploys_site)).
Proof.
  apply (foreign_deployment_looks_missing bob (history alice_deploys_site) 2
           alice_deployment).
  - vm_compute. reflexivity.
  - discriminate.
Defined.
(** ** Deleting a server that carries sites *)



(** ** A deployment that fails *)

(** X14: when the platform fails the read or the write of [deployWordPress]
    and lets the call of the [catch] through, the job ends without error,
    the site is marked [error] with the message of the failure, "Unknown
    error" when what was thrown is no [Error], and nothing is queued: the
    site stays in [error], with its record. *)
Theorem deployWordPress_failure_recorded ctx deploymentId deployment w e :
  auth_user ctx = Some (DeploymentDoc.userId deployment) →
  deployments (db w) !! deploymentId = Some deployment →
  faults w = [Some e] ∨ faults w = [None; Some e] →
  (Deployments.deployWordPress ctx deploymentId w).1 = Ok tt
  ∧ deployments (db (Deployments.deployWordPress ctx deploymentId w).2) !! deploymentId
    = Some (Deployments.updates (Deployments.error_args deploymentId e) deployment)
  ∧ deployment_status (db (Deployments.deployWordPress ctx deploymentId w).2) deploymentId
    = Some DeploymentStatus.error
  ∧ (DeploymentDoc.errorMessage
       <$> deployments (db (Deployments.deployWordPress ctx deploymentId w).2) !! deploymentId)
    = Some (Some (error_message e))
  ∧ scheduled (db (Deployments.deployWordPress ctx deploymentId w).2) = scheduled (db w).
Proof.
  intros Hu Hd Hf.
  assert (∀ st, deployments st = deployments (db w) →
            Deployments.updateDeploymentStatus ctx (Deployments.error_args deploymentId e) st
            = Ok (tt, put_rows tbl_deployments
                        (<[deploymentId := Deployments.updates
                                            (Deployments.error_args deploymentId e) deployment]>
                           (deployments st)) st)) as Hwrite.
  { intros st Hst. apply updateDeploymentStatus_owner; [done|]. simpl. by rewrite Hst. }
  unfold deployment_status.
  destruct Hf as [Hf|Hf]; open_action; rewrite Hf; simpl.
  - rewrite Hwrite by done. simpl. rewrite lookup_insert_eq. done.
  - rewrite (getDeployment_owner _ _ _ deployment) by done. simpl.
    rewrite Hwrite by done. simpl. rewrite lookup_insert_eq. done.
Qed.

Lemma deployWordPress_failure_recorded_witness :
  (Deployments.deployWordPress alice 2 (alice_site_world [Some NotAnError])).1 = Ok tt
  ∧ deployments (db (Deployments.deployWordPress alice 2
                       (alice_site_world [Some NotAnError])).2) !! 2
    = Some (Deployments.updates (Deployments.error_args 2 NotAnError) alice_deployment)
  ∧ deployment_status (db (Deployments.deployWordPress alice 2
                             (alice_site_world [Some NotAnError])).2) 2
    = Some DeploymentStatus.error
  ∧ (DeploymentDoc.errorMessage
       <$> deployments (db (Deployments.deployWordPress alice 2
                              (alice_site_world [Some NotAnError])).2) !! 2)
    = Some (Some (error_message NotAnError))
  ∧ scheduled (db (Deployments.deployWordPress alice 2
                     (alice_site_world [Some NotAnError])).2)
    = scheduled (db (alice_site_world [Some NotAnError])).
Proof.
  apply (deployWordPress_failure_recorded alice 2 alice_deployment
           (alice_site_world [Some NotAnError]) NotAnError).
  - reflexivity.
  - vm_compute. reflexivity.
  - left. reflexivity.
Defined.
(** ** Credentials *)

(** In a reachable store [.unique()] on the credentials of a user never
    throws: it finds the one document of the user, or none. *)
Lemma unique_credential calls user :
  ∃ found,
    unique tbl_apiKeys (λ d, ApiKeysDoc.userId d = user) (history calls)
    = Ok (found, history calls)
    ∧ match found with
      | Some p => apiKeys (history calls) !! p.1 = Some p.2 ∧ ApiKeysDoc.userId p.2 = user
      | None => ∀ kid k, apiKeys (history calls) !! kid = Some k → ApiKeysDoc.userId k ≠ user
      end.
Proof.
  unfold unique, collect, bind. simpl.
  destruct (map_to_list _) as [|p [|q rest]] eqn:E.
  - exists None. split; [done|]. intros kid k Hk. exact (nobody_found _ _ E kid k Hk).
  - exists (Some p). split; [done|]. by apply the_one_found in E.
  - exfalso.
    pose proof (NoDup_fst_map_to_list
                  (filter (λ kd : nat * ApiKeysDoc.t, ApiKeysDoc.userId kd.2 = user)
                          (apiKeys (history calls)))) as Hnd.
    rewrite E in Hnd. simpl in Hnd. apply NoDup_cons in Hnd as [Hnd _]. apply Hnd.
    assert (p ∈ map_to_list (filter (λ kd : nat * ApiKeysDoc.t, ApiKeysDoc.userId kd.2 = user)
                               (apiKeys (history calls)))) as Hp by (rewrite E; set_solver).
    assert (q ∈ map_to_list (filter (λ kd : nat * ApiKeysDoc.t, ApiKeysDoc.userId kd.2 = user)
                               (apiKeys (history calls)))) as Hq by (rewrite E; set_solver).
    destruct p as [i x], q as [j y].
    apply elem_of_map_to_list, map_lookup_filter_Some in Hp as [Hp Hpu].
    apply elem_of_map_to_list, map_lookup_filter_Some in Hq as [Hq Hqu].
    simpl in *.
    assert (i = j) as -> by
      (eapply (credentials_unique _ (one_credential_history calls)); [done..|congruence]).
    left.
Qed.

Lemma getUserApiKeys_stored ctx user kid k st :
  auth_user ctx = Some user →
  stored_credential st user kid k →
  ApiKeys.getUserApiKeys ctx st
  = Ok (Some (ApiKeysStatus.mk kid (truthy (ApiKeysDoc.hetznerApiKey k))
                (truthy (ApiKeysDoc.dokployApiKey k)) (ApiKeysDoc.dokployUrl k)
                (ApiKeysDoc.isHetznerValid k) (ApiKeysDoc.isDokployValid k)
                (ApiKeysDoc.lastValidated k)), st).
Proof.
  intros Hu Hk. unfold ApiKeys.getUserApiKeys, requireUser, getAuthUser. rewrite Hu.
  unfold bind at 1. simpl. unfold bind at 1. by rewrite (unique_stored _ _ _ _ Hk).
Qed.

Lemma getDecryptedApiKeys_stored ctx user kid k st :
  stored_credential st user kid k →
  ApiKeys.getDecryptedApiKeys ctx user st
  = Ok (Some (DecryptedApiKeys.mk (ApiKeysDoc.hetznerApiKey k) (ApiKeysDoc.dokployApiKey k)
                (ApiKeysDoc.dokployUrl k) (ApiKeysDoc.isHetznerValid k)
                (ApiKeysDoc.isDokployValid k)), st).
Proof.
  intros Hk. unfold ApiKeys.getDecryptedApiKeys.
  unfold bind at 1. by rewrite (unique_stored _ _ _ _ Hk).
Qed.

(** What [storeApiKeys] writes over what it found. *)
Lemma storeApiKeys_history calls ctx user args :
  auth_user ctx = Some user →
  ∃ kid h d u,
    ApiKeys.storeApiKeys ctx args (history calls)
    = Ok (kid, history (calls ++ [(ctx, MStoreApiKeys args)]))
    ∧ apiKeys (history (calls ++ [(ctx, MStoreApiKeys args)])) !! kid
      = Some (ApiKeysDoc.mk user h d u false false None)
    ∧ (∀ k, apiKeys (history calls) !! kid = Some k →
            ApiKeysDoc.userId k = user
            ∧ h = js_or (StoreApiKeysArgs.hetznerApiKey args) (ApiKeysDoc.hetznerApiKey k)
            ∧ d = js_or (StoreApiKeysArgs.dokployApiKey args) (ApiKeysDoc.dokployApiKey k)
            ∧ u = js_or (StoreApiKeysArgs.dokployUrl args) (ApiKeysDoc.dokployUrl k))
    ∧ (apiKeys (history calls) !! kid = None →
            kid = nextId (history calls)
            ∧ h = StoreApiKeysArgs.hetznerApiKey args
            ∧ d = StoreApiKeysArgs.dokployApiKey args
            ∧ u = StoreApiKeysArgs.dokployUrl args).
Proof.
  intros Hu.
  assert (∀ kid st', ApiKeys.storeApiKeys ctx args (history calls) = Ok (kid, st') →
            history (calls ++ [(ctx, MStoreApiKeys args)]) = st') as Hafter.
  { intros kid st' E. rewrite history_snoc. unfold after, commit, mutate, void, bind, ret.
    simpl. by rewrite E. }
  destruct (unique_credential calls user) as ([[kid k]|] & Huniq & Hfound); simpl in Hfound.
  - destruct Hfound as [Hk Hown].
    assert (ApiKeys.storeApiKeys ctx args (history calls)
            = Ok (kid, put_rows tbl_apiKeys
                         (<[kid := ApiKeysDoc.mk (ApiKeysDoc.userId k)
                                     (js_or (StoreApiKeysArgs.hetznerApiKey args)
                                            (ApiKeysDoc.hetznerApiKey k))
                                     (js_or (StoreApiKeysArgs.dokployApiKey args)
                                            (ApiKeysDoc.dokployApiKey k))
                                     (js_or (StoreApiKeysArgs.dokployUrl args)
                                            (ApiKeysDoc.dokployUrl k))
                                     false false None]> (apiKeys (history calls)))
                         (history calls))) as E.
    { unfold ApiKeys.storeApiKeys, requireUser, getAuthUser. rewrite Hu.
      unfold bind at 1. simpl. unfold try_catchH, bind at 1. rewrite Huniq. simpl.
      unfold bind, db_patch, ret. simpl. by rewrite Hk. }
    rewrite (Hafter _ _ E), E. eexists kid, _, _, _. split; [done|]. simpl.
    rewrite lookup_insert_eq. split; [by rewrite Hown|]. split; [|congruence].
    intros k' ?. by simplify_eq.
  - assert (ApiKeys.storeApiKeys ctx args (history calls)
            = Ok (nextId (history calls),
                  bump_id (put_rows tbl_apiKeys
                             (<[nextId (history calls) :=
                                  ApiKeysDoc.mk user (StoreApiKeysArgs.hetznerApiKey args)
                                    (StoreApiKeysArgs.dokployApiKey args)
                                    (StoreApiKeysArgs.dokployUrl args) false false None]>
                                (apiKeys (history calls)))
                             (history calls)))) as E.
    { unfold ApiKeys.storeApiKeys, requireUser, getAuthUser. rewrite Hu.
      unfold bind at 1. simpl. unfold try_catchH, bind at 1. by rewrite Huniq. }
    rewrite (Hafter _ _ E), E. eexists _, _, _, _. split; [done|]. simpl.
    rewrite lookup_insert_eq. split; [done|]. split; [|done].
    intros k Hk. apply (credentials_fresh _ (one_credential_history calls)) in Hk. lia.
Qed.
Lemma updateValidationStatus_stored ctx user kid k isHetznerValid isDokployValid st :
  auth_user ctx = Some user →
  stored_credential st user kid k →
  ApiKeys.updateValidationStatus ctx isHetznerValid isDokployValid st
  = Ok (tt, put_rows tbl_apiKeys
              (<[kid := ApiKeysDoc.mk (ApiKeysDoc.userId k) (ApiKeysDoc.hetznerApiKey k)
                          (ApiKeysDoc.dokployApiKey k) (ApiKeysDoc.dokployUrl k)
                          isHetznerValid isDokployValid (Some (now ctx))]> (apiKeys st)) st).
Proof.
  intros Hu Hk. unfold ApiKeys.updateValidationStatus, requireUser, getAuthUser. rewrite Hu.
  unfold bind at 1. simpl. unfold bind at 1. rewrite (unique_stored _ _ _ _ Hk). simpl.
  unfold db_patch. simpl. by destruct Hk as [-> _].
Qed.

Lemma storeApiKeys_existing ctx user kid k args st :
  auth_user ctx = Some user →
  stored_credential st user kid k →
  ApiKeys.storeApiKeys ctx args st
  = Ok (kid, put_rows tbl_apiKeys
               (<[kid := ApiKeysDoc.mk (ApiKeysDoc.userId k)
                           (js_or (StoreApiKeysArgs.hetznerApiKey args)
                                  (ApiKeysDoc.hetznerApiKey k))
                           (js_or (StoreApiKeysArgs.dokployApiKey args)
                                  (ApiKeysDoc.dokployApiKey k))
                           (js_or (StoreApiKeysArgs.dokployUrl args)
                                  (ApiKeysDoc.dokployUrl k))
                           false false None]> (apiKeys st)) st).
Proof.
  intros Hu Hk. unfold ApiKeys.storeApiKeys, requireUser, getAuthUser. rewrite Hu.
  unfold bind at 1. simpl. unfold try_catchH, bind at 1.
  rewrite (unique_stored _ _ _ _ Hk). simpl.
  unfold bind, db_patch, ret. simpl. by destruct Hk as [-> _].
Qed.


(** X15: for a caller with an identity [storeApiKeys] always goes through in
    a reachable store, and whatever it stores is stored as not validated:
    both flags are cleared and [lastValidated] is dropped, also when a
    validated credential was there.  Until [updateValidationStatus] is
    called the dashboard shows the setup as incomplete and [createServer]
    is refused. *)
Theorem storeApiKeys_resets_validation calls ctx user args name region :
  auth_user ctx = Some user →
  ∃ kid status,
    answer (ApiKeys.storeApiKeys ctx args) (history calls) = Ok kid
    ∧ answer (ApiKeys.getUserApiKeys ctx) (after (history calls) (ctx, MStoreApiKeys args))
      = Ok (Some status)
    ∧ ApiKeysStatus._id status = kid
    ∧ ApiKeysStatus.isHetznerValid status = false
    ∧ ApiKeysStatus.isDokployValid status = false
    ∧ ApiKeysStatus.lastValidated status = None
    ∧ DashboardPage.hasValidApiKeys (Some status) = false
    ∧ answer (Servers.createServer ctx name region)
             (after (history calls) (ctx, MStoreApiKeys args))
      = Throw (Error "Valid Hetzner API key required").
Proof.
  intros Hu. rewrite <- history_snoc.
  destruct (storeApiKeys_history calls ctx user args Hu) as (kid & h & d & u & E & Hk & _).
  pose proof (stored_credential_history _ user _ _ Hk eq_refl) as Hstored.
  eexists kid, _. unfold answer at 1. rewrite E. split; [done|].
  unfold answer. rewrite (getUserApiKeys_stored _ _ _ _ _ Hu Hstored).
  rewrite (createServer_refuses _ _ _ _ _ _ _ Hu Hstored eq_refl). done.
Qed.

Lemma storeApiKeys_resets_validation_witness :
  ∃ kid status,
    answer (ApiKeys.storeApiKeys alice (StoreApiKeysArgs.mk None (Some "dokploy-key-1") None))
           (history alice_deploys_site) = Ok kid
    ∧ answer (ApiKeys.getUserApiKeys alice)
             (after (history alice_deploys_site)
                    (alice, MStoreApiKeys (StoreApiKeysArgs.mk None (Some "dokploy-key-1") None)))
      = Ok (Some status)
    ∧ ApiKeysStatus._id status = kid
    ∧ ApiKeysStatus.isHetznerValid status = false
    ∧ ApiKeysStatus.isDokployValid status = false
    ∧ ApiKeysStatus.lastValidated status = None
    ∧ DashboardPage.hasValidApiKeys (Some status) = false
    ∧ answer (Servers.createServer alice "web-2" "hel1")
             (after (history alice_deploys_site)
                    (alice, MStoreApiKeys (StoreApiKeysArgs.mk None (Some "dokploy-key-1") None)))
      = Throw (Error "Valid Hetzner API key required").
Proof.
  apply (storeApiKeys_resets_validation alice_deploys_site alice "alice"
           (StoreApiKeysArgs.mk None (Some "dokploy-key-1") None) "web-2" "hel1").
  reflexivity.
Defined.

(** X16: over a credential that is there, [storeApiKeys] replaces only what
    was sent: a key or URL left out, or sent as the empty string, stays as
    stored, so no key can be cleared through it.  No second document is
    made, and [getDecryptedApiKeys], which asks for no identity, returns
    the keys exactly as they were sent. *)
Theorem storeApiKeys_keeps_what_is_not_sent calls ctx reader user kid k args :
  auth_user ctx = Some user →
  apiKeys (history calls) !! kid = Some k →
  ApiKeysDoc.userId k = user →
  answer (ApiKeys.storeApiKeys ctx args) (history calls) = Ok kid
  ∧ answer (ApiKeys.getDecryptedApiKeys reader user)
           (after (history calls) (ctx, MStoreApiKeys args))
    = Ok (Some (DecryptedApiKeys.mk
                  (js_or (StoreApiKeysArgs.hetznerApiKey args) (ApiKeysDoc.hetznerApiKey k))
                  (js_or (StoreApiKeysArgs.dokployApiKey args) (ApiKeysDoc.dokployApiKey k))
                  (js_or (StoreApiKeysArgs.dokployUrl args) (ApiKeysDoc.dokployUrl k))
                  false false))
  ∧ nextId (after (history calls) (ctx, MStoreApiKeys args)) = nextId (history calls)
  ∧ (StoreApiKeysArgs.hetznerApiKey args ∈ [None; Some ""] →
     ApiKeysDoc.hetznerApiKey
       <$> apiKeys (after (history calls) (ctx, MStoreApiKeys args)) !! kid
     = Some (ApiKeysDoc.hetznerApiKey k)).
Proof.
  intros Hu Hk Hown.
  pose proof (stored_credential_history _ _ _ _ Hk Hown) as Hstored.
  pose proof (storeApiKeys_existing ctx user kid k args _ Hu Hstored) as E.
  assert (after (history calls) (ctx, MStoreApiKeys args)
          = put_rows tbl_apiKeys
              (<[kid := ApiKeysDoc.mk (ApiKeysDoc.userId k)
                          (js_or (StoreApiKeysArgs.hetznerApiKey args)
                                 (ApiKeysDoc.hetznerApiKey k))
                          (js_or (StoreApiKeysArgs.dokployApiKey args)
                                 (ApiKeysDoc.dokployApiKey k))
                          (js_or (StoreApiKeysArgs.dokployUrl args)
                                 (ApiKeysDoc.dokployUrl k))
                          false false None]> (apiKeys (history calls))) (history calls)) as Hafter.
  { unfold after, commit, mutate, void, bind, ret. simpl. by rewrite E. }
  unfold answer at 1. rewrite E. split; [done|].
  assert (stored_credential (after (history calls) (ctx, MStoreApiKeys args)) user kid
            (ApiKeysDoc.mk (ApiKeysDoc.userId k)
               (js_or (StoreApiKeysArgs.hetznerApiKey args) (ApiKeysDoc.hetznerApiKey k))
               (js_or (StoreApiKeysArgs.dokployApiKey args) (ApiKeysDoc.dokployApiKey k))
               (js_or (StoreApiKeysArgs.dokployUrl args) (ApiKeysDoc.dokployUrl k))
               false false None)) as Hnew.
  { rewrite <- history_snoc. apply stored_credential_history; [|done].
    rewrite history_snoc, Hafter. simpl. apply lookup_insert_eq. }
  unfold answer. rewrite (getDecryptedApiKeys_stored _ _ _ _ _ Hnew). split; [done|].
  rewrite Hafter. simpl. split; [done|]. rewrite lookup_insert_eq. simpl.
  intros Hnone. f_equal. set_unfold. by destruct Hnone as [->|[->|[]]].
Qed.

Lemma storeApiKeys_keeps_what_is_not_sent_witness :
  answer (ApiKeys.storeApiKeys alice (StoreApiKeysArgs.mk (Some "") (Some "dokploy-key-1") None))
         (history alice_deploys_site) = Ok 0
  ∧ answer (ApiKeys.getDecryptedApiKeys anonymous "alice")
           (after (history alice_deploys_site)
                  (alice, MStoreApiKeys
                            (StoreApiKeysArgs.mk (Some "") (Some "dokploy-key-1") None)))
    = Ok (Some (DecryptedApiKeys.mk
                  (js_or (Some "") (ApiKeysDoc.hetznerApiKey alice_credential))
                  (js_or (Some "dokploy-key-1") (ApiKeysDoc.dokployApiKey alice_credential))
                  (js_or None (ApiKeysDoc.dokployUrl alice_credential))
                  false false))
  ∧ nextId (after (history alice_deploys_site)
                  (alice, MStoreApiKeys
                            (StoreApiKeysArgs.mk (Some "") (Some "dokploy-key-1") None)))
    = nextId (history alice_deploys_site)
  ∧ (Some "" ∈ [None; Some ""] →
     ApiKeysDoc.hetznerApiKey
       <$> apiKeys (after (history alice_deploys_site)
                          (alice, MStoreApiKeys
                                    (StoreApiKeysArgs.mk (Some "") (Some "dokploy-key-1") None)))
           !! 0
     = Some (ApiKeysDoc.hetznerApiKey alice_credential)).
Proof.
  apply (storeApiKeys_keeps_what_is_not_sent alice_deploys_site alice anonymous "alice" 0
           alice_credential (StoreApiKeysArgs.mk (Some "") (Some "dokploy-key-1") None)).
  - reflexivity.
  - vm_compute. reflexivity.
  - reflexivity.
Defined.

(** X17: the validation flags are whatever the caller of
    [updateValidationStatus] sends: no key is looked at and no provider
    asked.  Whatever was stored before, keys or none, after a call with
    [isHetznerValid] the caller's [createServer] goes through exactly when
    that flag was sent as [true], and the dashboard reports the setup
    complete exactly when both were. *)
Theorem validation_flags_are_the_callers calls ctx user args isHetznerValid isDokployValid
    name region :
  auth_user ctx = Some user →
  ∃ status,
    answer (ApiKeys.getUserApiKeys ctx)
           (history (calls ++ [(ctx, MStoreApiKeys args);
                               (ctx, MUpdateValidationStatus isHetznerValid isDokployValid)]))
    = Ok (Some status)
    ∧ ApiKeysStatus.isHetznerValid status = isHetznerValid
    ∧ ApiKeysStatus.isDokployValid status = isDokployValid
    ∧ ApiKeysStatus.lastValidated status = Some (now ctx)
    ∧ DashboardPage.hasValidApiKeys (Some status) = isHetznerValid && isDokployValid
    ∧ answer (Servers.createServer ctx name region)
             (history (calls ++ [(ctx, MStoreApiKeys args);
                                 (ctx, MUpdateValidationStatus isHetznerValid isDokployValid)]))
      = if isHetznerValid
        then Ok (nextId (history (calls ++ [(ctx, MStoreApiKeys args)])))
        else Throw (Error "Valid Hetzner API key required").
Proof.
  intros Hu.
  destruct (storeApiKeys_history calls ctx user args Hu) as (kid & h & d & u & _ & Hk & _).
  pose proof (stored_credential_history _ user _ _ Hk eq_refl) as Hstored.
  pose proof (updateValidationStatus_stored ctx user kid _ isHetznerValid isDokployValid _
                Hu Hstored) as E.
  set (calls1 := calls ++ [(ctx, MStoreApiKeys args)]) in *.
  assert (calls ++ [(ctx, MStoreApiKeys args);
                    (ctx, MUpdateValidationStatus isHetznerValid isDokployValid)]
          = calls1 ++ [(ctx, MUpdateValidationStatus isHetznerValid isDokployValid)]) as ->
    by (unfold calls1; by rewrite <- app_assoc).
  assert (apiKeys (history (calls1 ++ [(ctx, MUpdateValidationStatus isHetznerValid
                                               isDokployValid)])) !! kid
          = Some (ApiKeysDoc.mk user h d u isHetznerValid isDokployValid (Some (now ctx)))
          ∧ nextId (history (calls1 ++ [(ctx, MUpdateValidationStatus isHetznerValid
                                                 isDokployValid)]))
            = nextId (history calls1)) as [Hk2 Hn].
  { rewrite history_snoc. unfold after, commit, mutate. simpl. rewrite E. simpl.
    by rewrite lookup_insert_eq. }
  pose proof (stored_credential_history _ user _ _ Hk2 eq_refl) as Hstored2.
  eexists. unfold answer. rewrite (getUserApiKeys_stored _ _ _ _ _ Hu Hstored2). simpl.
  split; [done|]. split; [done|]. split; [done|]. split; [done|]. split; [done|].
  destruct isHetznerValid.
  - by rewrite (createServer_valid _ _ _ _ _ _ _ Hu Hstored2 eq_refl), Hn.
  - by rewrite (createServer_refuses _ _ _ _ _ _ _ Hu Hstored2 eq_refl).
Qed.

Lemma validation_flags_are_the_callers_witness :
  ∃ status,
    answer (ApiKeys.getUserApiKeys bob)
           (history [(bob, MStoreApiKeys (StoreApiKeysArgs.mk None None None));
                     (bob, MUpdateValidationStatus true true)])
    = Ok (Some status)
    ∧ ApiKeysStatus.isHetznerValid status = true
    ∧ ApiKeysStatus.isDokployValid status = true
    ∧ ApiKeysStatus.lastValidated status = Some (now bob)
    ∧ DashboardPage.hasValidApiKeys (Some status) = true
    ∧ answer (Servers.createServer bob "shop" "nbg1")
             (history [(bob, MStoreApiKeys (StoreApiKeysArgs.mk None None None));
                       (bob, MUpdateValidationStatus true true)])
      = Ok 1.
Proof.
  apply (validation_flags_are_the_callers [] bob "bob" (StoreApiKeysArgs.mk None None None)
           true true "shop" "nbg1").
  reflexivity.
Defined.

Lemma deleteApiKeys_stored ctx user kid k service st :
  auth_user ctx = Some user →
  stored_credential st user kid k →
  ApiKeys.deleteApiKeys ctx service st
  = Ok (tt, match default svc_all service with
            | svc_all => put_rows tbl_apiKeys (delete kid (apiKeys st)) st
            | svc_hetzner =>
                put_rows tbl_apiKeys
                  (<[kid := ApiKeysDoc.mk (ApiKeysDoc.userId k) None
                              (ApiKeysDoc.dokployApiKey k) (ApiKeysDoc.dokployUrl k)
                              false (ApiKeysDoc.isDokployValid k) None]> (apiKeys st)) st
            | svc_dokploy =>
                put_rows tbl_apiKeys
                  (<[kid := ApiKeysDoc.mk (ApiKeysDoc.userId k) (ApiKeysDoc.hetznerApiKey k)
                              None None (ApiKeysDoc.isHetznerValid k) false None]>
                     (apiKeys st)) st
            end).
Proof.
  intros Hu Hk. unfold ApiKeys.deleteApiKeys, requireUser, getAuthUser. rewrite Hu.
  unfold bind at 1. simpl. unfold bind at 1. rewrite (unique_stored _ _ _ _ Hk). simpl.
  destruct Hk as [Hk _].
  destruct (default svc_all service); unfold db_patch, db_delete; simpl; by rewrite Hk.
Qed.

Lemma getUserApiKeys_none ctx user st :
  auth_user ctx = Some user →
  (∀ kid k, apiKeys st !! kid = Some k → ApiKeysDoc.userId k ≠ user) →
  ApiKeys.getUserApiKeys ctx st = Ok (None, st).
Proof.
  intros Hu Hnone. unfold ApiKeys.getUserApiKeys, requireUser, getAuthUser. rewrite Hu.
  unfold bind at 1. simpl. unfold bind at 1, unique, collect, bind. simpl.
  replace (filter (λ kd : nat * ApiKeysDoc.t, ApiKeysDoc.userId kd.2 = user) (apiKeys st))
    with (∅ : gmap nat ApiKeysDoc.t).
  - by rewrite map_to_list_empty.
  - symmetry. apply map_eq. intros i. rewrite lookup_empty.
    apply map_lookup_filter_None. destruct (apiKeys st !! i) eqn:E; [right|by left].
    intros x [= <-]. simpl. eauto.
Qed.

(** X18: what [deleteApiKeys] leaves of a credential, as [getUserApiKeys]
    then shows it.  With no service, or "all", the document goes and the
    query answers [null]; with "hetzner" or "dokploy" the keys of that
    provider go with its flag and with [lastValidated], and the key, URL and
    flag of the other provider stay. *)
Theorem deleteApiKeys_by_service calls ctx user kid k service :
  auth_user ctx = Some user →
  apiKeys (history calls) !! kid = Some k →
  ApiKeysDoc.userId k = user →
  answer (ApiKeys.getUserApiKeys ctx) (after (history calls) (ctx, MDeleteApiKeys service))
  = Ok match default svc_all service with
       | svc_all => None
       | svc_hetzner =>
           Some (ApiKeysStatus.mk kid false (truthy (ApiKeysDoc.dokployApiKey k))
                   (ApiKeysDoc.dokployUrl k) false (ApiKeysDoc.isDokployValid k) None)
       | svc_dokploy =>
           Some (ApiKeysStatus.mk kid (truthy (ApiKeysDoc.hetznerApiKey k)) false None
                   (ApiKeysDoc.isHetznerValid k) false None)
       end.
Proof.
  intros Hu Hk Hown.
  pose proof (stored_credential_history _ _ _ _ Hk Hown) as Hstored.
  pose proof (deleteApiKeys_stored ctx user kid k service _ Hu Hstored) as E.
  assert (∀ k', apiKeys (after (history calls) (ctx, MDeleteApiKeys service)) !! kid = Some k' →
            ApiKeysDoc.userId k' = user →
            stored_credential (after (history calls) (ctx, MDeleteApiKeys service))
                              user kid k') as Hnew.
  { intros k' Hk' Hown'. rewrite <- history_snoc in *. by apply stored_credential_history. }
  assert (after (history calls) (ctx, MDeleteApiKeys service)
          = match default svc_all service with
            | svc_all => put_rows tbl_apiKeys (delete kid (apiKeys (history calls)))
                                  (history calls)
            | svc_hetzner =>
                put_rows tbl_apiKeys
                  (<[kid := ApiKeysDoc.mk (ApiKeysDoc.userId k) None
                              (ApiKeysDoc.dokployApiKey k) (ApiKeysDoc.dokployUrl k)
                              false (ApiKeysDoc.isDokployValid k) None]>
                     (apiKeys (history calls))) (history calls)
            | svc_dokploy =>
                put_rows tbl_apiKeys
                  (<[kid := ApiKeysDoc.mk (ApiKeysDoc.userId k) (ApiKeysDoc.hetznerApiKey k)
                              None None (ApiKeysDoc.isHetznerValid k) false None]>
                     (apiKeys (history calls))) (history calls)
            end) as Hafter.
  { unfold after, commit, mutate. simpl. by rewrite E. }
  unfold answer. destruct (default svc_all service) eqn:Es.
  - rewrite (getUserApiKeys_stored _ user kid
               (ApiKeysDoc.mk (ApiKeysDoc.userId k) None (ApiKeysDoc.dokployApiKey k)
                  (ApiKeysDoc.dokployUrl k) false (ApiKeysDoc.isDokployValid k) None));
      [done|done|].
    apply Hnew; [|done]. rewrite Hafter. simpl. apply lookup_insert_eq.
  - rewrite (getUserApiKeys_stored _ user kid
               (ApiKeysDoc.mk (ApiKeysDoc.userId k) (ApiKeysDoc.hetznerApiKey k) None None
                  (ApiKeysDoc.isHetznerValid k) false None));
      [done|done|].
    apply Hnew; [|done]. rewrite Hafter. simpl. apply lookup_insert_eq.
  - rewrite (getUserApiKeys_none _ user); [done|done|].
    rewrite Hafter. simpl. intros kid' k' [Hne Hk']%lookup_delete_Some Hown'.
    apply Hne. eapply (credentials_unique _ (one_credential_history calls)); [done..|congruence].
Qed.

Lemma deleteApiKeys_by_service_witness :
  answer (ApiKeys.getUserApiKeys alice)
         (after (history alice_deploys_site) (alice, MDeleteApiKeys (Some svc_dokploy)))
  = Ok (Some (ApiKeysStatus.mk 0 true false None true false None)).
Proof.
  apply (deleteApiKeys_by_service alice_deploys_site alice "alice" 0 alice_credential
           (Some svc_dokploy)).
  - reflexivity.
  - vm_compute. reflexivity.
  - reflexivity.
Defined.
(** ** Validation against the providers *)

Lemma check_result request unauthorized apiError label unreachable w :
  ∃ errors evs,
    ApiKeys.check request unauthorized apiError label unreachable w
    = (Ok (provider_accepts w request, errors),
       mkWorld (db w) (net w) (faults w) (events w ++ evs))
    ∧ provider_calls evs = [request]
    ∧ (errors = [] ↔ provider_accepts w request = true).
Proof.
  unfold ApiKeys.check, try_catch, abind, fetch, console_error, emit, aret, record_event,
    provider_accepts.
  destruct (net w request) as [[ok status]|]; simpl.
  - destruct ok; simpl; [|destruct (status =? 401)]; simpl;
      eexists _, [_]; (split; [done|]); split; done.
  - eexists _, [_; _]. rewrite <- app_assoc. split; [done|]. split; done.
Qed.

(** What the version of [validateApiKeys] that calls the providers returns,
    and what it leaves of the world. *)
Lemma validateApiKeys_outcome ctx args w :
  ∃ errors w',
    ApiKeys.validateApiKeys ctx args w
    = (Ok (ValidationResult.mk (hetzner_verdict w args) (dokploy_verdict w args) errors), w')
    ∧ db w' = db w
    ∧ faults w' = faults w
    ∧ provider_calls (events w')
      = provider_calls (events w)
        ++ (if asks_hetzner args then [hetzner_request args] else [])
        ++ (if asks_dokploy args then [dokploy_request args] else [])
    ∧ (errors = [] ↔ all_accepted w args = true).
Proof.
  unfold ApiKeys.validateApiKeys, abind, all_accepted, hetzner_verdict, dokploy_verdict.
  fold (asks_hetzner args) (asks_dokploy args) (hetzner_request args) (dokploy_request args).
  assert (∀ e1 e2 : list string, e1 ++ e2 = [] ↔ e1 = [] ∧ e2 = []) as Hnil.
  { intros e1 e2. split; [apply app_eq_nil|by intros [-> ->]]. }
  destruct (asks_hetzner args); simpl.
  - destruct (check_result (hetzner_request args)
                "Invalid Hetzner API key - authentication failed"
                "Failed to validate Hetzner API key - API error"
                "Hetzner API validation error:"
                "Failed to connect to Hetzner API" w) as (e1 & evs1 & -> & Hc1 & He1).
    destruct (asks_dokploy args); simpl.
    + match goal with
      | |- context [ApiKeys.check ?r ?a ?b ?c ?d ?w1] =>
          destruct (check_result r a b c d w1) as (e2 & evs2 & -> & Hc2 & He2)
      end.
      change (provider_accepts (mkWorld (db w) (net w) (faults w) (events w ++ evs1))
                (dokploy_request args))
        with (provider_accepts w (dokploy_request args)) in *.
      eexists _, _. split; [done|]. simpl. split; [done|]. split; [done|].
      split; [by rewrite !provider_calls_app, Hc1, Hc2, <- app_assoc|].
      rewrite Hnil, andb_true_iff, !bool_decide_eq_true, He1, He2. done.
    + eexists _, _. unfold aret. split; [done|]. simpl. split; [done|]. split; [done|].
      split; [by rewrite !provider_calls_app, Hc1|].
      rewrite app_nil_r, ?andb_true_iff, !bool_decide_eq_true, He1. tauto.
  - destruct (asks_dokploy args); simpl.
    + match goal with
      | |- context [ApiKeys.check ?r ?a ?b ?c ?d ?w1] =>
          destruct (check_result r a b c d w1) as (e2 & evs2 & -> & Hc2 & He2)
      end.
      change (provider_accepts (aret (false, []) w).2 (dokploy_request args))
        with (provider_accepts w (dokploy_request args)) in *.
      eexists _, _. split; [done|]. simpl. split; [done|]. split; [done|].
      split; [by rewrite !provider_calls_app, Hc2|].
      rewrite ?andb_true_iff, !bool_decide_eq_true, He2. tauto.
    + eexists _, _. unfold aret. split; [done|]. simpl. split; [done|]. split; [done|].
      split; [by rewrite app_nil_r|]. done.
Qed.

(** X19: [validateApiKeys], in the version that calls the providers, never
    throws and writes nothing.  A provider is asked exactly when its key is
    there (for Dokploy, the key and the URL), once, Hetzner first; a verdict
    is [true] exactly when the provider was asked and answered with a 2xx
    status; and the list of errors is empty exactly when every provider
    that was asked accepted, so a key that is left out is reported as not
    valid without an error. *)
Theorem validateApiKeys_verdicts ctx args w :
  ∃ errors w',
    ApiKeys.validateApiKeys ctx args w
    = (Ok (ValidationResult.mk (hetzner_verdict w args) (dokploy_verdict w args) errors), w')
    ∧ db w' = db w
    ∧ faults w' = faults w
    ∧ provider_calls (events w')
      = provider_calls (events w)
        ++ (if asks_hetzner args then [hetzner_request args] else [])
        ++ (if asks_dokploy args then [dokploy_request args] else [])
    ∧ (errors = [] ↔ all_accepted w args = true).
Proof. apply validateApiKeys_outcome. Qed.

Lemma endsWith_slash_app s : endsWith_slash (s +:+ "/") = true.
Proof.
  induction s as [|c s IH]; [done|]. simpl.
  destruct s as [|c' s]; [done|]. exact IH.
Qed.

Lemma dropLast_app s : dropLast (s +:+ "/") = s.
Proof.
  induction s as [|c s IH]; [done|]. simpl.
  destruct s as [|c' s]; [done|]. simpl in *. by rewrite IH.
Qed.

(** X20: one slash at the end of the Dokploy URL makes no difference to the
    request, and one is all that is taken off: the profile endpoint is
    asked under the URL as stored with its last slash removed. *)
Theorem dokployRequest_trailing_slash url key :
  ApiKeys.dokployRequest (url +:+ "/") key
  = Request.mk "GET" (url +:+ "/api/auth/profile") ("Bearer " +:+ key) "application/json"
  ∧ (endsWith_slash url = false →
     ApiKeys.dokployRequest (url +:+ "/") key = ApiKeys.dokployRequest url key).
Proof.
  unfold ApiKeys.dokployRequest. rewrite endsWith_slash_app, dropLast_app.
  split; [done|]. by intros ->.
Qed.
(** ** The API key form *)

Lemma on_credentials_preorder : PreOrder on_credentials.
Proof.
  split.
  - by intros st.
  - intros st1 st2 st3 (? & ? & ? & ? & ?) (? & ? & ? & ? & ?).
    unfold on_credentials. split_and!; congruence.
Qed.

Lemma storeApiKeys_frame ctx args st a st' :
  ApiKeys.storeApiKeys ctx args st = Ok (a, st') → on_credentials st st'.
Proof. unfold ApiKeys.storeApiKeys. run_handler; intros; by simplify_eq. Qed.

Lemma updateValidationStatus_frame ctx h d st a st' :
  ApiKeys.updateValidationStatus ctx h d st = Ok (a, st') → on_credentials st st'.
Proof. unfold ApiKeys.updateValidationStatus. run_handler; intros; by simplify_eq. Qed.

Lemma deleteApiKeys_frame ctx service st a st' :
  ApiKeys.deleteApiKeys ctx service st = Ok (a, st') → on_credentials st st'.
Proof. unfold ApiKeys.deleteApiKeys. run_handler; intros; by simplify_eq. Qed.

Lemma keeps_callAction {A} (R : relation Store) (a : Action A) `{!PreOrder R} :
  keeps R a → keeps R (callAction a).
Proof.
  intros Ha w. unfold callAction.
  destruct (faults w) as [|[e|] rest]; simpl; try reflexivity;
    match goal with |- context [a ?w1] => exact (Ha w1) end.
Qed.

Lemma keeps_validateApiKeys (R : relation Store) ctx args `{!PreOrder R} :
  keeps R (ApiKeys.validateApiKeys ctx args).
Proof.
  intros w. destruct (validateApiKeys_persists_nothing ctx args w) as [-> _]. reflexivity.
Qed.

Lemma handleSaveKeys_try_frame ctx s :
  keeps on_credentials (ApiKeyManagement.handleSaveKeys_try ctx s).
Proof.
  unfold ApiKeyManagement.handleSaveKeys_try.
  apply keeps_abind; [apply on_credentials_preorder| |intros validation].
  { apply keeps_callAction; [apply on_credentials_preorder|].
    apply keeps_validateApiKeys; apply on_credentials_preorder. }
  destruct (0 <? _); [apply keeps_aret; apply on_credentials_preorder|].
  apply keeps_abind; [apply on_credentials_preorder| |intros _].
  { apply keeps_platform_call; [apply on_credentials_preorder|]. apply storeApiKeys_frame. }
  apply keeps_abind; [apply on_credentials_preorder| |intros _].
  { apply keeps_platform_call; [apply on_credentials_preorder|]. apply updateValidationStatus_frame. }
  apply keeps_aret; apply on_credentials_preorder.
Qed.

(** What the [try] of [handleSaveKeys] returns when it returns: the errors
    of the validation, of which there is one at least, over the state as it
    found it, or that state with the form cleared. *)
Lemma handleSaveKeys_try_returns ctx s w s2 w' :
  ApiKeyManagement.handleSaveKeys_try ctx s w = (Ok s2, w') →
  (∃ errors, errors ≠ [] ∧ s2 = ApiKeyManagement.setValidationErrors errors s)
  ∨ s2 = ApiKeyManagement.setFormData Form.empty s.
Proof.
  unfold ApiKeyManagement.handleSaveKeys_try, abind.
  destruct (callAction _ w) as [[validation|e] w1]; [|done].
  destruct (0 <? length (ValidationResult.errors validation)) eqn:El.
  - intros [= <- <-]. left. eexists. split; [|done].
    intros Hnil. rewrite Hnil in El. done.
  - destruct (runMutation _ _ w1) as [[?|?] w2]; [|done].
    destruct (runMutation _ _ w2) as [[?|?] w3]; [|done].
    intros [= <- <-]. by right.
Qed.

(** X21: however [handleSaveKeys] goes, failing providers, failing calls, no
    session, it ends with [isValidating] off; the form is as it was or
    cleared, and it is cleared whenever no error is shown; and of the store
    only the credentials can have changed. *)
Theorem handleSaveKeys_settles ctx s w :
  ApiKeyManagement.isValidating (ApiKeyManagement.handleSaveKeys ctx s w).1 = false
  ∧ (ApiKeyManagement.formData (ApiKeyManagement.handleSaveKeys ctx s w).1
     = ApiKeyManagement.formData s
     ∨ ApiKeyManagement.formData (ApiKeyManagement.handleSaveKeys ctx s w).1 = Form.empty)
  ∧ (ApiKeyManagement.validationErrors (ApiKeyManagement.handleSaveKeys ctx s w).1 = [] →
     ApiKeyManagement.formData (ApiKeyManagement.handleSaveKeys ctx s w).1 = Form.empty)
  ∧ on_credentials (db w) (db (ApiKeyManagement.handleSaveKeys ctx s w).2).
Proof.
  unfold ApiKeyManagement.handleSaveKeys.
  set (s1 := ApiKeyManagement.setValidationErrors []
               (ApiKeyManagement.setIsValidating true s)).
  pose proof (handleSaveKeys_try_frame ctx s1 w) as Hframe.
  pose proof (handleSaveKeys_try_returns ctx s1 w) as Hret.
  destruct (ApiKeyManagement.handleSaveKeys_try ctx s1 w) as [[s2|e] w']; simpl in *.
  - destruct (Hret s2 w' eq_refl) as [(errors & Hne & ->)| ->]; simpl; auto.
    split; [done|]. split; [by left|]. done.
  - split; [done|]. split; [by left|]. done.
Qed.
(** [storeApiKeys] and then [updateValidationStatus], as [handleSaveKeys]
    calls them. *)
Lemma store_then_update calls ctx user args isHetznerValid isDokployValid :
  auth_user ctx = Some user →
  ∃ kid h d u st1 st2,
    ApiKeys.storeApiKeys ctx args (history calls) = Ok (kid, st1)
    ∧ ApiKeys.updateValidationStatus ctx isHetznerValid isDokployValid st1 = Ok (tt, st2)
    ∧ stored_credential st2 user kid
        (ApiKeysDoc.mk user h d u isHetznerValid isDokployValid (Some (now ctx)))
    ∧ (∀ k, apiKeys (history calls) !! kid = Some k →
            h = js_or (StoreApiKeysArgs.hetznerApiKey args) (ApiKeysDoc.hetznerApiKey k)
            ∧ d = js_or (StoreApiKeysArgs.dokployApiKey args) (ApiKeysDoc.dokployApiKey k)
            ∧ u = js_or (StoreApiKeysArgs.dokployUrl args) (ApiKeysDoc.dokployUrl k))
    ∧ (∀ kid' k, apiKeys (history calls) !! kid' = Some k → ApiKeysDoc.userId k = user →
                 kid' = kid).
Proof.
  intros Hu.
  destruct (storeApiKeys_history calls ctx user args Hu)
    as (kid & h & d & u & Estore & Hk & Hold & Hnew).
  pose proof (stored_credential_history _ user _ _ Hk eq_refl) as Hstored.
  pose proof (updateValidationStatus_stored ctx user kid _ isHetznerValid isDokployValid _
                Hu Hstored) as E.
  exists kid, h, d, u, (history (calls ++ [(ctx, MStoreApiKeys args)])),
    (history ((calls ++ [(ctx, MStoreApiKeys args)])
              ++ [(ctx, MUpdateValidationStatus isHetznerValid isDokployValid)])).
  split; [done|]. split; [|split; [|split]].
  - rewrite E. do 2 f_equal. rewrite (history_snoc (calls ++ _)).
    unfold after, commit, mutate. simpl. by rewrite E.
  - apply stored_credential_history; [|done].
    rewrite history_snoc. unfold after, commit, mutate. simpl. rewrite E. simpl.
    apply lookup_insert_eq.
  - intros k Hk'. by destruct (Hold k Hk') as (_ & ? & ? & ?).
  - intros kid' k Hk' Hown.
    destruct (apiKeys (history calls) !! kid) as [k0|] eqn:E0.
    + destruct (Hold k0 eq_refl) as (Hown0 & _).
      eapply (credentials_unique _ (one_credential_history calls)); [done..|congruence].
    + exfalso.
      destruct (unique_credential calls user) as ([[kid1 k1]|] & Huniq & Hfound);
        simpl in Hfound.
      * destruct Hfound as [Hk1 Hown1].
        pose proof (storeApiKeys_existing ctx user kid1 k1 args _ Hu
                      (stored_credential_history _ _ _ _ Hk1 Hown1)) as E1.
        rewrite E1 in Estore. by simplify_eq.
      * by eapply Hfound.
Qed.

Lemma callAction_quiet {A} (a : Action A) w :
  faults w = [] → callAction a w = a w.
Proof. intros Hf. unfold callAction. rewrite Hf. simpl. rewrite <- Hf. by destruct w. Qed.

(** The run of [handleSaveKeys] for a caller with a session, on a reachable
    store, when the platform fails no call. *)
Lemma handleSaveKeys_quiet calls ctx user s w :
  auth_user ctx = Some user →
  db w = history calls →
  faults w = [] →
  let args := form_args (ApiKeyManagement.formData s) in
  let keys := StoreApiKeysArgs.mk (ValidateApiKeysArgs.hetznerApiKey args)
                                  (ValidateApiKeysArgs.dokployApiKey args)
                                  (ValidateApiKeysArgs.dokployUrl args) in
  if all_accepted w args
  then
    ∃ kid h d u,
      (ApiKeyManagement.handleSaveKeys ctx s w).1 = ApiKeyManagement.mkState Form.empty false []
      ∧ stored_credential (db (ApiKeyManagement.handleSaveKeys ctx s w).2) user kid
          (ApiKeysDoc.mk user h d u (hetzner_verdict w args) (dokploy_verdict w args)
                         (Some (now ctx)))
      ∧ (∀ k, apiKeys (history calls) !! kid = Some k →
              h = js_or (StoreApiKeysArgs.hetznerApiKey keys) (ApiKeysDoc.hetznerApiKey k)
              ∧ d = js_or (StoreApiKeysArgs.dokployApiKey keys) (ApiKeysDoc.dokployApiKey k)
              ∧ u = js_or (StoreApiKeysArgs.dokployUrl keys) (ApiKeysDoc.dokployUrl k))
      ∧ (∀ kid' k, apiKeys (history calls) !! kid' = Some k → ApiKeysDoc.userId k = user →
                   kid' = kid)
  else
    ∃ errors,
      errors ≠ []
      ∧ (ApiKeyManagement.handleSaveKeys ctx s w).1
        = ApiKeyManagement.mkState (ApiKeyManagement.formData s) false errors
      ∧ db (ApiKeyManagement.handleSaveKeys ctx s w).2 = db w.
Proof.
  intros Hu Hdb Hf. cbv zeta.
  set (args := form_args (ApiKeyManagement.formData s)).
  unfold ApiKeyManagement.handleSaveKeys, ApiKeyManagement.handleSaveKeys_try, abind.
  change (ApiKeyManagement.formData
            (ApiKeyManagement.setValidationErrors []
               (ApiKeyManagement.setIsValidating true s)))
    with (ApiKeyManagement.formData s).
  change (ValidateApiKeysArgs.mk
            (or_undefined (Form.hetznerApiKey (ApiKeyManagement.formData s)))
            (or_undefined (Form.dokployApiKey (ApiKeyManagement.formData s)))
            (or_undefined (Form.dokployUrl (ApiKeyManagement.formData s))))
    with args.
  rewrite callAction_quiet by done.
  destruct (validateApiKeys_outcome ctx args w) as (errors & w1 & -> & Hdb1 & Hf1 & _ & Herr).
  cbv beta iota. unfold ValidationResult.errors, ValidationResult.hetznerValid,
    ValidationResult.dokployValid.
  destruct (all_accepted w args).
  - assert (errors = []) as -> by by apply Herr.
    change (0 <? length (@nil string)) with false. cbv iota.
    destruct (store_then_update calls ctx user
                (StoreApiKeysArgs.mk (ValidateApiKeysArgs.hetznerApiKey args)
                   (ValidateApiKeysArgs.dokployApiKey args)
                   (ValidateApiKeysArgs.dokployUrl args))
                (hetzner_verdict w args) (dokploy_verdict w args) Hu)
      as (kid & h & d & u & st1 & st2 & Estore & Eupdate & Hstored & Hold & Hone).
    unfold runMutation.
    erewrite platform_call_ok; [|congruence|rewrite Hdb1, Hdb; exact Estore].
    erewrite platform_call_ok; [|done|exact Eupdate]. simpl.
    eexists kid, h, d, u. done.
  - assert (errors ≠ []) as Hne.
    { intros ->. destruct Herr as [Herr _]. by specialize (Herr eq_refl). }
    destruct errors as [|e errors]; [done|]. simpl.
    eexists. split; [exact Hne|]. done.
Qed.
(** X22: what [handleSaveKeys] does for a caller with a session when the
    platform fails no call.  If a provider that was asked did not accept,
    nothing is stored, the form keeps what was typed and the errors are
    shown.  Otherwise the keys are stored, the flags of the credential are
    the two verdicts, a key that was left out counting as not valid, and the
    form is cleared with no error shown. *)
Theorem handleSaveKeys_stores_the_verdicts calls ctx user s w :
  auth_user ctx = Some user →
  db w = history calls →
  faults w = [] →
  if all_accepted w (form_args (ApiKeyManagement.formData s))
  then
    (ApiKeyManagement.handleSaveKeys ctx s w).1 = ApiKeyManagement.mkState Form.empty false []
    ∧ ∃ status,
        answer (ApiKeys.getUserApiKeys ctx) (db (ApiKeyManagement.handleSaveKeys ctx s w).2)
        = Ok (Some status)
        ∧ ApiKeysStatus.isHetznerValid status
          = hetzner_verdict w (form_args (ApiKeyManagement.formData s))
        ∧ ApiKeysStatus.isDokployValid status
          = dokploy_verdict w (form_args (ApiKeyManagement.formData s))
        ∧ ApiKeysStatus.lastValidated status = Some (now ctx)
  else
    db (ApiKeyManagement.handleSaveKeys ctx s w).2 = db w
    ∧ ApiKeyManagement.formData (ApiKeyManagement.handleSaveKeys ctx s w).1
      = ApiKeyManagement.formData s
    ∧ ApiKeyManagement.isValidating (ApiKeyManagement.handleSaveKeys ctx s w).1 = false
    ∧ ApiKeyManagement.validationErrors (ApiKeyManagement.handleSaveKeys ctx s w).1 ≠ [].
Proof.
  intros Hu Hdb Hf. pose proof (handleSaveKeys_quiet calls ctx user s w Hu Hdb Hf) as H.
  cbv zeta in H. destruct (all_accepted w _).
  - destruct H as (kid & h & d & u & Hs & Hstored & _). split; [done|].
    eexists. unfold answer. rewrite (getUserApiKeys_stored _ _ _ _ _ Hu Hstored). done.
  - destruct H as (errors & Hne & -> & ->). done.
Qed.

Lemma handleSaveKeys_stores_the_verdicts_witness :
  (ApiKeyManagement.handleSaveKeys alice hetzner_key_typed accepting_world).1
  = ApiKeyManagement.mkState Form.empty false []
  ∧ ∃ status,
      answer (ApiKeys.getUserApiKeys alice)
             (db (ApiKeyManagement.handleSaveKeys alice hetzner_key_typed accepting_world).2)
      = Ok (Some status)
      ∧ ApiKeysStatus.isHetznerValid status
        = hetzner_verdict accepting_world
            (form_args (ApiKeyManagement.formData hetzner_key_typed))
      ∧ ApiKeysStatus.isDokployValid status
        = dokploy_verdict accepting_world
            (form_args (ApiKeyManagement.formData hetzner_key_typed))
      ∧ ApiKeysStatus.lastValidated status = Some (now alice).
Proof.
  apply (handleSaveKeys_stores_the_verdicts alice_deploys_site alice "alice"
           hetzner_key_typed accepting_world); reflexivity.
Defined.

(** X23: saving one provider's key takes the validation of the other away.
    A caller whose credential is there types a Hetzner key and leaves the
    Dokploy key empty; Hetzner accepts.  No error is shown, the stored
    Dokploy key stays, and the credential is now marked not valid for
    Dokploy, whatever it was marked before: the dashboard no longer reports
    the setup complete. *)
Theorem saving_one_key_unvalidates_the_other calls ctx user kid k s w :
  auth_user ctx = Some user →
  db w = history calls →
  faults w = [] →
  apiKeys (history calls) !! kid = Some k →
  ApiKeysDoc.userId k = user →
  Form.hetznerApiKey (ApiKeyManagement.formData s) ≠ "" →
  Form.dokployApiKey (ApiKeyManagement.formData s) = "" →
  provider_accepts w (hetzner_request (form_args (ApiKeyManagement.formData s))) = true →
  ∃ status,
    ApiKeyManagement.validationErrors (ApiKeyManagement.handleSaveKeys ctx s w).1 = []
    ∧ answer (ApiKeys.getUserApiKeys ctx) (db (ApiKeyManagement.handleSaveKeys ctx s w).2)
      = Ok (Some status)
    ∧ status
      = ApiKeysStatus.mk kid true (truthy (ApiKeysDoc.dokployApiKey k))
          (js_or (or_undefined (Form.dokployUrl (ApiKeyManagement.formData s)))
                 (ApiKeysDoc.dokployUrl k))
          true false (Some (now ctx))
    ∧ DashboardPage.hasValidApiKeys (Some status) = false.
Proof.
  intros Hu Hdb Hf Hk Hown Hh Hd Haccepts.
  pose proof (handleSaveKeys_quiet calls ctx user s w Hu Hdb Hf) as H. cbv zeta in H.
  assert (asks_hetzner (form_args (ApiKeyManagement.formData s)) = true) as Hasks.
  { unfold asks_hetzner, form_args, or_undefined. simpl.
    destruct (decide _) as [|_]; [done|]. simpl.
    by destruct (Form.hetznerApiKey (ApiKeyManagement.formData s)). }
  assert (asks_dokploy (form_args (ApiKeyManagement.formData s)) = false) as Hnot.
  { unfold asks_dokploy, form_args, or_undefined. simpl. by rewrite Hd. }
  assert (hetzner_verdict w (form_args (ApiKeyManagement.formData s)) = true) as Hhv
    by (unfold hetzner_verdict; by rewrite Hasks, Haccepts).
  assert (dokploy_verdict w (form_args (ApiKeyManagement.formData s)) = false) as Hdv
    by (unfold dokploy_verdict; by rewrite Hnot).
  assert (all_accepted w (form_args (ApiKeyManagement.formData s)) = true) as Hall
    by (unfold all_accepted; by rewrite Hhv, Hdv, Hasks, Hnot).
  rewrite Hall, Hhv, Hdv in H.
  destruct H as (kid' & h & d & u & -> & Hstored & Hold & Hone).
  assert (kid = kid') as <- by eauto.
  destruct (Hold k Hk) as (-> & -> & ->). simpl in *.
  eexists. split; [done|]. unfold answer.
  rewrite (getUserApiKeys_stored _ _ _ _ _ Hu Hstored). simpl. split; [done|].
  assert (truthy (js_or (or_undefined (Form.hetznerApiKey (ApiKeyManagement.formData s)))
                        (ApiKeysDoc.hetznerApiKey k)) = true) as ->.
  { unfold js_or.
    change (truthy (or_undefined (Form.hetznerApiKey (ApiKeyManagement.formData s))))
      with (asks_hetzner (form_args (ApiKeyManagement.formData s))).
    rewrite Hasks. exact Hasks. }
  unfold or_undefined at 1. rewrite Hd. simpl. done.
Qed.

Lemma saving_one_key_unvalidates_the_other_witness :
  ∃ status,
    ApiKeyManagement.validationErrors
      (ApiKeyManagement.handleSaveKeys alice hetzner_key_typed accepting_world).1 = []
    ∧ answer (ApiKeys.getUserApiKeys alice)
             (db (ApiKeyManagement.handleSaveKeys alice hetzner_key_typed accepting_world).2)
      = Ok (Some status)
    ∧ status = ApiKeysStatus.mk 0 true false None true false (Some (now alice))
    ∧ DashboardPage.hasValidApiKeys (Some status) = false.
Proof.
  apply (saving_one_key_unvalidates_the_other alice_deploys_site alice "alice" 0
           alice_credential hetzner_key_typed accepting_world).
  - reflexivity.
  - reflexivity.
  - reflexivity.
  - vm_compute. reflexivity.
  - reflexivity.
  - discriminate.
  - reflexivity.
  - reflexivity.
Defined.

(** X24: [handleDeleteKeys] never throws: a deletion that fails is written
    to the console and shows nowhere in the component.  Declined at the
    prompt it calls nothing; confirmed, it can change the credentials and
    nothing else. *)
Theorem handleDeleteKeys_is_silent ctx service confirmed w :
  (ApiKeyManagement.handleDeleteKeys ctx service confirmed w).1 = Ok tt
  ∧ on_credentials (db w) (db (ApiKeyManagement.handleDeleteKeys ctx service confirmed w).2)
  ∧ (confirmed = false → (ApiKeyManagement.handleDeleteKeys ctx service confirmed w).2 = w).
Proof.
  unfold ApiKeyManagement.handleDeleteKeys. destruct confirmed; [|done].
  split; [|split; [|done]].
  - unfold try_catch, console_error, emit.
    by destruct (runMutation _ _ w) as [[[]|e] w'].
  - assert (keeps on_credentials
              (try_catch
                 (runMutation (MDeleteApiKeys (Some service))
                    (ApiKeys.deleteApiKeys ctx (Some service)))
                 (λ error, console_error "Failed to delete API keys:" error))) as Hkeeps.
    { apply keeps_try_catch; [apply on_credentials_preorder| |].
      + apply keeps_platform_call; [apply on_credentials_preorder|].
        apply deleteApiKeys_frame.
      + intros e. apply keeps_emit; apply on_credentials_preorder. }
    exact (Hkeeps w).
Qed.

(** X25: the dashboard and [createServer] read the same flags.  In a
    reachable store [createServer] is accepted exactly when the credential
    [getUserApiKeys] shows is marked valid for Hetzner; so whenever the
    dashboard reports the setup complete, [createServer] is accepted. *)
Theorem dashboard_ready_means_createServer_accepted calls ctx user shown name region :
  auth_user ctx = Some user →
  answer (ApiKeys.getUserApiKeys ctx) (history calls) = Ok shown →
  (answer (Servers.createServer ctx name region) (history calls)
   = Ok (nextId (history calls))
   ↔ ∃ status, shown = Some status ∧ ApiKeysStatus.isHetznerValid status = true)
  ∧ (DashboardPage.hasValidApiKeys shown = true →
     answer (Servers.createServer ctx name region) (history calls)
     = Ok (nextId (history calls))).
Proof.
  intros Hu Hshown.
  assert (answer (Servers.createServer ctx name region) (history calls)
          = Ok (nextId (history calls))
          ↔ ∃ status, shown = Some status ∧ ApiKeysStatus.isHetznerValid status = true) as Hiff.
  { destruct (unique_credential calls user) as ([[kid k]|] & _ & Hfound); simpl in Hfound.
    - destruct Hfound as [Hk Hown].
      pose proof (stored_credential_history _ _ _ _ Hk Hown) as Hstored.
      unfold answer in *. rewrite (getUserApiKeys_stored _ _ _ _ _ Hu Hstored) in Hshown.
      injection Hshown as <-.
      destruct (ApiKeysDoc.isHetznerValid k) eqn:Hv.
      + rewrite (createServer_valid _ _ _ _ _ _ _ Hu Hstored Hv). split; [eauto|done].
      + rewrite (createServer_refuses _ _ _ _ _ _ _ Hu Hstored Hv).
        split; [done|]. intros (status & [= <-] & Hs). simpl in Hs. congruence.
    - unfold answer in *. rewrite (getUserApiKeys_none _ _ _ Hu Hfound) in Hshown.
      injection Hshown as <-.
      rewrite (createServer_no_credential _ _ _ _ _ Hu Hfound).
      split; [done|]. by intros (status & [=] & _). }
  split; [done|]. intros Hready. apply Hiff. destruct shown as [status|]; [|done].
  exists status. split; [done|]. simpl in Hready. by apply andb_true_iff in Hready as [? _].
Qed.

Lemma dashboard_ready_means_createServer_accepted_witness :
  (answer (Servers.createServer alice "web-2" "hel1") (history alice_deploys_site) = Ok 3
   ↔ ∃ status, Some (ApiKeysStatus.mk 0 true false None true true (Some (now alice)))
               = Some status
               ∧ ApiKeysStatus.isHetznerValid status = true)
  ∧ (DashboardPage.hasValidApiKeys
       (Some (ApiKeysStatus.mk 0 true false None true true (Some (now alice)))) = true →
     answer (Servers.createServer alice "web-2" "hel1") (history alice_deploys_site) = Ok 3).
Proof.
  apply (dashboard_ready_means_createServer_accepted alice_deploys_site alice "alice"
           (Some (ApiKeysStatus.mk 0 true false None true true (Some (now alice))))
           "web-2" "hel1").
  - reflexivity.
  - vm_compute. reflexivity.
Defined.
Lemma truthy_js_or a b : truthy (js_or a b) = truthy a || truthy b.
Proof. unfold js_or. by destruct (truthy a) eqn:E. Qed.

(** The component state [handleSaveKeys] leaves: the form cleared and no
    error, or the form as typed and one error at least. *)
Lemma handleSaveKeys_state ctx s w :
  (ApiKeyManagement.handleSaveKeys ctx s w).1 = ApiKeyManagement.mkState Form.empty false []
  ∨ ∃ errors,
      errors ≠ []
      ∧ (ApiKeyManagement.handleSaveKeys ctx s w).1
        = ApiKeyManagement.mkState (ApiKeyManagement.formData s) false errors.
Proof.
  unfold ApiKeyManagement.handleSaveKeys.
  set (s1 := ApiKeyManagement.setValidationErrors []
               (ApiKeyManagement.setIsValidating true s)).
  pose proof (handleSaveKeys_try_returns ctx s1 w) as Hret.
  destruct (ApiKeyManagement.handleSaveKeys_try ctx s1 w) as [[s2|e] w']; simpl.
  - destruct (Hret s2 w' eq_refl) as [(errors & Hne & ->)| ->]; simpl; eauto.
  - right. eexists. split; [|done]. done.
Qed.

(** X30: the save button after [handleSaveKeys].  When no error is shown
    the form is empty and the button is disabled; when an error is shown the
    button is what it was before the click, the form being as typed; and
    the next keystroke through [handleInputChange] takes the errors off the
    screen and, if it typed anything, enables the button. *)
Theorem save_button_after_saving ctx s w field value :
  (ApiKeyManagement.validationErrors (ApiKeyManagement.handleSaveKeys ctx s w).1 = [] →
   ApiKeyManagement.saveDisabled (ApiKeyManagement.handleSaveKeys ctx s w).1 = true)
  ∧ (ApiKeyManagement.validationErrors (ApiKeyManagement.handleSaveKeys ctx s w).1 ≠ [] →
     ApiKeyManagement.saveDisabled (ApiKeyManagement.handleSaveKeys ctx s w).1
     = ApiKeyManagement.saveDisabled (ApiKeyManagement.setIsValidating false s))
  ∧ ApiKeyManagement.validationErrors
      (ApiKeyManagement.handleInputChange field value
         (ApiKeyManagement.handleSaveKeys ctx s w).1) = []
  ∧ (value ≠ "" →
     ApiKeyManagement.saveDisabled
       (ApiKeyManagement.handleInputChange field value
          (ApiKeyManagement.handleSaveKeys ctx s w).1) = false).
Proof.
  assert (∀ form errors, value ≠ "" →
            ApiKeyManagement.saveDisabled
              (ApiKeyManagement.handleInputChange field value
                 (ApiKeyManagement.mkState form false errors)) = false) as Htyped.
  { intros form errors Hv.
    unfold ApiKeyManagement.saveDisabled, ApiKeyManagement.hasUnsavedChanges.
    rewrite !truthy_js_or. destruct value as [|c value]; [done|].
    destruct field; simpl; by rewrite ?orb_true_r. }
  destruct (handleSaveKeys_state ctx s w) as [->|(errors & Hne & ->)]; simpl.
  - split; [done|]. split; [done|]. split; [done|]. apply Htyped.
  - split; [done|]. split; [done|]. split; [done|]. apply Htyped.
Qed.
(** ** Reading the logs *)

Lemma logs_fresh_after ctx m st : logs_fresh st → logs_fresh (after st (ctx, m)).
Proof.
  intros [Hl Hh].
  destruct m; open_mutation; split; intros id d; simpl;
    rewrite ?lookup_insert_Some; intros Hd;
    repeat match goal with
           | H : _ ∨ _ |- _ => destruct H as [[<- <-]|[_ H]]
           end;
    try lia;
    first [ apply Hl in Hd | apply Hh in Hd ]; lia.
Qed.

Lemma logs_fresh_history calls : logs_fresh (history calls).
Proof.
  induction calls as [|[ctx m] calls IH] using rev_ind.
  - split; intros id d; simpl; by rewrite lookup_empty.
  - rewrite history_snoc. by apply logs_fresh_after.
Qed.

Lemma index_after_total {D} (field : D → Z) : Total (index_after field).
Proof. intros a b. unfold index_after. lia. Qed.

Lemma index_after_trans {D} (field : D → Z) : Transitive (index_after field).
Proof. intros a b c. unfold index_after. lia. Qed.

Lemma same_key_same_row {D} (l : list (nat * D)) x y :
  NoDup l.*1 → x ∈ l → y ∈ l → x.1 = y.1 → x = y.
Proof.
  induction l as [|z l IH]; [by intros _ ?%elem_of_nil|].
  rewrite fmap_cons, NoDup_cons. intros [Hz Hnd] Hx Hy Hk.
  apply elem_of_cons in Hx as [->|Hx], Hy as [->|Hy]; [done| | |by apply IH].
  - exfalso. apply Hz. rewrite Hk. by apply list_elem_of_fmap_2.
  - exfalso. apply Hz. rewrite <- Hk. by apply list_elem_of_fmap_2.
Qed.

(** The latest row comes first. *)
Lemma order_desc_head {D} (field : D → Z) (l : list (nat * D)) x :
  NoDup l.*1 → x ∈ l → (∀ y, y ∈ l → index_after field x y) →
  ∃ rest, order_desc field l = x :: rest.
Proof.
  intros Hnd Hx Hmax. unfold order_desc.
  pose proof (merge_sort_Permutation (index_after field) l) as Hperm.
  pose proof (index_after_total field) as Htotal.
  pose proof (Sorted_merge_sort (index_after field) l) as Hsorted.
  apply Sorted_StronglySorted in Hsorted; [|apply index_after_trans].
  destruct (merge_sort (index_after field) l) as [|h t].
  { rewrite <- Hperm in Hx. by apply elem_of_nil in Hx. }
  exists t. f_equal.
  assert (h ∈ l) as Hh by (rewrite <- Hperm; left).
  rewrite <- Hperm in Hx. apply elem_of_cons in Hx as [->|Hx]; [done|].
  apply StronglySorted_inv in Hsorted as [_ Hall].
  rewrite Forall_forall in Hall. specialize (Hall x Hx). specialize (Hmax h Hh).
  symmetry. eapply same_key_same_row; [done|by rewrite <- Hperm; right|done|].
  unfold index_after in *. lia.
Qed.

Lemma take_limit_or {A} limit d (x : A) rest :
  0 < d → ∃ rest', take (limit_or limit d) (x :: rest) = x :: rest'.
Proof.
  intros Hd. destruct limit as [[|n]|]; simpl; eauto; destruct d; eauto; lia.
Qed.

(** A row just inserted is the first of its index. *)
Lemma inserted_row_first {D} (P : D → Prop) `{!∀ d, Decision (P d)} (m : gmap nat D) id doc :
  (∀ i d, m !! i = Some d → i < id) → P doc →
  ∃ rest,
    order_desc (λ _, 0%Z) (map_to_list (filter (λ kd : nat * D, P kd.2) (<[id := doc]> m)))
    = (id, doc) :: rest.
Proof.
  intros Hfresh HP. apply order_desc_head.
  - apply NoDup_fst_map_to_list.
  - apply elem_of_map_to_list, map_lookup_filter_Some. by rewrite lookup_insert_eq.
  - intros [i d] [Hd _]%elem_of_map_to_list%map_lookup_filter_Some.
    right. split; [done|]. simpl.
    apply lookup_insert_Some in Hd as [[<- _]|[_ Hd]]; [done|]. apply Hfresh in Hd. lia.
Qed.

(** X26: the log is one for all users.  An entry written by
    [logSystemEvent] with no metadata, or with the empty object, which is
    all the validator of the argument lets through, by whichever caller,
    with an identity or without, is the first entry every caller with an
    identity gets from [getRecentLogs] for that level, with the writer's
    user id in it.  A category given next to the level is not looked at,
    and the entry comes back whatever the limit, 0 included. *)
Theorem newest_log_is_read_by_everyone calls writer reader user entry limit category :
  auth_user reader = Some user →
  LogSystemEventArgs.metadata entry = None ∨ LogSystemEventArgs.metadata entry = Some [] →
  ∃ rest,
    answer (Logging.getRecentLogs reader
              (RecentLogsArgs.mk limit (Some (LogSystemEventArgs.level entry)) category))
           (after (history calls) (writer, MLogSystemEvent entry))
    = Ok ((nextId (history calls),
           SystemLogDoc.mk (auth_user writer) (LogSystemEventArgs.level entry)
             (LogSystemEventArgs.category entry) (LogSystemEventArgs.message entry)
             (LogSystemEventArgs.metadata entry) (now writer)) :: rest).
Proof.
  intros Hu Hmeta.
  assert (Logging.valid_metadata (LogSystemEventArgs.metadata entry) = true
          ∧ Logging.sent <$> LogSystemEventArgs.metadata entry
            = LogSystemEventArgs.metadata entry)
    as [Hvalid Hsent] by (by destruct Hmeta as [-> | ->]).
  unfold answer, Logging.getRecentLogs, requireUser, getAuthUser. rewrite Hu.
  unfold after, commit, mutate, Logging.logSystemEvent, getAuthUser. simpl.
  rewrite Hvalid, Hsent.
  unfold bind, collect, ret. simpl.
  destruct (inserted_row_first
              (λ d, SystemLogDoc.level d = LogSystemEventArgs.level entry)
              (systemLogs (history calls)) (nextId (history calls))
              (SystemLogDoc.mk (auth_user writer) (LogSystemEventArgs.level entry)
                 (LogSystemEventArgs.category entry) (LogSystemEventArgs.message entry)
                 (LogSystemEventArgs.metadata entry) (now writer)))
    as [rest ->]; [apply logs_fresh_history|done|].
  destruct (take_limit_or limit 50
              (nextId (history calls),
               SystemLogDoc.mk (auth_user writer) (LogSystemEventArgs.level entry)
                 (LogSystemEventArgs.category entry) (LogSystemEventArgs.message entry)
                 (LogSystemEventArgs.metadata entry) (now writer)) rest) as [rest' ->]; [lia|].
  eauto.
Qed.

Lemma newest_log_is_read_by_everyone_witness :
  ∃ rest,
    answer (Logging.getRecentLogs alice
              (RecentLogsArgs.mk (Some 0) (Some LogLevel.warning) (Some "billing")))
           (after (history bob_comes_and_goes)
                  (anonymous,
                   MLogSystemEvent
                     (LogSystemEventArgs.mk LogLevel.warning "server" "disk almost full"
                        (Some []))))
    = Ok ((nextId (history bob_comes_and_goes),
           SystemLogDoc.mk None LogLevel.warning "server" "disk almost full" (Some [])
                           (now anonymous)) :: rest).
Proof.
  apply (newest_log_is_read_by_everyone bob_comes_and_goes anonymous alice "alice"
           (LogSystemEventArgs.mk LogLevel.warning "server" "disk almost full" (Some []))
           (Some 0) (Some "billing")).
  - reflexivity.
  - right. reflexivity.
Defined.



(** X28: a health check that did not fail, recorded by [recordHealthCheck],
    is the first that [getResourceHealthStatus] returns for its resource,
    with the time of the call; neither function asks who is calling, and
    nothing is written to the log. *)
Theorem recordHealthCheck_then_status calls writer reader check limit :
  RecordHealthCheckArgs.status check ≠ HealthStatus.error →
  systemLogs (after (history calls) (writer, MRecordHealthCheck check))
  = systemLogs (history calls)
  ∧ ∃ rest,
      answer (Logging.getResourceHealthStatus reader
                (ResourceHealthArgs.mk (RecordHealthCheckArgs.resourceType check)
                   (RecordHealthCheckArgs.resourceId check) limit))
             (after (history calls) (writer, MRecordHealthCheck check))
      = Ok (HealthCheckSummary.mk (nextId (history calls))
              (RecordHealthCheckArgs.status check) (RecordHealthCheckArgs.checkType check)
              (RecordHealthCheckArgs.responseTime check)
              (RecordHealthCheckArgs.errorMessage check) (now writer) :: rest).
Proof.
  intros Hstatus.
  assert (after (history calls) (writer, MRecordHealthCheck check)
          = bump_id (put_rows tbl_healthChecks
                       (<[nextId (history calls) :=
                            HealthCheckDoc.mk (RecordHealthCheckArgs.resourceType check)
                              (RecordHealthCheckArgs.resourceId check)
                              (RecordHealthCheckArgs.status check)
                              (RecordHealthCheckArgs.checkType check)
                              (RecordHealthCheckArgs.responseTime check)
                              (RecordHealthCheckArgs.errorMessage check) (now writer)]>
                          (healthChecks (history calls))) (history calls))) as ->.
  { unfold after, commit, mutate, Logging.recordHealthCheck, bind, db_insert, ret. simpl.
    by destruct (RecordHealthCheckArgs.status check). }
  split; [done|].
  unfold answer, Logging.getResourceHealthStatus, bind, collect, ret. simpl.
  destruct (inserted_row_first
              (λ d, HealthCheckDoc.resourceType d = RecordHealthCheckArgs.resourceType check
                    ∧ HealthCheckDoc.resourceId d = RecordHealthCheckArgs.resourceId check)
              (healthChecks (history calls)) (nextId (history calls))
              (HealthCheckDoc.mk (RecordHealthCheckArgs.resourceType check)
                 (RecordHealthCheckArgs.resourceId check)
                 (RecordHealthCheckArgs.status check)
                 (RecordHealthCheckArgs.checkType check)
                 (RecordHealthCheckArgs.responseTime check)
                 (RecordHealthCheckArgs.errorMessage check) (now writer)))
    as [rest ->]; [apply logs_fresh_history|done|].
  match goal with
  | |- context [take (limit_or limit 10) (?x :: rest)] =>
      destruct (take_limit_or limit 10 x rest) as [rest' ->]; [lia|]
  end.
  eauto.
Qed.

Lemma recordHealthCheck_then_status_witness :
  systemLogs (after (history alice_deploys_site)
                    (anonymous, MRecordHealthCheck
                                  (RecordHealthCheckArgs.mk ResourceType.server "1"
                                     HealthStatus.warning "http" (Some 950%Z) None)))
  = systemLogs (history alice_deploys_site)
  ∧ ∃ rest,
      answer (Logging.getResourceHealthStatus anonymous
                (ResourceHealthArgs.mk ResourceType.server "1" None))
             (after (history alice_deploys_site)
                    (anonymous, MRecordHealthCheck
                                  (RecordHealthCheckArgs.mk ResourceType.server "1"
                                     HealthStatus.warning "http" (Some 950%Z) None)))
      = Ok (HealthCheckSummary.mk (nextId (history alice_deploys_site)) HealthStatus.warning
              "http" (Some 950%Z) None (now anonymous) :: rest).
Proof.
  apply (recordHealthCheck_then_status alice_deploys_site anonymous anonymous
           (RecordHealthCheckArgs.mk ResourceType.server "1" HealthStatus.warning "http"
              (Some 950%Z) None) None).
  discriminate.
Defined.

(** ** The sites of a server *)

(** X29: [getServerDeployments] checks the owner of the server and then
    reads the deployments by server alone; in a reachable store that is
    enough: what the owner gets are the summaries of the deployments on
    that server, all of them, and every one is a deployment of the caller. *)
Theorem getServerDeployments_own_sites calls ctx user serverId server :
  auth_user ctx = Some user →
  servers (history calls) !! serverId = Some server →
  ServerDoc.userId server = user →
  ∃ sites,
    answer (Deployments.getServerDeployments ctx serverId) (history calls) = Ok sites
    ∧ ∀ site,
        site ∈ sites
        ↔ ∃ id deployment,
            deployments (history calls) !! id = Some deployment
            ∧ DeploymentDoc.serverId deployment = serverId
            ∧ DeploymentDoc.userId deployment = user
            ∧ site = Deployments.summary (id, deployment).
Proof.
  intros Hu Hs Hown.
  unfold answer, Deployments.getServerDeployments, requireUser, getAuthUser. rewrite Hu.
  unfold bind, db_get, collect, ret. simpl. rewrite Hs. rewrite decide_True by done.
  eexists. split; [done|]. intros site. rewrite list_elem_of_fmap. split.
  - intros ([id d] & -> & [Hd Hon]%elem_of_map_to_list%map_lookup_filter_Some).
    simpl in Hon. exists id, d. split_and!; [done..| |done].
    rewrite <- Hown. symmetry.
    eapply (deployment_server_owner _ (consistent_history calls)); [done|by rewrite Hon].
  - intros (id & d & Hd & Hon & _ & ->). exists (id, d). split; [done|].
    by apply elem_of_map_to_list, map_lookup_filter_Some.
Qed.

Lemma getServerDeployments_own_sites_witness :
  ∃ sites,
    answer (Deployments.getServerDeployments alice 1) (history alice_deploys_site) = Ok sites
    ∧ ∀ site,
        site ∈ sites
        ↔ ∃ id deployment,
            deployments (history alice_deploys_site) !! id = Some deployment
            ∧ DeploymentDoc.serverId deployment = 1
            ∧ DeploymentDoc.userId deployment = "alice"
            ∧ site = Deployments.summary (id, deployment).
Proof.
  apply (getServerDeployments_own_sites alice_deploys_site alice "alice" 1 alice_server).
  - reflexivity.
  - vm_compute. reflexivity.
  - reflexivity.
Defined.
